(** * Antigravity2Api: account manager and upstream dispatcher

    A shallow embedding of [src/auth/AuthManager.js] and
    [src/api/upstream.js], and the properties of the two that the
    specification states.

    Conventions of the embedding.
    - A JavaScript string is a [string]; a character is the code unit it
      denotes (code units up to 255).
    - Integral JavaScript numbers (millisecond instants, percentages, slot
      indices, HTTP statuses) are [Z].  [null]/[undefined] is [None].
    - Calls to the logger are left out: they write to a sink and change
      nothing the program reads back.
    - What the source calls but does not define ([path.basename], the
      [Response] constructor, the HTTP client, the file system, the retry
      hint read out of a JSON body) is a field of the environment [Env];
      the arithmetic of doubles is a [NumberOps].  Both are instantiated
      for the examples.
    - One request runs at a time: an [await] is the point where the answer
      of the outside arrives, and no other request runs in between.
    - [callV1Internal] is always given a [buildBody] function. *)

From Stdlib Require Import ZArith QArith Qround String Ascii List Bool Lia DecimalString.
From stdpp Require Import base option list strings gmap sorting.

Local Open Scope Z_scope.

(** The proofs below compute with string concatenation. *)
#[local] Arguments String.append !s1 s2 : simpl nomatch.

(* ===================================================================== *)
(** * Strings the way the source uses them *)
(* ===================================================================== *)

Module JsString.

Definition code (c : ascii) : N := N_of_ascii c.

(** [\d] of a regular expression without the unicode flag. *)
Definition is_digit (c : ascii) : bool :=
  (48 <=? code c)%N && (code c <=? 57)%N.

(** White space and line terminators among the code units up to 255:
    TAB, LF, VT, FF, CR, SP and NBSP.  [String.prototype.trim] and the
    regular expression class [\s] use the same set. *)
Definition is_space (c : ascii) : bool :=
  ((9 <=? code c)%N && (code c <=? 13)%N)
  || (code c =? 32)%N || (code c =? 160)%N.

Fixpoint all (p : ascii -> bool) (s : string) : bool :=
  match s with
  | EmptyString => true
  | String c r => p c && all p r
  end.

Definition is_empty (s : string) : bool :=
  match s with EmptyString => true | _ => false end.

Fixpoint trimStart (s : string) : string :=
  match s with
  | EmptyString => EmptyString
  | String c r => if is_space c then trimStart r else s
  end.

Fixpoint trimEnd (s : string) : string :=
  match s with
  | EmptyString => EmptyString
  | String c r =>
      let r' := trimEnd r in
      if is_space c && is_empty r' then EmptyString else String c r'
  end.

(** [String.prototype.trim] *)
Definition trim (s : string) : string := trimEnd (trimStart s).

(** [s.startsWith(p)] *)
Fixpoint startsWith (p s : string) : bool :=
  match p, s with
  | EmptyString, _ => true
  | String a p', String b s' => Ascii.eqb a b && startsWith p' s'
  | String _ _, EmptyString => false
  end.

(** [s.includes(p)] *)
Fixpoint includes (p s : string) : bool :=
  startsWith p s
  || match s with
     | EmptyString => false
     | String _ s' => includes p s'
     end.

(** [s.endsWith(p)] *)
Fixpoint endsWith (p s : string) : bool :=
  String.eqb p s
  || match s with
     | EmptyString => false
     | String _ s' => endsWith p s'
     end.

(** [String.prototype.toLowerCase] on the code units up to 255: the
    Latin capital letters, and the capitals of the Latin-1 supplement
    (all of 192..222 but the multiplication sign 215). *)
Definition lower_char (c : ascii) : ascii :=
  let n := code c in
  if ((65 <=? n)%N && (n <=? 90)%N)
     || ((192 <=? n)%N && (n <=? 222)%N && negb (n =? 215)%N)
  then ascii_of_N (n + 32) else c.

Fixpoint toLowerCase (s : string) : string :=
  match s with
  | EmptyString => EmptyString
  | String c r => String (lower_char c) (toLowerCase r)
  end.

End JsString.

(* ===================================================================== *)
(** * [parseDurationMs]: the duration scanner of upstream.js *)
(* ===================================================================== *)

Module Duration.
Import JsString.

(** The second group of the regular expression, [(ms|s|m|h)]. *)
Inductive Unit := Ums | Us | Um | Uh.

Definition unit_text (u : Unit) : string :=
  match u with Ums => "ms" | Us => "s" | Um => "m" | Uh => "h" end.

(** The class [[\d.]]. *)
Definition is_num_char (c : ascii) : bool := is_digit c || Ascii.eqb c ".".

(** Every way to cut a maximal run of [p]-characters off the front of [s],
    longest first: the order in which a greedy quantifier tries them. *)
Fixpoint greedy_splits (p : ascii -> bool) (s : string) : list (string * string) :=
  match s with
  | EmptyString => [(EmptyString, EmptyString)]
  | String c r =>
      if p c
      then map (fun ab => (String c (fst ab), snd ab)) (greedy_splits p r)
           ++ [(EmptyString, s)]
      else [(EmptyString, s)]
  end.

(** The alternation [ms|s|m|h], tried left to right. *)
Definition match_unit (s : string) : option (Unit * string) :=
  match s with
  | String "m" (String "s" r) => Some (Ums, r)
  | String "s" r => Some (Us, r)
  | String "m" r => Some (Um, r)
  | String "h" r => Some (Uh, r)
  | _ => None
  end.

Fixpoint first_some {A B} (f : A -> option B) (l : list A) : option B :=
  match l with
  | [] => None
  | a :: l' => match f a with Some b => Some b | None => first_some f l' end
  end.

(** [/([\d.]+)\s*(ms|s|m|h)/] anchored at the front of [s], by backtracking:
    the result is group 1, group 2 and what follows the match. *)
Definition match_here (s : string) : option (string * Unit * string) :=
  first_some
    (fun numSplit =>
       if is_empty (fst numSplit) then None
       else first_some
              (fun wsSplit =>
                 match match_unit (snd wsSplit) with
                 | Some (u, rest) => Some (fst numSplit, u, rest)
                 | None => None
                 end)
              (greedy_splits is_space (snd numSplit)))
    (greedy_splits is_num_char s).

(** [re.exec(str)] from the current [lastIndex]: the leftmost position at
    which the expression matches.  [s] is the string from [lastIndex] on. *)
Fixpoint regex_exec (s : string) : option (string * Unit * string) :=
  match match_here s with
  | Some m => Some m
  | None =>
      match s with
      | EmptyString => None
      | String _ r => regex_exec r
      end
  end.

(** The arithmetic of JavaScript numbers that [parseDurationMs] uses. *)
Record NumberOps := {
  num : Type;
  parseFloat : string -> num;
  Number_isFinite : num -> bool;
  num_of_Z : Z -> num;
  num_add : num -> num -> num;
  num_mul : num -> num -> num;
  Math_round : num -> num
}.

Section ParseDuration.
Variable J : NumberOps.

Notation "x +' y" := (num_add J x y) (at level 50, left associativity).
Notation "x *' y" := (num_mul J x y) (at level 40, left associativity).
Notation "# z" := (num_of_Z J z) (at level 9, format "# z").

(** The body of the [while] loop for one match [m]. *)
Definition loop_body (totalMs : num J) (m1 : string) (unit : Unit) : num J :=
  let value := parseFloat J m1 in
  if negb (Number_isFinite J value) then totalMs
  else match unit with
       | Ums => totalMs +' value
       | Us => totalMs +' value *' #1000
       | Um => totalMs +' value *' #60 *' #1000
       | Uh => totalMs +' value *' #60 *' #60 *' #1000
       end.

(** [while ((m = re.exec(str)) !== null) { matched = true; ... }].
    Every match is at least two characters long, so [String.length str]
    iterations are enough ([exec_loop_fuel]). *)
Fixpoint exec_loop (fuel : nat) (str : string) (totalMs : num J) (matched : bool)
  : num J * bool :=
  match fuel with
  | O => (totalMs, matched)
  | S fuel' =>
      match regex_exec str with
      | None => (totalMs, matched)
      | Some (m1, unit, rest) => exec_loop fuel' rest (loop_body totalMs m1 unit) true
      end
  end.

Definition parseDurationMs (durationStr : string) : option (num J) :=
  if is_empty durationStr then None
  else
    let str := trim durationStr in
    if is_empty str then None
    else
      let r := exec_loop (String.length str) str #0 false in
      if negb (snd r) then None else Some (Math_round J (fst r)).

End ParseDuration.

(** ** The duration grammar of the specification *)

(** A component: digits, an optional decimal part, a unit. *)
Record Component := {
  c_int : string;
  c_frac : option string;
  c_unit : Unit
}.

Definition digits (s : string) : bool := negb (is_empty s) && all is_digit s.

Definition wf_component (c : Component) : bool :=
  digits (c_int c)
  && match c_frac c with Some f => digits f | None => true end.

Definition num_text (c : Component) : string :=
  c_int c +:+ match c_frac c with Some f => "." +:+ f | None => EmptyString end.

Definition render (c : Component) : string := num_text c +:+ unit_text (c_unit c).

Fixpoint render_all (cs : list Component) : string :=
  match cs with
  | [] => EmptyString
  | c :: cs' => render c +:+ render_all cs'
  end.

(** A component converted to milliseconds, and the sum of a list of them,
    in the arithmetic [J]. *)
Definition to_ms (J : NumberOps) (c : Component) : num J :=
  let v := parseFloat J (num_text c) in
  match c_unit c with
  | Ums => v
  | Us => num_mul J v (num_of_Z J 1000)
  | Um => num_mul J (num_mul J v (num_of_Z J 60)) (num_of_Z J 1000)
  | Uh => num_mul J (num_mul J (num_mul J v (num_of_Z J 60)) (num_of_Z J 60))
            (num_of_Z J 1000)
  end.

Definition sum_ms (J : NumberOps) (cs : list Component) : num J :=
  fold_left (fun acc c => num_add J acc (to_ms J c)) cs (num_of_Z J 0).

(** A string contains a component of the grammar. *)
Definition contains_component (s : string) : Prop :=
  exists pre c post, wf_component c = true /\ s = pre +:+ render c +:+ post.

(** A string contains a match of the scanner's expression: a run of digits
    and dots, optional white space, a unit. *)
Definition contains_match (s : string) : Prop :=
  exists pre numtxt ws u post,
    s = pre +:+ numtxt +:+ ws +:+ unit_text u +:+ post
    /\ numtxt <> EmptyString
    /\ all is_num_char numtxt = true
    /\ all is_space ws = true.

(** ** An instance: exact arithmetic

    Numbers are the rationals and NaN ([None]); nothing is rounded before
    [Math.round], and no number overflows to an infinity. *)

Fixpoint span (p : ascii -> bool) (s : string) : string * string :=
  match s with
  | EmptyString => (EmptyString, EmptyString)
  | String c r =>
      if p c then (String c (fst (span p r)), snd (span p r))
      else (EmptyString, s)
  end.

Definition digit_val (c : ascii) : Z := Z.of_N (code c) - 48.

Fixpoint digits_acc (acc : Z) (s : string) : Z :=
  match s with
  | EmptyString => acc
  | String c r => digits_acc (10 * acc + digit_val c) r
  end.

(** [parseFloat] on a run of digits and dots: the longest prefix that is a
    decimal literal, NaN when that prefix has no digit. *)
Definition parseFloatQ (s : string) : option Q :=
  let ip := span is_digit s in
  let fp := match snd ip with
            | String "." r => fst (span is_digit r)
            | _ => EmptyString
            end in
  if is_empty (fst ip) && is_empty fp then None
  else Some (digits_acc 0 (fst ip +:+ fp)
             # Z.to_pos (10 ^ Z.of_nat (String.length fp))).

Definition lift2 (f : Q -> Q -> Q) (x y : option Q) : option Q :=
  match x, y with Some a, Some b => Some (f a b) | _, _ => None end.

(** [Math.round]: the nearest integer, halves upwards. *)
Definition roundQ (x : option Q) : option Q :=
  match x with
  | Some a => Some (inject_Z (Qfloor (a + (1 # 2))))
  | None => None
  end.

Definition ExactOps : NumberOps := {|
  num := option Q;
  parseFloat := parseFloatQ;
  Number_isFinite := fun x => match x with Some _ => true | None => false end;
  num_of_Z := fun z => Some (inject_Z z);
  num_add := lift2 Qplus;
  num_mul := lift2 Qmult;
  Math_round := roundQ
|}.

End Duration.

(* ===================================================================== *)
(** * The state of the gateway and the monad of its operations *)
(* ===================================================================== *)

Module Runtime.

(** A thrown [Error]: its message, and the [status] property when set. *)
Record JsError := {
  message : string;
  error_status : option Z
}.

Definition Error (msg : string) : JsError :=
  {| message := msg; error_status := None |}.

Inductive Outcome (A : Type) : Type :=
| Ok (a : A)
| Throw (e : JsError).
Arguments Ok {A} a.
Arguments Throw {A} e.

(** [projectIdResolvedAt]: absent, a number, or a string. *)
Inductive Marker :=
| MarkerAbsent
| MarkerNumber (n : Z)
| MarkerString (s : string).

(** The credential record of an account ([account.creds]). *)
Record Credentials := {
  access_token : string;
  refresh_token : string;
  expiry_date : option Z;
  token_type : option string;
  scope : option string;
  email : option string;
  projectId : option string;
  projectIdResolvedAt : Marker
}.

(** An account of the pool.  The two promise slots hold the identifier of
    the operation in flight, the timer slot the identifier of the timer. *)
Record Account := {
  filePath : string;
  creds : Credentials;
  refreshPromise : option nat;
  refreshTimer : option nat;
  projectPromise : option nat
}.

Inductive QuotaGroup := claude | gemini.

(** An entry of [modelQuotaByAccount]: the fields the dispatcher reads. *)
Record QuotaEntry := {
  remainingPercent : option Z;
  resetTimeMs : option Z;
  cooldownUntilMs : option Z;
  updatedAtMs : option Z
}.

Definition empty_entry : QuotaEntry :=
  {| remainingPercent := None; resetTimeMs := None;
     cooldownUntilMs := None; updatedAtMs := None |}.

Definition Headers := list (string * string).

(** An HTTP response: what the dispatcher reads of a [Response]. *)
Record Response := {
  status : Z;
  headers : Headers;
  bodyText : string
}.

(** An entry of [lastErrorByModel]. *)
Record CachedError := {
  cached_status : Z;
  cached_headers : Headers;
  cached_bodyText : string;
  cachedAtMs : Z
}.

(** The arguments of [httpClient.callV1Internal]. *)
Record Request := {
  req_method : string;
  req_accessToken : string;
  req_body : string;
  req_queryString : string;
  req_headers : Headers
}.

(** What the gateway does to the outside, in the order it does it. *)
Inductive Event :=
| EvRefreshToken (refreshToken : string)
| EvFetchProjectId (accessToken : string)
| EvCallV1Internal (req : Request)
| EvWriteFile (path : string) (content : Credentials)
| EvUnlink (path : string)
| EvScheduleRefresh (path : string)
| EvCancelRefresh (path : string)
| EvSleep (ms : Z).

(** The mutable state: the fields of the [AuthManager], the fields of the
    [UpstreamClient], the clock, and the trace of events so far. *)
Record World := {
  (* AuthManager *)
  accounts : list Account;
  current_claude : Z;
  current_gemini : Z;
  (* UpstreamClient *)
  modelQuotaByAccount : gmap string (gmap string QuotaEntry);
  lastErrorByModel : gmap string CachedError;
  initialQuotaRefreshDone : bool;
  (* the process *)
  clock : Z;
  next_id : nat;
  trace : list Event
}.

(** A number of milliseconds as [parseDurationMs] returns it, and as
    [parseRetryDelayMs] hands it on: [Math.round] of a sum of finite terms
    that are not negative, so an integer, or [Infinity] when a product or
    the sum has overflowed. *)
Inductive Millis :=
| Finite (ms : Z)
| Infinity.

(** The world outside the two classes. *)
Record Env := {
  (** [path.basename] *)
  path_basename : string -> string;
  (** [new Date(t).toISOString()] *)
  toISOString : Z -> string;
  (** [new Response(body, {status, headers})]; [None] when it throws *)
  new_Response : string -> Z -> Headers -> option Response;
  (** [parseRetryDelayMs]: the retry hint in the body of a 429, read out of
      its JSON with [parseDurationMs]; [None] is [null] *)
  parseRetryDelayMs : string -> option Millis;
  (** [AG2API_RETRY_DELAY_MS], 1200 unless the environment sets it *)
  FIXED_RETRY_DELAY_MS : Z;
  (** the answers of the servers, by the number of events before the call *)
  httpClient_refreshToken : nat -> string -> Outcome Credentials;
  httpClient_fetchProjectId : nat -> string -> Outcome (option string);
  httpClient_callV1Internal : nat -> Request -> Outcome Response;
  (** [fs.writeFile]: the error it fails with, if it fails *)
  fs_writeFile : nat -> string -> option JsError;
  (** how long the operation started after [n] events takes *)
  elapsed : nat -> Z;
  (** the state once the initial quota refresh has settled or
      [INITIAL_QUOTA_WAIT_MS] have passed, whichever is first *)
  await_initial_refresh : World -> World
}.

(** ** Field updates *)

Definition set_accounts (l : list Account) (w : World) : World :=
  {| accounts := l; current_claude := current_claude w;
     current_gemini := current_gemini w;
     modelQuotaByAccount := modelQuotaByAccount w;
     lastErrorByModel := lastErrorByModel w;
     initialQuotaRefreshDone := initialQuotaRefreshDone w;
     clock := clock w; next_id := next_id w; trace := trace w |}.

Definition set_current (g : QuotaGroup) (i : Z) (w : World) : World :=
  {| accounts := accounts w;
     current_claude := match g with claude => i | gemini => current_claude w end;
     current_gemini := match g with gemini => i | claude => current_gemini w end;
     modelQuotaByAccount := modelQuotaByAccount w;
     lastErrorByModel := lastErrorByModel w;
     initialQuotaRefreshDone := initialQuotaRefreshDone w;
     clock := clock w; next_id := next_id w; trace := trace w |}.

Definition set_quota (q : gmap string (gmap string QuotaEntry)) (w : World) : World :=
  {| accounts := accounts w; current_claude := current_claude w;
     current_gemini := current_gemini w;
     modelQuotaByAccount := q;
     lastErrorByModel := lastErrorByModel w;
     initialQuotaRefreshDone := initialQuotaRefreshDone w;
     clock := clock w; next_id := next_id w; trace := trace w |}.

Definition set_lastError (m : gmap string CachedError) (w : World) : World :=
  {| accounts := accounts w; current_claude := current_claude w;
     current_gemini := current_gemini w;
     modelQuotaByAccount := modelQuotaByAccount w;
     lastErrorByModel := m;
     initialQuotaRefreshDone := initialQuotaRefreshDone w;
     clock := clock w; next_id := next_id w; trace := trace w |}.

Definition set_clock (t : Z) (w : World) : World :=
  {| accounts := accounts w; current_claude := current_claude w;
     current_gemini := current_gemini w;
     modelQuotaByAccount := modelQuotaByAccount w;
     lastErrorByModel := lastErrorByModel w;
     initialQuotaRefreshDone := initialQuotaRefreshDone w;
     clock := t; next_id := next_id w; trace := trace w |}.

Definition set_next_id (n : nat) (w : World) : World :=
  {| accounts := accounts w; current_claude := current_claude w;
     current_gemini := current_gemini w;
     modelQuotaByAccount := modelQuotaByAccount w;
     lastErrorByModel := lastErrorByModel w;
     initialQuotaRefreshDone := initialQuotaRefreshDone w;
     clock := clock w; next_id := n; trace := trace w |}.

Definition set_trace (t : list Event) (w : World) : World :=
  {| accounts := accounts w; current_claude := current_claude w;
     current_gemini := current_gemini w;
     modelQuotaByAccount := modelQuotaByAccount w;
     lastErrorByModel := lastErrorByModel w;
     initialQuotaRefreshDone := initialQuotaRefreshDone w;
     clock := clock w; next_id := next_id w; trace := t |}.

Definition set_creds (c : Credentials) (a : Account) : Account :=
  {| filePath := filePath a; creds := c; refreshPromise := refreshPromise a;
     refreshTimer := refreshTimer a; projectPromise := projectPromise a |}.

Definition set_refreshPromise (p : option nat) (a : Account) : Account :=
  {| filePath := filePath a; creds := creds a; refreshPromise := p;
     refreshTimer := refreshTimer a; projectPromise := projectPromise a |}.

Definition set_refreshTimer (t : option nat) (a : Account) : Account :=
  {| filePath := filePath a; creds := creds a; refreshPromise := refreshPromise a;
     refreshTimer := t; projectPromise := projectPromise a |}.

Definition set_projectPromise (p : option nat) (a : Account) : Account :=
  {| filePath := filePath a; creds := creds a; refreshPromise := refreshPromise a;
     refreshTimer := refreshTimer a; projectPromise := p |}.

Definition set_projectId (p : option string) (m : Marker) (c : Credentials) : Credentials :=
  {| access_token := access_token c; refresh_token := refresh_token c;
     expiry_date := expiry_date c; token_type := token_type c; scope := scope c;
     email := email c; projectId := p; projectIdResolvedAt := m |}.

Definition set_email (e : option string) (c : Credentials) : Credentials :=
  {| access_token := access_token c; refresh_token := refresh_token c;
     expiry_date := expiry_date c; token_type := token_type c; scope := scope c;
     email := e; projectId := projectId c;
     projectIdResolvedAt := projectIdResolvedAt c |}.

(** ** The monad: state and exceptions *)

Definition M (A : Type) : Type := World -> Outcome A * World.

Definition ret {A} (a : A) : M A := fun w => (Ok a, w).

Definition throw {A} (e : JsError) : M A := fun w => (Throw e, w).

Definition bind {A B} (m : M A) (k : A -> M B) : M B :=
  fun w => match m w with
           | (Ok a, w') => k a w'
           | (Throw e, w') => (Throw e, w')
           end.

(** [try { body } finally { cleanup }] *)
Definition try_finally {A} (body : M A) (cleanup : World -> World) : M A :=
  fun w => let r := body w in (fst r, cleanup (snd r)).

(** [try { body } catch (e) { handler(e) }] *)
Definition try_catch {A} (body : M A) (handler : JsError -> M A) : M A :=
  fun w => match body w with
           | (Ok a, w') => (Ok a, w')
           | (Throw e, w') => handler e w'
           end.

Definition get : M World := fun w => (Ok w, w).
Definition modify (f : World -> World) : M unit := fun w => (Ok tt, f w).

(** An operation on the outside is recorded; the result is its position in
    the trace. *)
Definition record (ev : Event) : M nat :=
  fun w => (Ok (length (trace w)), set_trace (trace w ++ [ev]) w).

(** Waiting for the operation recorded at position [n]: time passes. *)
Definition await_io (E : Env) (n : nat) : M unit :=
  fun w => (Ok tt, set_clock (clock w + elapsed E n) w).

(** [await this.sleep(ms)] *)
Definition sleep (ms : Z) : M unit :=
  fun w => (Ok tt, set_clock (clock w + ms) (set_trace (trace w ++ [EvSleep ms]) w)).

(** [Date.now()] *)
Definition Date_now : M Z := fun w => (Ok (clock w), w).

Definition fresh_id : M nat :=
  fun w => (Ok (next_id w), set_next_id (S (next_id w)) w).

Definition of_outcome {A} (o : Outcome A) : M A := fun w => (o, w).

End Runtime.

Declare Scope js_scope.
Delimit Scope js_scope with js.
Notation "x <~ m ; k" := (Runtime.bind m (fun x => k))
  (at level 20, m at level 100, k at level 200, only parsing) : js_scope.

(* ===================================================================== *)
(** * auth/AuthManager.js *)
(* ===================================================================== *)

Module AuthManager.
Import JsString Runtime.
Local Open Scope js_scope.

Definition string_of_Z (z : Z) : string := NilZero.string_of_int (Z.to_int z).

Definition normalizeQuotaGroup (group : string) : QuotaGroup :=
  let g := toLowerCase (trim group) in
  if String.eqb g "claude" then claude
  else if String.eqb g "gemini" then gemini
  else gemini.

Definition isValidProjectId (projectId : option string) : bool :=
  let value := match projectId with Some v => trim v | None => EmptyString end in
  negb (is_empty value).

Definition hasProjectIdRepairMarker (c : Credentials) : bool :=
  match projectIdResolvedAt c with
  | MarkerNumber _ => true
  | MarkerString s => negb (is_empty (trim s))
  | MarkerAbsent => false
  end.

Definition sanitizeCredentialFileName (fileName : string) : Outcome string :=
  let name := trim fileName in
  if is_empty name then Throw (Error "file name is required")
  else if includes "/" name || includes "\" name || includes ".." name
       then Throw (Error "invalid file name")
  else if negb (endsWith ".json" name)
       then Throw (Error "invalid credentials file (must be .json)")
  else Ok name.

(** [Array.prototype.findIndex]: the first slot that satisfies [p], or -1. *)
Fixpoint findIndex_from {A} (p : A -> bool) (l : list A) (i : Z) : Z :=
  match l with
  | [] => -1
  | a :: r => if p a then i else findIndex_from p r (i + 1)
  end.

Definition findIndex {A} (p : A -> bool) (l : list A) : Z := findIndex_from p l 0.

Definition getAccountCount (w : World) : Z := Z.of_nat (length (accounts w)).

Definition getCurrentAccountIndex (group : QuotaGroup) (w : World) : Z :=
  match group with claude => current_claude w | gemini => current_gemini w end.

Definition setCurrentAccountIndex (group : QuotaGroup) (index : Z) : M unit :=
  modify (set_current group index).

(** [this.accounts[i]]; reading a property of a slot that does not exist
    throws a [TypeError]. *)
Definition get_account (i : nat) : M Account :=
  fun w => match accounts w !! i with
           | Some a => (Ok a, w)
           | None => (Throw (Error "TypeError: Cannot read properties of undefined"), w)
           end.

(** A field of the account object in slot [i] is assigned. *)
Definition update_account (i : nat) (f : Account -> Account) : M unit :=
  modify (fun w => set_accounts (alter f i (accounts w)) w).

(** Modelled from the spec: [TokenRefresher.cancelRefresh] is not among the
    sources; it cancels the account's refresh timer and is idempotent. *)
Definition cancelRefresh (i : nat) : M unit :=
  a <~ get_account i;
  _ <~ record (EvCancelRefresh (filePath a));
  update_account i (set_refreshTimer None).

(** Modelled from the spec: [TokenRefresher.scheduleRefresh] is not among
    the sources; it cancels any previous timer and installs a new one. *)
Definition scheduleRefresh (i : nat) : M unit :=
  a <~ get_account i;
  t <~ fresh_id;
  _ <~ record (EvScheduleRefresh (filePath a));
  update_account i (set_refreshTimer (Some t)).

Section WithEnv.
Variable E : Env.

(** The group loop at the end of [deleteAccountByFile], for one group. *)
Definition adjust_current (idx : Z) (group : QuotaGroup) : M unit :=
  w <~ get;
  let current := getCurrentAccountIndex group w in
  if getAccountCount w =? 0 then setCurrentAccountIndex group 0
  else if idx <? current then setCurrentAccountIndex group (Z.max 0 (current - 1))
  else if idx =? current
       then setCurrentAccountIndex group (Z.min current (getAccountCount w - 1))
  else ret tt.

(** The manager always has a [tokenRefresher] (the constructor makes one),
    so the timer is cancelled through it. *)
Definition deleteAccountByFile (fileName : string) : M bool :=
  safeName <~ of_outcome (sanitizeCredentialFileName fileName);
  w <~ get;
  let idx := findIndex (fun a => String.eqb (path_basename E (filePath a)) safeName)
               (accounts w) in
  if idx =? -1 then ret false
  else
    let i := Z.to_nat idx in
    account <~ get_account i;
    _ <~ cancelRefresh i;
    n <~ record (EvUnlink (filePath account));
    _ <~ await_io E n;
    _ <~ modify (fun w => set_accounts (delete i (accounts w)) w);
    _ <~ adjust_current idx claude;
    _ <~ adjust_current idx gemini;
    ret true.

(** [httpClient.fetchProjectId(accessToken, limiter, {maxAttempts: 3})] *)
Definition fetchProjectId (accessToken : string) : M (option string) :=
  n <~ record (EvFetchProjectId accessToken);
  _ <~ await_io E n;
  of_outcome (httpClient_fetchProjectId E n accessToken).

(** [await fs.writeFile(path, JSON.stringify(creds, null, 2))] *)
Definition writeFile (path : string) (content : Credentials) : M unit :=
  n <~ record (EvWriteFile path content);
  _ <~ await_io E n;
  match fs_writeFile E n path with
  | Some e => throw e
  | None => ret tt
  end.

(** ** [refreshToken]

    [refreshToken(account)] runs up to its first [await] when it is called:
    it either hands out the promise in the slot, or sends the refresh
    request and stores the new promise.  A promise is identified by the
    position of its request in the trace. *)
Definition refreshToken_start (i : nat) : M nat :=
  account <~ get_account i;
  match refreshPromise account with
  | Some p => ret p
  | None =>
      p <~ record (EvRefreshToken (refresh_token (creds account)));
      _ <~ update_account i (set_refreshPromise (Some p));
      ret p
  end.

(** "Ensure projectId" in [refreshToken]: the verified project id of the
    account is carried over to [data], or a new one is fetched. *)
Definition refresh_projectId (account : Account) (data : Credentials) : M Credentials :=
  let existingProjectId := projectId (creds account) in
  if isValidProjectId existingProjectId && hasProjectIdRepairMarker (creds account)
  then ret (set_projectId (option_map trim existingProjectId)
              (projectIdResolvedAt (creds account)) data)
  else
    projectId <~ fetchProjectId (access_token data);
    if negb (isValidProjectId projectId)
    then throw (Error ("Failed to obtain valid projectId during refresh: "
                       +:+ default EmptyString projectId))
    else
      now <~ Date_now;
      ret (set_projectId projectId (MarkerString (toISOString E now)) data).

(** The [try] block of the asynchronous function, from the answer of the
    token endpoint on. *)
Definition refreshToken_body (i : nat) (p : nat) : M string :=
  account <~ get_account i;
  _ <~ await_io E p;
  data <~ of_outcome (httpClient_refreshToken E p (refresh_token (creds account)));
  account <~ get_account i;
  let data :=
    match email (creds account) with
    | Some e => if is_empty e then data else set_email (Some e) data
    | None => data
    end in
  data <~ refresh_projectId account data;
  _ <~ update_account i (set_creds data);
  _ <~ writeFile (filePath account) data;
  _ <~ scheduleRefresh i;
  ret (access_token data).

(** The rest of the asynchronous function: the [try] block and the
    [finally] that empties the slot.  Awaiting the promise [p] is running
    this. *)
Definition refreshToken_settle (i : nat) (p : nat) : M string :=
  try_finally (refreshToken_body i p)
    (fun w => set_accounts (alter (set_refreshPromise None) i (accounts w)) w).

(** [await this.refreshToken(account)] *)
Definition refreshToken (i : nat) : M string :=
  p <~ refreshToken_start i;
  refreshToken_settle i p.

(** ** [ensureProjectId] *)
Definition projectId_body (i : nat) (p : nat) : M string :=
  account <~ get_account i;
  _ <~ await_io E p;
  projectId <~ of_outcome (httpClient_fetchProjectId E p (access_token (creds account)));
  if negb (isValidProjectId projectId)
  then throw (Error ("Failed to obtain valid projectId: "
                     +:+ default EmptyString projectId))
  else
    now <~ Date_now;
    account <~ get_account i;
    let c := set_projectId projectId (MarkerString (toISOString E now)) (creds account) in
    _ <~ update_account i (set_creds c);
    _ <~ writeFile (filePath account) c;
    ret (default EmptyString projectId).

Definition projectId_settle (i : nat) (p : nat) : M string :=
  try_finally (projectId_body i p)
    (fun w => set_accounts (alter (set_projectPromise None) i (accounts w)) w).

Definition ensureProjectId (i : nat) : M string :=
  account <~ get_account i;
  let existing := projectId (creds account) in
  if isValidProjectId existing && hasProjectIdRepairMarker (creds account)
  then ret (trim (default EmptyString existing))
  else
    match projectPromise account with
    | Some p => projectId_settle i p
    | None =>
        p <~ record (EvFetchProjectId (access_token (creds account)));
        _ <~ update_account i (set_projectPromise (Some p));
        projectId_settle i p
    end.

(** ** Credential lookup *)

Record CredentialsResult := {
  accessToken : string;
  result_projectId : option string;
  account : Account;
  accountIndex : Z
}.

(** [account.creds.expiry_date < +new Date()] *)
Definition expired (a : Account) (now : Z) : bool :=
  match expiry_date (creds a) with
  | Some e => e <? now
  | None => false
  end.

(** The part the three lookups share: join a refresh in flight, then
    refresh if the token has expired. *)
Definition fresh_token (i : nat) : M unit :=
  account <~ get_account i;
  _ <~ match refreshPromise account with
       | Some p => _ <~ refreshToken_settle i p; ret tt
       | None => ret tt
       end;
  account <~ get_account i;
  now <~ Date_now;
  if expired account now
  then _ <~ refreshToken i; ret tt
  else ret tt.

Definition check_index (index : Z) : M nat :=
  w <~ get;
  if getAccountCount w =? 0
  then throw (Error "No accounts available. Please authenticate first.")
  else if (index <? 0) || (getAccountCount w <=? index)
       then throw (Error ("Invalid account index: " +:+ string_of_Z index))
  else ret (Z.to_nat index).

Definition getCredentialsByIndex (index : Z) (group : string) : M CredentialsResult :=
  i <~ check_index index;
  _ <~ fresh_token i;
  _ <~ ensureProjectId i;
  account <~ get_account i;
  ret {| accessToken := access_token (creds account);
         result_projectId := projectId (creds account);
         account := account;
         accountIndex := index |}.

Definition getAccessTokenByIndex (index : Z) (group : string) : M CredentialsResult :=
  i <~ check_index index;
  _ <~ fresh_token i;
  account <~ get_account i;
  ret {| accessToken := access_token (creds account);
         result_projectId := None;
         account := account;
         accountIndex := index |}.

Definition getCredentials (group : string) : M CredentialsResult :=
  w <~ get;
  if getAccountCount w =? 0
  then throw (Error "No accounts available. Please authenticate first.")
  else
    let quotaGroup := normalizeQuotaGroup group in
    let index := getCurrentAccountIndex quotaGroup w in
    let i := Z.to_nat index in
    _ <~ (if index <? 0 then throw (Error "TypeError: Cannot read properties of undefined")
          else ret tt);
    _ <~ fresh_token i;
    _ <~ ensureProjectId i;
    account <~ get_account i;
    ret {| accessToken := access_token (creds account);
           result_projectId := projectId (creds account);
           account := account;
           accountIndex := index |}.

End WithEnv.

End AuthManager.

(* ===================================================================== *)
(** * api/upstream.js *)
(* ===================================================================== *)

Module UpstreamClient.
Import JsString Runtime AuthManager.
Local Open Scope js_scope.

(** First request will wait up to this long for the initial quota refresh. *)
Definition INITIAL_QUOTA_WAIT_MS : Z := 3000.

Definition getMaxAttempts (w : World) : Z := Z.max 1 (getAccountCount w).

Definition getQuotaGroupFromModel (model : string) : QuotaGroup :=
  let m := toLowerCase model in
  if includes "claude" m then claude
  else if includes "gemini" m then gemini
  else gemini.

Definition group_name (g : QuotaGroup) : string :=
  match g with claude => "claude" | gemini => "gemini" end.

(** [response.ok] *)
Definition response_ok (r : Response) : bool :=
  (200 <=? status r) && (status r <=? 299).

Definition set_cooldownUntilMs (c : option Z) (q : QuotaEntry) : QuotaEntry :=
  {| remainingPercent := remainingPercent q; resetTimeMs := resetTimeMs q;
     cooldownUntilMs := c; updatedAtMs := updatedAtMs q |}.

(** An element of the list that [getAccountPrioritiesForModel] returns. *)
Record Item := {
  item_accountIndex : Z;
  item_accountKey : string;
  item_remainingPercent : option Z;
  item_resetTimeMs : option Z;
  item_cooldownUntilMs : Z;
  cooldownActive : bool
}.

Record Priorities := {
  items : list Item;
  allKnown : bool;
  allZeroKnown : bool
}.

(** The comparator handed to [items.sort].  Only the sign of its result is
    used; where the source subtracts an infinity the result is 1 or -1. *)
Definition compareItems (a b : Item) : Z :=
  if negb (eqb (cooldownActive a) (cooldownActive b))
  then (if cooldownActive a then 1 else -1)
  else
    let aPct := default (-1) (item_remainingPercent a) in
    let bPct := default (-1) (item_remainingPercent b) in
    if negb (aPct =? bPct) then bPct - aPct
    else
      match item_resetTimeMs a, item_resetTimeMs b with
      | Some aReset, Some bReset =>
          if negb (aReset =? bReset) then aReset - bReset
          else item_accountIndex a - item_accountIndex b
      | Some _, None => -1
      | None, Some _ => 1
      | None, None => item_accountIndex a - item_accountIndex b
      end.

(** [a] may stand before [b] in the sorted array. *)
Definition item_le (a b : Item) : Prop := compareItems a b <= 0.

#[export] Instance item_le_dec (a b : Item) : Decision (item_le a b).
Proof. unfold item_le. apply _. Defined.

(** The options of [getAccountPrioritiesForModel]. *)
Record PriorityOptions := {
  opt_now : Z;
  includeZero : bool;
  excludeAccountIndices : gset Z
}.

(** The counters and the list that the [for] loop builds. *)
Record Scan := {
  knownCount : Z;
  nonZeroKnownCount : Z;
  scanned : list Item
}.

Record LoopState := {
  lastResponse : option Response;
  lastNetworkError : option JsError;
  triedAccountIndices : gset Z
}.

(** How an iteration of the attempt loop ends. *)
Inductive Control :=
| Return (r : Response)
| Continue (ls : LoopState)
| Break (ls : LoopState).

(** The options of [callV1Internal]; an absent string is empty. *)
Record Options := {
  options_group : string;
  options_model : string;
  options_queryString : string;
  options_headers : Headers;
  buildBody : option string -> string
}.

Section WithEnv.
Variable E : Env.

Definition getAccountKeyFromAccount (a : Account) : string :=
  if is_empty (filePath a) then "unknown-account" else path_basename E (filePath a).

(** [Number.isFinite(cooldownUntilMs) ? cooldownUntilMs : null] *)
Definition finite_or_null (value : Millis) : option Z :=
  match value with
  | Finite c => Some c
  | Infinity => None
  end.

Definition setCooldownUntil (modelId accountKey : string) (cooldownUntil : Millis)
  : M unit :=
  let key := trim modelId in
  if is_empty key then ret tt
  else
    modify (fun w =>
      let perModel := default ∅ (modelQuotaByAccount w !! key) in
      let prev := default empty_entry (perModel !! accountKey) in
      set_quota
        (<[key := <[accountKey := set_cooldownUntilMs (finite_or_null cooldownUntil) prev]>
                    perModel]>
           (modelQuotaByAccount w))
        w).

Definition cacheLastErrorResponse (modelId : string) (response : Response) : M unit :=
  let key := trim modelId in
  if is_empty key then ret tt
  else
    now <~ Date_now;
    modify (fun w =>
      set_lastError
        (<[key := {| cached_status := status response;
                     cached_headers := headers response;
                     cached_bodyText := bodyText response;
                     cachedAtMs := now |}]> (lastErrorByModel w))
        w).

Definition getCachedErrorResponse (modelId : string) (w : World) : option Response :=
  let key := trim modelId in
  if is_empty key then None
  else
    match lastErrorByModel w !! key with
    | None => None
    | Some cached =>
        new_Response E (cached_bodyText cached)
          (if cached_status cached =? 0 then 500 else cached_status cached)
          (cached_headers cached)
    end.

(** The body of the [for] loop of [getAccountPrioritiesForModel], from
    [accountIndex] on. *)
Fixpoint scan_accounts (perModel : option (gmap string QuotaEntry)) (o : PriorityOptions)
    (accountIndex : Z) (accs : list Account) (acc : Scan) : Scan :=
  match accs with
  | [] => acc
  | account :: rest =>
      let next := scan_accounts perModel o (accountIndex + 1) rest in
      if bool_decide (accountIndex ∈ excludeAccountIndices o) then next acc
      else
        let accountKey := getAccountKeyFromAccount account in
        let q := match perModel with Some pm => pm !! accountKey | None => None end in
        let pct := q ≫= remainingPercent in
        let known := match pct with Some _ => 1 | None => 0 end in
        let nonZero := match pct with
                       | Some p => if 0 <? p then 1 else 0
                       | None => 0
                       end in
        let acc' := {| knownCount := knownCount acc + known;
                       nonZeroKnownCount := nonZeroKnownCount acc + nonZero;
                       scanned := scanned acc |} in
        if negb (includeZero o) && bool_decide (pct = Some 0)
        then next acc'
        else
          let cooldownUntil := default 0 (q ≫= cooldownUntilMs) in
          next {| knownCount := knownCount acc';
                  nonZeroKnownCount := nonZeroKnownCount acc';
                  scanned := scanned acc' ++
                    [{| item_accountIndex := accountIndex;
                        item_accountKey := accountKey;
                        item_remainingPercent := pct;
                        item_resetTimeMs := q ≫= resetTimeMs;
                        item_cooldownUntilMs := cooldownUntil;
                        cooldownActive := opt_now o <? cooldownUntil |}] |}
  end.

Definition getAccountPrioritiesForModel (modelId : string) (o : PriorityOptions)
    (w : World) : Priorities :=
  let perModel := modelQuotaByAccount w !! trim modelId in
  let s := scan_accounts perModel o 0 (accounts w)
             {| knownCount := 0; nonZeroKnownCount := 0; scanned := [] |} in
  let allKnown := (0 <? getAccountCount w) && (knownCount s =? getAccountCount w) in
  {| items := merge_sort item_le (scanned s);
     allKnown := allKnown;
     allZeroKnown := allKnown && (nonZeroKnownCount s =? 0) |}.

(** [await httpClient.callV1Internal(method, accessToken, body, {...})] *)
Definition http_call (req : Request) : M Response :=
  n <~ record (EvCallV1Internal req);
  _ <~ await_io E n;
  of_outcome (httpClient_callV1Internal E n req).

Definition set_lastResponse (r : option Response) (ls : LoopState) : LoopState :=
  {| lastResponse := r; lastNetworkError := lastNetworkError ls;
     triedAccountIndices := triedAccountIndices ls |}.

Definition set_lastNetworkError (e : option JsError) (ls : LoopState) : LoopState :=
  {| lastResponse := lastResponse ls; lastNetworkError := e;
     triedAccountIndices := triedAccountIndices ls |}.

Definition add_tried (i : Z) (ls : LoopState) : LoopState :=
  {| lastResponse := lastResponse ls; lastNetworkError := lastNetworkError ls;
     triedAccountIndices := {[ i ]} ∪ triedAccountIndices ls |}.

(** [if (modelId) await this.cacheLastErrorResponse(modelId, response)] *)
Definition cache_for_model (modelId : string) (response : Response) : M unit :=
  if is_empty modelId then ret tt else cacheLastErrorResponse modelId response.

(** The cooldown a 429 puts on the account:
    [now + (retryMs != null ? Math.max(0, retryMs) : FIXED_RETRY_DELAY_MS)]. *)
Definition cooldown_after (now : Z) (retryMs : option Millis) : Millis :=
  match retryMs with
  | Some (Finite r) => Finite (now + Z.max 0 r)
  | Some Infinity => Infinity
  | None => Finite (now + FIXED_RETRY_DELAY_MS E)
  end.

(** With a single attempt: [None] when [retryMs != null && retryMs > 5000]
    and the 429 is returned as it is, and otherwise the delay before the
    request is repeated,
    [retryMs == null ? FIXED_RETRY_DELAY_MS : Math.max(0, retryMs + 200)]. *)
Definition retry_delay (retryMs : option Millis) : option Z :=
  match retryMs with
  | Some Infinity => None
  | Some (Finite r) => if 5000 <? r then None else Some (Z.max 0 (r + 200))
  | None => Some (FIXED_RETRY_DELAY_MS E)
  end.

(** The loop body from the test of [response.ok] to its end: what the
    dispatcher does with the response of an attempt. *)
Definition on_response (modelId : string) (maxAttempts now : Z) (accountName : string)
    (req : Request) (ls : LoopState) (response : Response) : M Control :=
  if response_ok response then ret (Return response)
  else if negb (status response =? 429) then
    _ <~ cache_for_model modelId response;
    ret (Return response)
  else
    let ls := set_lastResponse (Some response) ls in
    _ <~ cache_for_model modelId response;
    let retryMs := parseRetryDelayMs E (bodyText response) in
    _ <~ (if is_empty modelId then ret tt
          else setCooldownUntil modelId accountName (cooldown_after now retryMs));
    if maxAttempts =? 1 then
      match retry_delay retryMs with
      | None => ret (Return response)
      | Some delay =>
          _ <~ sleep delay;
          retryResp <~ http_call req;
          if response_ok retryResp then ret (Return retryResp)
          else
            _ <~ cache_for_model modelId retryResp;
            ret (Return retryResp)
      end
    else
      _ <~ match retryMs with
           | None => sleep (FIXED_RETRY_DELAY_MS E)
           | Some _ => ret tt
           end;
      ret (Continue ls).

(** The choice of the account of an iteration. *)
Definition select (modelId : string) (quotaGroup : QuotaGroup) (now : Z)
    (ls : LoopState) : M (Control + Item) :=
  w <~ get;
  if negb (is_empty modelId) then
    let its := items (getAccountPrioritiesForModel modelId
                        {| opt_now := now; includeZero := false;
                           excludeAccountIndices := triedAccountIndices ls |} w) in
    match its with
    | [] => ret (inl (Break ls))
    | first :: _ =>
        if forallb cooldownActive its then
          match getCachedErrorResponse modelId w with
          | Some cached => ret (inl (Return cached))
          | None =>
              match lastResponse ls with
              | Some r => ret (inl (Return r))
              | None =>
                  match lastNetworkError ls with
                  | Some e => throw e
                  | None => throw (Error ("All accounts are in cooldown for model "
                                          +:+ modelId))
                  end
              end
          end
        else ret (inr first)
    end
  else
    ret (inr {| item_accountIndex := getCurrentAccountIndex quotaGroup w;
                item_accountKey := "unknown-account";
                item_remainingPercent := None;
                item_resetTimeMs := None;
                item_cooldownUntilMs := 0;
                cooldownActive := false |}).

Definition make_request (method : string) (options : Options)
    (creds : CredentialsResult) : Request :=
  {| req_method := method;
     req_accessToken := accessToken creds;
     req_body := buildBody options (result_projectId creds);
     req_queryString := options_queryString options;
     req_headers := options_headers options |}.

(** One iteration of the [for] loop of [callV1Internal]. *)
Definition attempt (method : string) (options : Options) (modelId : string)
    (quotaGroup : QuotaGroup) (maxAttempts : Z) (ls : LoopState) : M Control :=
  now <~ Date_now;
  s <~ select modelId quotaGroup now ls;
  match s with
  | inl c => ret c
  | inr picked =>
      let ls := add_tried (item_accountIndex picked) ls in
      creds <~ getCredentialsByIndex E (item_accountIndex picked) (group_name quotaGroup);
      let accountName := getAccountKeyFromAccount (account creds) in
      let req := make_request method options creds in
      r <~ try_catch (response <~ http_call req; ret (inr response))
             (fun netErr => ret (inl netErr));
      match r with
      | inr response => on_response modelId maxAttempts now accountName req ls response
      | inl netErr =>
          let ls := set_lastNetworkError (Some netErr) ls in
          if maxAttempts =? 1 then
            _ <~ sleep (FIXED_RETRY_DELAY_MS E);
            response <~ http_call req;
            on_response modelId maxAttempts now accountName req ls response
          else
            _ <~ sleep (FIXED_RETRY_DELAY_MS E);
            ret (Continue ls)
      end
  end.

(** [for (let attempts = 0; attempts < maxAttempts; attempts++)]: the
    iterations that remain.  The result is the response the loop returned,
    or the state it ended with. *)
Fixpoint attempt_loop (remaining : nat) (method : string) (options : Options)
    (modelId : string) (quotaGroup : QuotaGroup) (maxAttempts : Z) (ls : LoopState)
  : M (Response + LoopState) :=
  match remaining with
  | O => ret (inr ls)
  | S remaining' =>
      c <~ attempt method options modelId quotaGroup maxAttempts ls;
      match c with
      | Return r => ret (inl r)
      | Break ls' => ret (inr ls')
      | Continue ls' =>
          attempt_loop remaining' method options modelId quotaGroup maxAttempts ls'
      end
  end.

(** The statements after the loop. *)
Definition exhausted (method modelId : string) (ls : LoopState) : M Response :=
  match lastResponse ls with
  | Some r => ret r
  | None =>
      match lastNetworkError ls with
      | Some e => throw e
      | None =>
          w <~ get;
          match (if is_empty modelId then None else getCachedErrorResponse modelId w) with
          | Some cached => ret cached
          | None =>
              throw {| message := "Upstream call exhausted without a response (v1internal:"
                                  +:+ method +:+ ")";
                       error_status := Some 500 |}
          end
      end
  end.

(** The fast-fail gate: [Some] response when the call ends in it. *)
Definition fast_fail (method : string) (options : Options) (modelId : string)
    (quotaGroup : QuotaGroup) : M (option Response) :=
  if is_empty modelId then ret None
  else
    w <~ get;
    let snapshot := getAccountPrioritiesForModel modelId
                      {| opt_now := clock w; includeZero := true;
                         excludeAccountIndices := ∅ |} w in
    if allZeroKnown snapshot then
      match getCachedErrorResponse modelId w with
      | Some cached => ret (Some cached)
      | None =>
          match items snapshot with
          | [] => throw (Error ("No accounts available for model " +:+ modelId))
          | pick :: _ =>
              creds <~ getCredentialsByIndex E (item_accountIndex pick)
                         (group_name quotaGroup);
              response <~ http_call (make_request method options creds);
              _ <~ (if response_ok response then ret tt
                    else cacheLastErrorResponse modelId response);
              ret (Some response)
          end
      end
    else ret None.

Definition initial_loop_state : LoopState :=
  {| lastResponse := None; lastNetworkError := None; triedAccountIndices := ∅ |}.

(** The best-effort wait for the initial quota refresh. *)
Definition pre_wait (modelId : string) : M unit :=
  w <~ get;
  if negb (is_empty modelId) && negb (initialQuotaRefreshDone w)
  then modify (await_initial_refresh E)
  else ret tt.

Definition callV1Internal (method : string) (options : Options) : M Response :=
  let quotaGroup :=
    getQuotaGroupFromModel (if is_empty (options_group options)
                            then options_model options
                            else options_group options) in
  let modelId := trim (options_model options) in
  w <~ get;
  let maxAttempts := getMaxAttempts w in
  _ <~ pre_wait modelId;
  gate <~ fast_fail method options modelId quotaGroup;
  match gate with
  | Some response => ret response
  | None =>
      r <~ attempt_loop (Z.to_nat maxAttempts) method options modelId quotaGroup
             maxAttempts initial_loop_state;
      match r with
      | inl response => ret response
      | inr ls => exhausted method modelId ls
      end
  end.

End WithEnv.

End UpstreamClient.

(* ===================================================================== *)
(** * A concrete environment, for the examples *)
(* ===================================================================== *)

Module Example.
Import JsString Runtime Duration.
Import UpstreamClient (Options).

(** [path.posix.basename]: the last segment of the path that is not empty. *)
Fixpoint basename_go (segment best : string) (s : string) : string :=
  match s with
  | EmptyString => if is_empty segment then best else segment
  | String c r =>
      if Ascii.eqb c "/"
      then basename_go EmptyString (if is_empty segment then best else segment) r
      else basename_go (segment +:+ String c EmptyString) best r
  end.

Definition posix_basename (path : string) : string :=
  basename_go EmptyString EmptyString path.

(** The [Response] constructor of the Fetch standard: the status must lie
    in 200..599, and a status that forbids a body must not come with one. *)
Definition fetch_Response (body : string) (st : Z) (h : Headers) : option Response :=
  if (200 <=? st) && (st <=? 599)
     && negb ((st =? 204) || (st =? 205) || (st =? 304))
  then Some {| status := st; headers := h; bodyText := body |}
  else None.

(** An environment whose servers answer as [refresh], [project] and
    [upstream] say, [hint] being the retry hint read out of the body of a
    429: every operation takes one millisecond and files are always
    written. *)
Definition env (refresh : nat -> string -> Outcome Credentials)
    (project : nat -> string -> Outcome (option string))
    (upstream : nat -> Request -> Outcome Response)
    (hint : string -> option Millis) : Env :=
  {| path_basename := posix_basename;
     toISOString := fun _ => "2026-01-01T00:00:00.000Z";
     new_Response := fetch_Response;
     parseRetryDelayMs := hint;
     FIXED_RETRY_DELAY_MS := 1200;
     httpClient_refreshToken := refresh;
     httpClient_fetchProjectId := project;
     httpClient_callV1Internal := upstream;
     fs_writeFile := fun _ _ => None;
     elapsed := fun _ => 1;
     await_initial_refresh := fun w => w |}.

Definition offline : Env :=
  env (fun _ _ => Throw (Error "fetch failed"))
      (fun _ _ => Throw (Error "fetch failed"))
      (fun _ _ => Throw (Error "fetch failed"))
      (fun _ => None).

(** An account with a verified project id whose token expires at [expiry]. *)
Definition account_of (file token : string) (expiry : Z) : Account :=
  {| filePath := "/srv/auths/" +:+ file;
     creds := {| access_token := token;
                 refresh_token := "refresh-" +:+ token;
                 expiry_date := Some expiry;
                 token_type := Some "Bearer";
                 scope := None;
                 email := None;
                 projectId := Some "projects/demo";
                 projectIdResolvedAt := MarkerString "2025-12-31T00:00:00.000Z" |};
     refreshPromise := None;
     refreshTimer := None;
     projectPromise := None |}.

(** A world at instant [now] with the given pool and caches. *)
Definition world (pool : list Account) (claudeIdx geminiIdx : Z)
    (quota : gmap string (gmap string QuotaEntry))
    (errors : gmap string CachedError) (now : Z) : World :=
  {| accounts := pool;
     current_claude := claudeIdx;
     current_gemini := geminiIdx;
     modelQuotaByAccount := quota;
     lastErrorByModel := errors;
     initialQuotaRefreshDone := true;
     clock := now;
     next_id := 0;
     trace := [] |}.

(** The token endpoint answers every refresh with a token that is good for
    an hour from instant 1000; the other servers are down. *)
Definition renewed : Credentials :=
  {| access_token := "token-new";
     refresh_token := "refresh-new";
     expiry_date := Some 3601000;
     token_type := Some "Bearer";
     scope := None;
     email := None;
     projectId := None;
     projectIdResolvedAt := MarkerAbsent |}.

Definition renewing : Env :=
  env (fun _ _ => Ok renewed)
      (fun _ _ => Throw (Error "fetch failed"))
      (fun _ _ => Throw (Error "fetch failed"))
      (fun _ => None).

(** Responses of the upstream. *)
Definition too_many (body : string) : Response :=
  {| status := 429; headers := [("content-type", "application/json")];
     bodyText := body |}.

Definition success : Response :=
  {| status := 200; headers := []; bodyText := "ok" |}.

(** The quotation mark, and a JSON string without escapes. *)
Definition quote : string := String (ascii_of_N 34) EmptyString.

Definition quoted (s : string) : string := quote +:+ s +:+ quote.

(** The body of a 429 of the Google API whose [RetryInfo] asks for
    [delay], as JSON text. *)
Definition retry_body (delay : string) : string :=
  "{" +:+ quoted "error" +:+ ":{" +:+ quoted "code" +:+ ":429,"
  +:+ quoted "details" +:+ ":[{" +:+ quoted "@type" +:+ ":"
  +:+ quoted "type.googleapis.com/google.rpc.RetryInfo" +:+ ","
  +:+ quoted "retryDelay" +:+ ":" +:+ quoted delay +:+ "}]}}".

(** The delays that the bodies of the examples ask for. *)
Definition example_delays : list string := ["0.5s"; "9s"].

(** A result of [parseDurationMs] in exact arithmetic as milliseconds. *)
Definition exact_millis (r : option (option Q)) : option Millis :=
  match r with
  | Some (Some q) => Some (Finite (Qfloor q))
  | _ => None
  end.

(** [parseRetryDelayMs] on the bodies that the servers of the examples
    send.  In a [retry_body] the [retryDelay] of the [RetryInfo] is read
    with [parseDurationMs]; the other bodies of the examples are not JSON,
    [JSON.parse] throws on them and the result is [null]. *)
Definition hint_of (body : string) : option Millis :=
  match List.find (fun delay => String.eqb body (retry_body delay)) example_delays with
  | Some delay => exact_millis (parseDurationMs ExactOps delay)
  | None => None
  end.

(** Only the upstream is reachable, and answers as [upstream] says. *)
Definition serving (upstream : nat -> Request -> Outcome Response) : Env :=
  env (fun _ _ => Throw (Error "fetch failed"))
      (fun _ _ => Throw (Error "fetch failed"))
      upstream hint_of.

(** The first request is answered 429 with a hint of half a second, the
    following ones 200. *)
Definition limited_once : Env :=
  serving (fun n _ => if (n =? 0)%nat then Ok (too_many (retry_body "0.5s"))
                      else Ok success).

(** Every request is answered 429, with a body that is not JSON and so
    carries no hint. *)
Definition limited : Env := serving (fun _ _ => Ok (too_many "retry in 0.5s")).

(** Every request is answered 429 with a hint of [delay]. *)
Definition throttled (delay : string) : Env :=
  serving (fun _ _ => Ok (too_many (retry_body delay))).

Definition request_options (model : string) : Options :=
  {| UpstreamClient.options_group := EmptyString;
     UpstreamClient.options_model := model;
     UpstreamClient.options_queryString := EmptyString;
     UpstreamClient.options_headers := [];
     UpstreamClient.buildBody := fun projectId => default EmptyString projectId |}.

Definition A := account_of "a.json" "token-a" 2000000.
Definition B := account_of "b.json" "token-b" 2000000.
Definition C := account_of "c.json" "token-c" 2000000.

End Example.

(* ===================================================================== *)
(** * The account listing of the admin interface *)
(* ===================================================================== *)

Module Admin.
Import JsString Runtime AuthManager.
Local Open Scope js_scope.

(** An element of the array that [getAccountsSummary] returns. *)
Record AccountSummary := {
  summary_index : Z;
  summary_file : string;
  summary_email : option string;
  summary_projectId : option string;
  summary_expiry_date : option Z;
  summary_token_type : option string;
  summary_scope : option string
}.

(** [value || null] for a string that may be absent. *)
Definition or_null (value : option string) : option string :=
  match value with
  | Some s => if is_empty s then None else Some s
  | None => None
  end.

(** What [getAccountsPayload] returns. *)
Record AccountsPayload := {
  payload_count : Z;
  payload_claude : Z;
  payload_gemini : Z;
  payload_accounts : list AccountSummary
}.

Section WithEnv.
Variable E : Env.

(** The callback of [this.accounts.map]. *)
Definition summary_of (index : nat) (account : Account) : AccountSummary :=
  {| summary_index := Z.of_nat index;
     summary_file := path_basename E (filePath account);
     summary_email := or_null (email (creds account));
     summary_projectId := or_null (projectId (creds account));
     summary_expiry_date := expiry_date (creds account);
     summary_token_type := or_null (token_type (creds account));
     summary_scope := or_null (scope (creds account)) |}.

Definition getAccountsSummary (w : World) : list AccountSummary :=
  imap summary_of (accounts w).

Definition getAccountsPayload (w : World) : AccountsPayload :=
  let accounts := getAccountsSummary w in
  {| payload_count := Z.of_nat (length accounts);
     payload_claude := getCurrentAccountIndex (normalizeQuotaGroup "claude") w;
     payload_gemini := getCurrentAccountIndex (normalizeQuotaGroup "gemini") w;
     payload_accounts := accounts |}.

Definition deleteAccount (fileName : string) : M bool :=
  ok <~ deleteAccountByFile E fileName;
  ret ok.

End WithEnv.

End Admin.

(* ===================================================================== *)
(** * Properties *)
(* ===================================================================== *)

Import JsString Runtime Duration.
Local Open Scope js_scope.

(** ** Strings *)

Lemma append_nil_r (s : string) : s +:+ EmptyString = s.
Proof. induction s as [|c s IH]; simpl; [reflexivity | now rewrite IH]. Qed.

Lemma append_assoc (a b c : string) : (a +:+ b) +:+ c = a +:+ (b +:+ c).
Proof. induction a as [|x a IH]; simpl; [reflexivity | now rewrite IH]. Qed.

Lemma all_append p a b : all p (a +:+ b) = all p a && all p b.
Proof.
  induction a as [|x a IH]; simpl; [reflexivity|].
  rewrite IH. now rewrite andb_assoc.
Qed.

Lemma length_append (a b : string) :
  String.length (a +:+ b) = (String.length a + String.length b)%nat.
Proof. induction a as [|x a IH]; simpl; [reflexivity | now rewrite IH]. Qed.

Lemma trimStart_suffix s : exists l, s = l +:+ trimStart s.
Proof.
  induction s as [|c r [l IH]]; simpl.
  - now exists EmptyString.
  - destruct (is_space c).
    + exists (String c l). simpl. now rewrite <- IH.
    + now exists EmptyString.
Qed.

Lemma trimEnd_prefix s : exists r, s = trimEnd s +:+ r.
Proof.
  induction s as [|c s [r IH]]; simpl.
  - now exists EmptyString.
  - destruct (is_space c && is_empty (trimEnd s)) eqn:E.
    + now exists (String c s).
    + exists r. simpl. now rewrite <- IH.
Qed.

(** The trimmed string is a slice of the original. *)
Lemma trim_slice s : exists l r, s = l +:+ trim s +:+ r.
Proof.
  destruct (trimStart_suffix s) as [l Hl].
  destruct (trimEnd_prefix (trimStart s)) as [r Hr].
  exists l, r. unfold trim. now rewrite <- Hr.
Qed.

Lemma trimStart_id c r : is_space c = false -> trimStart (String c r) = String c r.
Proof. intros H. simpl. now rewrite H. Qed.

(** [last_nonspace s]: the last character of [s], if any, is not white space. *)
Fixpoint last_nonspace (s : string) : bool :=
  match s with
  | EmptyString => true
  | String c EmptyString => negb (is_space c)
  | String _ r => last_nonspace r
  end.

Lemma trimEnd_id s : last_nonspace s = true -> trimEnd s = s.
Proof.
  induction s as [|c r IH]; [reflexivity|].
  intros H. simpl in *. destruct r as [|d r'].
  - simpl. apply negb_true_iff in H. now rewrite H.
  - rewrite (IH H). simpl. now rewrite andb_false_r.
Qed.

Lemma last_nonspace_append a c r :
  last_nonspace (String c r) = true -> last_nonspace (a +:+ String c r) = true.
Proof.
  intros H. induction a as [|x a IH]; [exact H|].
  simpl. destruct (a +:+ String c r) eqn:E; [|exact IH].
  destruct a; discriminate.
Qed.

(** ** The scanner of [parseDurationMs] *)

Definition head_fails (p : ascii -> bool) (r : string) : bool :=
  match r with EmptyString => true | String c _ => negb (p c) end.

(** What may follow a component in a grammar string: nothing, or a digit. *)
Definition digit_or_end (r : string) : bool :=
  match r with EmptyString => true | String c _ => is_digit c end.

Lemma regex_exec_unfold s :
  regex_exec s =
  match match_here s with
  | Some m => Some m
  | None => match s with EmptyString => None | String _ r => regex_exec r end
  end.
Proof. destruct s; reflexivity. Qed.

Lemma greedy_splits_run p a r :
  all p a = true -> head_fails p r = true ->
  exists tl, greedy_splits p (a +:+ r) = (a, r) :: tl.
Proof.
  intros Ha Hr. induction a as [|x a IH]; simpl in *.
  - destruct r as [|c r]; simpl in *; [now exists []|].
    apply negb_true_iff in Hr. rewrite Hr. now exists [].
  - apply andb_true_iff in Ha as [Hx Ha]. rewrite Hx.
    destruct (IH Ha) as [tl ->]. simpl. eauto.
Qed.

Lemma greedy_splits_sound p s a b :
  In (a, b) (greedy_splits p s) -> s = a +:+ b /\ all p a = true.
Proof.
  revert a b. induction s as [|c s IH]; intros a b; simpl.
  - intros [[= <- <-]|[]]. now split.
  - destruct (p c) eqn:Hc.
    + rewrite in_app_iff, in_map_iff.
      intros [[[a' b'] [[= <- <-] Hin]]|[[= <- <-]|[]]].
      * destruct (IH _ _ Hin) as [-> Hall]. simpl. now rewrite Hc.
      * now split.
    + intros [[= <- <-]|[]]. now split.
Qed.

Lemma first_some_In {A B} (f : A -> option B) l b :
  first_some f l = Some b -> exists a, In a l /\ f a = Some b.
Proof.
  induction l as [|a l IH]; simpl; [discriminate|].
  destruct (f a) eqn:E.
  - intros [= <-]. exists a. auto.
  - intros H. destruct (IH H) as [a' [? ?]]. exists a'. auto.
Qed.

Ltac split_char c :=
  let b0 := fresh in let b1 := fresh in let b2 := fresh in let b3 := fresh in
  let b4 := fresh in let b5 := fresh in let b6 := fresh in let b7 := fresh in
  destruct c as [b0 b1 b2 b3 b4 b5 b6 b7];
  destruct b0, b1, b2, b3, b4, b5, b6, b7.

Lemma match_unit_sound s u rest :
  match_unit s = Some (u, rest) -> s = unit_text u +:+ rest.
Proof.
  destruct s as [|c s]; [discriminate|].
  split_char c; try discriminate; simpl.
  - intros [= <- <-]. reflexivity.
  - destruct s as [|d s]; [intros [= <- <-]; reflexivity|].
    split_char d; simpl; intros [= <- <-]; reflexivity.
  - intros [= <- <-]. reflexivity.
Qed.

Lemma match_unit_text u rest :
  digit_or_end rest = true ->
  match_unit (unit_text u +:+ rest) = Some (u, rest).
Proof.
  intros H. destruct u; simpl; try reflexivity.
  destruct rest as [|d r]; [reflexivity|].
  simpl in H. split_char d; try discriminate H; reflexivity.
Qed.

Lemma match_here_sound s n u rest :
  match_here s = Some (n, u, rest) ->
  exists ws, s = n +:+ ws +:+ unit_text u +:+ rest
             /\ n <> EmptyString
             /\ all is_num_char n = true
             /\ all is_space ws = true.
Proof.
  unfold match_here. intros H.
  apply first_some_In in H as [[a b] [Hin H]]. simpl in H.
  destruct (is_empty a) eqn:Ea; [discriminate|].
  apply first_some_In in H as [[w r] [Hin' H]]. simpl in H.
  destruct (match_unit r) as [[u' rest']|] eqn:Eu; [|discriminate].
  injection H as <- <- <-.
  apply greedy_splits_sound in Hin as [-> Hall].
  apply greedy_splits_sound in Hin' as [-> Hws].
  apply match_unit_sound in Eu as ->.
  exists w. repeat split; auto.
  intros ->. discriminate.
Qed.

Lemma regex_exec_sound s n u rest :
  regex_exec s = Some (n, u, rest) ->
  exists pre ws, s = pre +:+ n +:+ ws +:+ unit_text u +:+ rest
                 /\ n <> EmptyString
                 /\ all is_num_char n = true
                 /\ all is_space ws = true.
Proof.
  induction s as [|c s IH]; rewrite regex_exec_unfold.
  - destruct (match_here EmptyString) eqn:E; [|discriminate].
    intros [= ->]. apply match_here_sound in E as [ws ?]. now exists EmptyString, ws.
  - destruct (match_here (String c s)) eqn:E.
    + intros [= ->]. apply match_here_sound in E as [ws ?]. now exists EmptyString, ws.
    + intros H. destruct (IH H) as [pre [ws [-> ?]]].
      now exists (String c pre), ws.
Qed.

Lemma regex_exec_shorter s n u rest :
  regex_exec s = Some (n, u, rest) ->
  (String.length rest < String.length s)%nat.
Proof.
  intros H. apply regex_exec_sound in H as [pre [ws [-> [Hn _]]]].
  rewrite !length_append. destruct n; [congruence|]. simpl. lia.
Qed.

(** The loop never runs out of iterations. *)
Lemma exec_loop_fuel J fuel str totalMs matched :
  (String.length str <= fuel)%nat ->
  exec_loop J fuel str totalMs matched
  = exec_loop J (String.length str) str totalMs matched.
Proof.
  remember (String.length str) as n eqn:Hn.
  revert fuel str totalMs matched Hn.
  induction n as [n IH] using lt_wf_ind.
  intros fuel str totalMs matched Hn Hle.
  destruct fuel as [|fuel]; [now replace n with 0%nat by lia|].
  destruct n as [|n].
  - destruct str; [|discriminate]. reflexivity.
  - simpl. destruct (regex_exec str) as [[[m1 u] rest]|] eqn:E; [|reflexivity].
    pose proof (regex_exec_shorter _ _ _ _ E) as Hlt.
    rewrite (IH (String.length rest)) by lia.
    symmetry. apply (IH (String.length rest)); lia.
Qed.

Lemma match_here_component c rest :
  wf_component c = true -> digit_or_end rest = true ->
  match_here (render c +:+ rest) = Some (num_text c, c_unit c, rest).
Proof.
  intros Hwf Hrest. unfold render. rewrite append_assoc.
  unfold wf_component, digits in Hwf.
  apply andb_true_iff in Hwf as [Hint Hfrac].
  apply andb_true_iff in Hint as [Hne Hint].
  assert (Hdig : forall s, all is_digit s = true -> all is_num_char s = true).
  { induction s as [|x s IH]; simpl; [reflexivity|].
    intros H. apply andb_true_iff in H as [Hx Hs].
    rewrite (IH Hs). unfold is_num_char. now rewrite Hx. }
  assert (Hnum : all is_num_char (num_text c) = true).
  { unfold num_text. rewrite all_append, (Hdig _ Hint). simpl.
    destruct (c_frac c) as [f|]; [|reflexivity].
    apply andb_true_iff in Hfrac as [_ Hf]. simpl. now apply Hdig. }
  assert (Hnonempty : is_empty (num_text c) = false).
  { unfold num_text. destruct (c_int c); [discriminate|reflexivity]. }
  assert (Hhead : forall p, (p "m" = false /\ p "s" = false /\ p "h" = false)%char ->
                  head_fails p (unit_text (c_unit c) +:+ rest) = true).
  { intros p [Hm [Hs Hh]]. destruct (c_unit c); simpl; now rewrite ?Hm, ?Hs, ?Hh. }
  unfold match_here.
  destruct (greedy_splits_run is_num_char (num_text c) _ Hnum
              (Hhead is_num_char ltac:(now compute)))
    as [tl ->].
  simpl. rewrite Hnonempty.
  destruct (greedy_splits_run is_space EmptyString _ eq_refl (Hhead is_space ltac:(now compute)))
    as [tl' Htl']. simpl in Htl'. rewrite Htl'. simpl.
  now rewrite match_unit_text.
Qed.

Lemma render_all_digit_or_end cs :
  Forall (fun c => wf_component c = true) cs -> digit_or_end (render_all cs) = true.
Proof.
  intros [|c cs' Hc _]; [reflexivity|].
  unfold wf_component, digits in Hc. simpl. unfold render, num_text.
  destruct (c_int c) as [|d r]; [discriminate|].
  simpl in *. now destruct (is_digit d).
Qed.

Lemma render_all_last cs :
  Forall (fun c => wf_component c = true) cs -> last_nonspace (render_all cs) = true.
Proof.
  induction 1 as [|c cs Hc Hcs IH]; [reflexivity|].
  simpl. unfold render. rewrite append_assoc.
  destruct (unit_text (c_unit c) +:+ render_all cs) as [|x r] eqn:E.
  { destruct (c_unit c); discriminate. }
  apply last_nonspace_append. rewrite <- E.
  destruct (render_all cs) as [|y r'] eqn:Er.
  - rewrite append_nil_r. now destruct (c_unit c).
  - destruct (c_unit c); exact IH.
Qed.

Lemma loop_body_component J totalMs c :
  Number_isFinite J (parseFloat J (num_text c)) = true ->
  loop_body J totalMs (num_text c) (c_unit c) = num_add J totalMs (to_ms J c).
Proof.
  intros H. unfold loop_body, to_ms. rewrite H. simpl. now destruct (c_unit c).
Qed.

Lemma exec_loop_render_all J cs :
  Forall (fun c => wf_component c = true) cs ->
  Forall (fun c => Number_isFinite J (parseFloat J (num_text c)) = true) cs ->
  forall fuel totalMs matched,
    (String.length (render_all cs) <= fuel)%nat ->
    exec_loop J fuel (render_all cs) totalMs matched
    = (fold_left (fun acc c => num_add J acc (to_ms J c)) cs totalMs,
       matched || negb (bool_decide (cs = []))).
Proof.
  intros Hwf. induction Hwf as [|c cs Hc Hcs IH]; intros Hfin fuel totalMs matched Hlen.
  - simpl. rewrite orb_false_r. destruct fuel; reflexivity.
  - apply Forall_cons in Hfin as [Hfc Hfin].
    simpl in Hlen. rewrite length_append in Hlen.
    assert (0 < String.length (render c))%nat.
    { unfold render. rewrite length_append. destruct (c_unit c); simpl; lia. }
    destruct fuel as [|fuel]; [lia|].
    simpl. rewrite regex_exec_unfold.
    rewrite (match_here_component c _ Hc (render_all_digit_or_end _ Hcs)).
    rewrite IH by (auto; lia).
    rewrite loop_body_component by assumption.
    now rewrite orb_true_r.
Qed.

Lemma parseDurationMs_Some_match J s v :
  parseDurationMs J s = Some v -> contains_match s.
Proof.
  unfold parseDurationMs.
  destruct (is_empty s); [discriminate|].
  destruct (is_empty (trim s)); [discriminate|].
  destruct (String.length (trim s)) as [|fuel]; [discriminate|].
  simpl. destruct (regex_exec (trim s)) as [[[m1 u] rest]|] eqn:E; [|discriminate].
  intros _. apply regex_exec_sound in E as [pre [ws [E [Hn [Hnum Hws]]]]].
  destruct (trim_slice s) as [l [r Hs]].
  exists (l +:+ pre), m1, ws, u, (rest +:+ r). repeat split; auto.
  rewrite Hs, E. now rewrite !append_assoc.
Qed.

Lemma contains_component_digit s :
  contains_component s -> all (fun c => negb (is_digit c)) s = false.
Proof.
  intros [pre [c [post [Hwf ->]]]].
  unfold wf_component, digits in Hwf. unfold render, num_text.
  destruct (c_int c) as [|d r]; [discriminate|].
  simpl in Hwf. rewrite !all_append. simpl.
  destruct (is_digit d); [|discriminate]. simpl.
  now rewrite andb_false_r.
Qed.


Lemma bind_ok {A B} (m : M A) (k : A -> M B) w a w' :
  m w = (Ok a, w') -> bind m k w = k a w'.
Proof. unfold bind. now intros ->. Qed.

Lemma bind_throw {A B} (m : M A) (k : A -> M B) w e w' :
  m w = (Throw e, w') -> bind m k w = (Throw e, w').
Proof. unfold bind. now intros ->. Qed.

(** ** Deleting an account *)

Section DeleteAccount.
Import AuthManager.
Variable E : Env.

Lemma findIndex_from_none {A} (p : A -> bool) l i :
  (forall a, a ∈ l -> p a = false) -> findIndex_from p l i = -1.
Proof.
  revert i. induction l as [|a l IH]; intros i H; simpl; [reflexivity|].
  rewrite (H a) by apply list_elem_of_here.
  apply IH. intros b Hb. apply H. now apply list_elem_of_further.
Qed.

Lemma findIndex_from_first {A} (p : A -> bool) l k i a :
  l !! i = Some a -> p a = true ->
  (forall j b, (j < i)%nat -> l !! j = Some b -> p b = false) ->
  findIndex_from p l k = k + Z.of_nat i.
Proof.
  revert k i. induction l as [|x l IH]; intros k i Hl Ha Hbefore; [discriminate|].
  destruct i as [|i]; simpl in *.
  - injection Hl as ->. rewrite Ha. lia.
  - rewrite (Hbefore 0%nat x) by (auto; lia).
    rewrite (IH (k + 1) i) by (auto; intros j b ? ?; apply (Hbefore (S j)); auto; lia).
    lia.
Qed.

Lemma delete_alter {A} (f : A -> A) (l : list A) i : delete i (alter f i l) = delete i l.
Proof.
  revert i. induction l as [|x l IH]; intros [|i]; simpl; try reflexivity.
  f_equal. apply IH.
Qed.

(** The index a group is left with: the branches of the group loop. *)
Definition adjusted (idx current remaining : Z) : Z :=
  if remaining =? 0 then 0
  else if idx <? current then Z.max 0 (current - 1)
  else if idx =? current then Z.min current (remaining - 1)
  else current.

Lemma adjust_current_run idx g w :
  adjust_current idx g w
  = (Ok tt, set_current g (adjusted idx (getCurrentAccountIndex g w) (getAccountCount w)) w).
Proof.
  unfold adjust_current, adjusted, bind, get, setCurrentAccountIndex, modify, ret.
  destruct (getAccountCount w =? 0); [reflexivity|].
  destruct (idx <? getCurrentAccountIndex g w); [reflexivity|].
  destruct (idx =? getCurrentAccountIndex g w); [reflexivity|].
  destruct w, g; reflexivity.
Qed.

(** What [deleteAccountByFile] does when slot [i] is the first whose file
    base name is the sanitized name. *)
Lemma deleteAccountByFile_found fileName safeName w i a :
  sanitizeCredentialFileName fileName = Ok safeName ->
  accounts w !! i = Some a ->
  path_basename E (filePath a) = safeName ->
  (forall j b, (j < i)%nat -> accounts w !! j = Some b ->
               path_basename E (filePath b) <> safeName) ->
  exists w',
    deleteAccountByFile E fileName w = (Ok true, w')
    /\ accounts w' = delete i (accounts w)
    /\ trace w' = trace w ++ [EvCancelRefresh (filePath a); EvUnlink (filePath a)]
    /\ (forall g, getCurrentAccountIndex g w'
                  = adjusted (Z.of_nat i) (getCurrentAccountIndex g w)
                      (Z.of_nat (length (accounts w)) - 1)).
Proof.
  intros Hsan Hl Hname Hfirst.
  assert (Hidx : findIndex (fun a => String.eqb (path_basename E (filePath a)) safeName)
                   (accounts w) = Z.of_nat i).
  { unfold findIndex. erewrite findIndex_from_first; eauto.
    - now apply String.eqb_eq.
    - intros j b Hj Hb. apply String.eqb_neq. eauto. }
  pose proof (lookup_lt_Some _ _ _ Hl) as Hlen.
  unfold deleteAccountByFile.
  erewrite bind_ok by (unfold of_outcome; rewrite Hsan; reflexivity).
  erewrite bind_ok by reflexivity.
  rewrite Hidx. replace (Z.of_nat i =? -1) with false by (symmetry; apply Z.eqb_neq; lia).
  rewrite Nat2Z.id.
  erewrite bind_ok by (unfold get_account; rewrite Hl; reflexivity).
  erewrite bind_ok
    by (unfold cancelRefresh, get_account, bind; rewrite Hl; reflexivity).
  erewrite bind_ok by reflexivity.
  erewrite bind_ok by reflexivity.
  erewrite bind_ok by reflexivity.
  erewrite bind_ok by apply adjust_current_run.
  erewrite bind_ok by apply adjust_current_run.
  eexists. split; [reflexivity|].
  assert (Hcount : forall w0, accounts w0 = delete i (alter (set_refreshTimer None) i (accounts w)) ->
                              getAccountCount w0 = Z.of_nat (length (accounts w)) - 1).
  { intros w0 H0. unfold getAccountCount.
    rewrite H0, delete_alter, length_delete by (rewrite Hl; eauto). lia. }
  cbn [accounts set_current set_accounts set_clock set_trace trace].
  split; [apply delete_alter|].
  split; [now rewrite <- app_assoc|].
  intros g. rewrite !Hcount by reflexivity.
  destruct g; cbn; unfold adjusted;
    destruct (Z.of_nat (length (accounts w)) - 1 =? 0); reflexivity.
Qed.

End DeleteAccount.

(** C10.  A name that passes sanitization and is the file base name of no
    loaded account: [deleteAccountByFile] returns [false] and the state is
    the one before the call (accounts, both current indices, timers,
    credentials, and nothing was done to the outside). *)
Theorem deleteAccountByFile_unknown_name (E : Env) (fileName safeName : string) (w : World) :
  AuthManager.sanitizeCredentialFileName fileName = Ok safeName ->
  (forall a, a ∈ accounts w -> path_basename E (filePath a) <> safeName) ->
  AuthManager.deleteAccountByFile E fileName w = (Ok false, w).
Proof.
  intros Hsan Hnone. unfold AuthManager.deleteAccountByFile.
  erewrite bind_ok by (unfold of_outcome; rewrite Hsan; reflexivity).
  erewrite bind_ok by reflexivity.
  unfold AuthManager.findIndex. rewrite findIndex_from_none; [reflexivity|].
  intros a Ha. apply String.eqb_neq. auto.
Qed.

Lemma deleteAccountByFile_unknown_name_witness :
  AuthManager.deleteAccountByFile Example.offline " z.json "
    (Example.world [Example.A; Example.B] 0 1 ∅ ∅ 1000)
  = (Ok false, Example.world [Example.A; Example.B] 0 1 ∅ ∅ 1000).
Proof.
  apply (deleteAccountByFile_unknown_name Example.offline " z.json " "z.json").
  - reflexivity.
  - intros a Ha. simpl in Ha.
    apply elem_of_cons in Ha as [->|Ha]; [vm_compute; discriminate|].
    apply elem_of_cons in Ha as [->|Ha]; [vm_compute; discriminate|].
    now apply elem_of_nil in Ha.
Defined.

(** C7, as the code has it.  Deleting the account in slot [i] removes that
    slot.  While an account remains, each group's current index is
    unchanged if it was less than [i], one less if it was greater than [i],
    and clamped to the last remaining slot if it was [i] (so [remaining - 1]
    when [i] was the last slot); a pointer that was not on the deleted slot
    still points to the same account.  When no account remains the index
    is 0. *)
Theorem deleteAccountByFile_current_index (E : Env) (fileName safeName : string)
    (w : World) (i : nat) (a : Account) :
  AuthManager.sanitizeCredentialFileName fileName = Ok safeName ->
  accounts w !! i = Some a ->
  path_basename E (filePath a) = safeName ->
  (forall j b, (j < i)%nat -> accounts w !! j = Some b ->
               path_basename E (filePath b) <> safeName) ->
  exists w',
    AuthManager.deleteAccountByFile E fileName w = (Ok true, w')
    /\ accounts w' = delete i (accounts w)
    /\ forall g,
         let cur := AuthManager.getCurrentAccountIndex g w in
         let cur' := AuthManager.getCurrentAccountIndex g w' in
         let remaining := Z.of_nat (length (accounts w')) in
         (remaining = 0 -> cur' = 0)
         /\ (0 < remaining ->
             (cur < Z.of_nat i -> cur' = cur)
             /\ (Z.of_nat i < cur -> cur' = cur - 1)
             /\ (cur = Z.of_nat i -> cur' = Z.min cur (remaining - 1))
             /\ (cur = Z.of_nat i -> Z.of_nat i = remaining -> cur' = remaining - 1)
             /\ (0 <= cur -> cur <> Z.of_nat i ->
                 accounts w' !! Z.to_nat cur' = accounts w !! Z.to_nat cur)).
Proof.
  intros Hsan Hl Hname Hfirst.
  destruct (deleteAccountByFile_found E fileName safeName w i a Hsan Hl Hname Hfirst)
    as [w' [Hrun [Hacc [_ Hcur]]]].
  exists w'. split; [exact Hrun|]. split; [exact Hacc|].
  intros g cur cur' remaining.
  assert (Hrem : remaining = Z.of_nat (length (accounts w)) - 1).
  { unfold remaining. rewrite Hacc, length_delete by (rewrite Hl; eauto).
    pose proof (lookup_lt_Some _ _ _ Hl). lia. }
  assert (Hcur' : cur' = adjusted (Z.of_nat i) cur remaining).
  { unfold cur', cur. rewrite Hcur. now rewrite Hrem. }
  unfold adjusted in Hcur'.
  split.
  - intros H0. rewrite Hcur'. apply Z.eqb_eq in H0. now rewrite H0.
  - intros Hpos.
    replace (remaining =? 0) with false in Hcur' by (symmetry; apply Z.eqb_neq; lia).
    destruct (Z.ltb_spec (Z.of_nat i) cur) as [Hlt|Hge];
      [|destruct (Z.eqb_spec (Z.of_nat i) cur) as [Heq|Hne]].
    + repeat split; try lia.
      intros Hnn _. rewrite Hacc, Hcur'.
      replace (Z.to_nat (Z.max 0 (cur - 1))) with (Z.to_nat cur - 1)%nat by lia.
      rewrite list_lookup_delete_ge by lia. f_equal. lia.
    + repeat split; try lia.
    + repeat split; try lia.
      intros Hnn _. rewrite Hacc, Hcur'. apply list_lookup_delete_lt. lia.
Qed.

Lemma deleteAccountByFile_current_index_witness :
  exists w',
    AuthManager.deleteAccountByFile Example.offline "b.json"
      (Example.world [Example.A; Example.B; Example.C] 2 1 ∅ ∅ 1000) = (Ok true, w')
    /\ accounts w' = [Example.A; Example.C]
    /\ AuthManager.getCurrentAccountIndex claude w' = 1
    /\ AuthManager.getCurrentAccountIndex gemini w' = 1.
Proof.
  destruct (deleteAccountByFile_current_index Example.offline "b.json" "b.json"
              (Example.world [Example.A; Example.B; Example.C] 2 1 ∅ ∅ 1000)
              1%nat Example.B)
    as [w' [Hrun [Hacc Hcur]]].
  - reflexivity.
  - reflexivity.
  - reflexivity.
  - intros j b Hj Hb. destruct j as [|j]; [|lia].
    injection Hb as <-. vm_compute. discriminate.
  - exists w'. split; [exact Hrun|]. split; [exact Hacc|].
    assert (Hlen : 0 < Z.of_nat (length (accounts w'))) by (rewrite Hacc; simpl; lia).
    split.
    + destruct (Hcur claude) as [_ H]. destruct (H Hlen) as [_ [H2 _]].
      apply H2. simpl. lia.
    + destruct (Hcur gemini) as [_ H]. destruct (H Hlen) as [_ [_ [H3 _]]].
      rewrite H3 by reflexivity. rewrite Hacc. reflexivity.
Defined.

(** C7 as stated fails when the deleted account is the only one: the
    current slot 0 is the last slot, and the index stays 0 where
    [newLength - 1] is -1. *)
Lemma deleteAccountByFile_last_account :
  let r := AuthManager.deleteAccountByFile Example.offline "a.json"
             (Example.world [Example.A] 0 0 ∅ ∅ 1000) in
  fst r = Ok true
  /\ accounts (snd r) = []
  /\ AuthManager.getCurrentAccountIndex gemini (snd r) = 0
  /\ AuthManager.getCurrentAccountIndex gemini (snd r)
     <> Z.min 0 (Z.of_nat (length (accounts (snd r))) - 1).
Proof. vm_compute. repeat split; discriminate. Qed.

(** ** Token refresh and credential lookup *)

Import AuthManager.

Lemma bind_inv {A B} (m : M A) (k : A -> M B) w out w' :
  bind m k w = (out, w') ->
  (exists a w1, m w = (Ok a, w1) /\ k a w1 = (out, w'))
  \/ (exists e, m w = (Throw e, w') /\ out = Throw e).
Proof.
  unfold bind. destruct (m w) as [[a|e] w1].
  - intros H. left. eauto.
  - intros [= <- <-]. right. eauto.
Qed.

Lemma bind_inv_ok {A B} (m : M A) (k : A -> M B) w b w' :
  bind m k w = (Ok b, w') ->
  exists a w1, m w = (Ok a, w1) /\ k a w1 = (Ok b, w').
Proof.
  intros H. apply bind_inv in H as [H|[e [_ H]]]; [exact H|discriminate].
Qed.

(** ** What the operations keep: the shape of the pool and the past *)

Definition extends (w w' : World) : Prop :=
  length (accounts w') = length (accounts w)
  /\ exists rest, trace w' = trace w ++ rest.

Lemma extends_refl w : extends w w.
Proof. split; [reflexivity|]. exists []. now rewrite app_nil_r. Qed.

Lemma extends_trans w1 w2 w3 : extends w1 w2 -> extends w2 w3 -> extends w1 w3.
Proof.
  intros [L1 [r1 T1]] [L2 [r2 T2]]. split; [congruence|].
  exists (r1 ++ r2). rewrite T2, T1. now rewrite app_assoc.
Qed.

Definition stable {A} (m : M A) : Prop := forall w, extends w (snd (m w)).

Lemma stable_ret {A} (a : A) : stable (ret a).
Proof. intros w. apply extends_refl. Qed.

Lemma stable_throw {A} e : stable (@throw A e).
Proof. intros w. apply extends_refl. Qed.

Lemma stable_bind {A B} (m : M A) (k : A -> M B) :
  stable m -> (forall a, stable (k a)) -> stable (bind m k).
Proof.
  intros Hm Hk w. unfold bind. specialize (Hm w).
  destruct (m w) as [[a|e] w1]; simpl in *; [|exact Hm].
  eapply extends_trans; [exact Hm|apply Hk].
Qed.

Lemma stable_get_account i : stable (get_account i).
Proof. intros w. unfold get_account. destruct (accounts w !! i); apply extends_refl. Qed.

Lemma stable_record ev : stable (record ev).
Proof. intros w. split; [reflexivity|]. now exists [ev]. Qed.

Lemma stable_await_io E n : stable (await_io E n).
Proof. intros w. split; [reflexivity|]. exists []. simpl. now rewrite app_nil_r. Qed.

Lemma stable_of_outcome {A} (o : Outcome A) : stable (of_outcome o).
Proof. intros w. apply extends_refl. Qed.

Lemma stable_Date_now : stable Date_now.
Proof. intros w. apply extends_refl. Qed.

Lemma stable_fresh_id : stable fresh_id.
Proof. intros w. split; [reflexivity|]. exists []. simpl. now rewrite app_nil_r. Qed.

Lemma stable_update_account i f : stable (update_account i f).
Proof.
  intros w. split; [apply length_alter|]. exists []. now rewrite app_nil_r.
Qed.

Lemma stable_try_finally {A} (m : M A) i f :
  stable m ->
  stable (try_finally m (fun w => set_accounts (alter f i (accounts w)) w)).
Proof.
  intros Hm w. unfold try_finally. simpl.
  eapply extends_trans; [apply Hm|].
  split; [apply length_alter|]. exists []. now rewrite app_nil_r.
Qed.

Ltac stable_step :=
  first
    [ apply stable_ret | apply stable_throw | apply stable_get_account
    | apply stable_record | apply stable_await_io | apply stable_of_outcome
    | apply stable_Date_now | apply stable_fresh_id | apply stable_update_account
    | apply stable_bind; [|intros ?]
    | match goal with
      | |- stable (if ?b then _ else _) => destruct b
      | |- stable (match ?x with _ => _ end) => destruct x
      end ].

(** Operations that leave the pool alone. *)
Definition keeps_accounts {A} (m : M A) : Prop :=
  forall w, accounts (snd (m w)) = accounts w.

Lemma keeps_bind {A B} (m : M A) (k : A -> M B) :
  keeps_accounts m -> (forall a, keeps_accounts (k a)) -> keeps_accounts (bind m k).
Proof.
  intros Hm Hk w. unfold bind. specialize (Hm w).
  destruct (m w) as [[a|e] w1]; simpl in *; [|exact Hm].
  now rewrite Hk.
Qed.

Ltac keeps_step :=
  first
    [ apply keeps_bind; [|intros ?]
    | match goal with
      | |- keeps_accounts (if ?b then _ else _) => destruct b
      | |- keeps_accounts (match ?x with _ => _ end) => destruct x
      end
    | (intros ?; reflexivity) ].

Ltac prim H := injection H; intros; subst; clear H.

Section Refresh.
Variable E : Env.

Lemma stable_fetchProjectId t : stable (fetchProjectId E t).
Proof. unfold fetchProjectId. repeat stable_step. Qed.

Lemma stable_writeFile path c : stable (writeFile E path c).
Proof. unfold writeFile. repeat stable_step. Qed.

Lemma stable_scheduleRefresh i : stable (scheduleRefresh i).
Proof. unfold scheduleRefresh. repeat stable_step. Qed.

Lemma stable_refresh_projectId a d : stable (refresh_projectId E a d).
Proof.
  unfold refresh_projectId.
  repeat first [apply stable_fetchProjectId | stable_step].
Qed.

Lemma stable_refreshToken_body i p : stable (refreshToken_body E i p).
Proof.
  unfold refreshToken_body.
  repeat first [apply stable_refresh_projectId | apply stable_writeFile
               | apply stable_scheduleRefresh | stable_step].
Qed.

Lemma stable_refreshToken_settle i p : stable (refreshToken_settle E i p).
Proof. apply stable_try_finally, stable_refreshToken_body. Qed.

Lemma stable_refreshToken_start i : stable (refreshToken_start i).
Proof. unfold refreshToken_start. repeat stable_step. Qed.

Lemma stable_projectId_settle i p : stable (projectId_settle E i p).
Proof.
  apply stable_try_finally. unfold projectId_body.
  repeat first [apply stable_writeFile | stable_step].
Qed.

Lemma stable_ensureProjectId i : stable (ensureProjectId E i).
Proof.
  unfold ensureProjectId.
  repeat first [apply stable_projectId_settle | stable_step].
Qed.

Lemma keeps_fetchProjectId t : keeps_accounts (fetchProjectId E t).
Proof. unfold fetchProjectId. repeat keeps_step. Qed.

Lemma keeps_writeFile path c : keeps_accounts (writeFile E path c).
Proof. unfold writeFile. repeat keeps_step. Qed.

Lemma keeps_refresh_projectId a d : keeps_accounts (refresh_projectId E a d).
Proof.
  unfold refresh_projectId. repeat first [apply keeps_fetchProjectId | keeps_step].
Qed.

Lemma run_keeps {A} (m : M A) w out w' :
  keeps_accounts m -> m w = (out, w') -> accounts w' = accounts w.
Proof. intros H Hr. specialize (H w). now rewrite Hr in H. Qed.

Lemma get_account_inv i w a w' :
  get_account i w = (Ok a, w') -> accounts w !! i = Some a /\ w' = w.
Proof.
  unfold get_account. destruct (accounts w !! i); [|discriminate].
  now intros [= <- <-].
Qed.

Lemma refresh_projectId_token a d w d' w1 :
  refresh_projectId E a d w = (Ok d', w1) -> access_token d' = access_token d.
Proof.
  unfold refresh_projectId.
  destruct (isValidProjectId (projectId (creds a)) && hasProjectIdRepairMarker (creds a)).
  - now intros [= <- _].
  - intros H. apply bind_inv_ok in H as [pid [w2 [_ H]]].
    destruct (negb (isValidProjectId pid)); [discriminate|].
    now injection H as <- _.
Qed.

Lemma refreshToken_body_ok i p w a t w1 :
  accounts w !! i = Some a ->
  refreshToken_body E i p w = (Ok t, w1) ->
  exists data d timer,
    httpClient_refreshToken E p (refresh_token (creds a)) = Ok data
    /\ access_token d = access_token data
    /\ t = access_token d
    /\ accounts w1 = alter (set_refreshTimer timer) i (alter (set_creds d) i (accounts w)).
Proof.
  intros Hl H. unfold refreshToken_body in H.
  apply bind_inv_ok in H as [a0 [w2 [Ha0 H]]].
  apply get_account_inv in Ha0 as [Ha0 ->].
  assert (a0 = a) as -> by congruence.
  apply bind_inv_ok in H as [? [w3 [Hw3 H]]]. prim Hw3.
  apply bind_inv_ok in H as [data [w4 [Hdata H]]].
  unfold of_outcome in Hdata. injection Hdata as Hdata <-.
  apply bind_inv_ok in H as [a1 [w5 [Ha1 H]]].
  apply get_account_inv in Ha1 as [Ha1 ->]. cbn in Ha1.
  assert (a1 = a) as -> by congruence.
  apply bind_inv_ok in H as [d [w6 [Hd H]]].
  pose proof (refresh_projectId_token _ _ _ _ _ Hd) as Htok.
  pose proof (run_keeps _ _ _ _ (keeps_refresh_projectId _ _) Hd) as Hacc6. cbn in Hacc6.
  apply bind_inv_ok in H as [? [w7 [Hw7 H]]]. prim Hw7.
  apply bind_inv_ok in H as [? [w8 [Hw8 H]]].
  pose proof (run_keeps _ _ _ _ (keeps_writeFile _ _) Hw8) as Hacc8. cbn in Hacc8.
  apply bind_inv_ok in H as [? [w9 [Hw9 H]]].
  prim H.
  unfold scheduleRefresh in Hw9.
  apply bind_inv_ok in Hw9 as [a2 [w10 [Ha2 Hw9]]].
  apply get_account_inv in Ha2 as [_ ->].
  apply bind_inv_ok in Hw9 as [tm [w11 [Htm Hw9]]]. prim Htm.
  apply bind_inv_ok in Hw9 as [? [w12 [Hrec Hw9]]]. prim Hrec.
  prim Hw9.
  exists data, d, (Some (next_id w8)). repeat split.
  - exact Hdata.
  - rewrite Htok. now destruct (email (creds a)) as [e|]; [destruct (is_empty e)|].
  - cbn. now rewrite Hacc8, Hacc6.
Qed.

Lemma get_account_run i w a : accounts w !! i = Some a -> get_account i w = (Ok a, w).
Proof. unfold get_account. now intros ->. Qed.

Lemma refreshToken_start_fresh i w a :
  accounts w !! i = Some a -> refreshPromise a = None ->
  refreshToken_start i w
  = (Ok (length (trace w)),
     set_accounts (alter (set_refreshPromise (Some (length (trace w)))) i (accounts w))
       (set_trace (trace w ++ [EvRefreshToken (refresh_token (creds a))]) w)).
Proof.
  intros Hl Hnone. unfold refreshToken_start.
  erewrite bind_ok by (apply get_account_run; eassumption).
  rewrite Hnone. reflexivity.
Qed.

Lemma refreshToken_start_join i w a p :
  accounts w !! i = Some a -> refreshPromise a = Some p ->
  refreshToken_start i w = (Ok p, w).
Proof.
  intros Hl Hp. unfold refreshToken_start.
  erewrite bind_ok by (apply get_account_run; eassumption).
  now rewrite Hp.
Qed.

Lemma refreshToken_settle_slot i p w a out w' :
  accounts w !! i = Some a ->
  refreshToken_settle E i p w = (out, w') ->
  exists a', accounts w' !! i = Some a' /\ refreshPromise a' = None.
Proof.
  intros Hl H. unfold refreshToken_settle, try_finally in H.
  injection H as _ <-. cbn.
  destruct (stable_refreshToken_body i p w) as [Hlen _].
  apply lookup_lt_Some in Hl. rewrite <- Hlen in Hl.
  apply lookup_lt_is_Some in Hl as [a1 Ha1].
  exists (set_refreshPromise None a1).
  now rewrite list_lookup_alter_eq, Ha1.
Qed.

Lemma refreshToken_expired i w a :
  accounts w !! i = Some a -> refreshPromise a = None ->
  forall out w', refreshToken E i w = (out, w') ->
  (exists rest, trace w' = trace w ++ EvRefreshToken (refresh_token (creds a)) :: rest)
  /\ length (accounts w') = length (accounts w)
  /\ forall t, out = Ok t ->
       exists data a',
         httpClient_refreshToken E (length (trace w)) (refresh_token (creds a)) = Ok data
         /\ accounts w' !! i = Some a'
         /\ access_token (creds a') = access_token data
         /\ t = access_token data.
Proof.
  intros Hl Hnone out w' H. unfold refreshToken in H.
  erewrite bind_ok in H by (apply refreshToken_start_fresh; eassumption).
  set (n := length (trace w)) in *.
  set (w1 := set_accounts _ _) in H.
  assert (Hl1 : accounts w1 !! i = Some (set_refreshPromise (Some n) a)).
  { unfold w1. cbn. now rewrite list_lookup_alter_eq, Hl. }
  unfold refreshToken_settle, try_finally in H.
  pose proof (stable_refreshToken_body i n w1) as [Hlen [rest Htr]].
  destruct (refreshToken_body E i n w1) as [o w2] eqn:Hb.
  cbn in H, Hlen, Htr. injection H as <- <-. cbn.
  split; [|split].
  - exists rest. rewrite Htr. unfold w1. cbn. now rewrite <- app_assoc.
  - rewrite length_alter, Hlen. unfold w1. cbn. apply length_alter.
  - intros t ->.
    destruct (refreshToken_body_ok _ _ _ _ _ _ Hl1 Hb) as [data [d [tm [Hd [Htok [-> Hacc]]]]]].
    exists data. eexists. split; [exact Hd|].
    rewrite Hacc, !list_lookup_alter_eq, Hl1. cbn. repeat split; auto.
Qed.

Lemma fresh_token_expired i w a e :
  accounts w !! i = Some a -> refreshPromise a = None ->
  expiry_date (creds a) = Some e -> e < clock w ->
  forall out w', fresh_token E i w = (out, w') ->
  (exists rest, trace w' = trace w ++ EvRefreshToken (refresh_token (creds a)) :: rest)
  /\ length (accounts w') = length (accounts w)
  /\ (out = Ok tt ->
      exists data a',
        httpClient_refreshToken E (length (trace w)) (refresh_token (creds a)) = Ok data
        /\ accounts w' !! i = Some a'
        /\ access_token (creds a') = access_token data).
Proof.
  intros Hl Hnone He Hlt out w' H. unfold fresh_token in H.
  erewrite bind_ok in H by (apply get_account_run; eassumption).
  rewrite Hnone in H.
  erewrite bind_ok in H by reflexivity.
  erewrite bind_ok in H by (apply get_account_run; eassumption).
  erewrite bind_ok in H by reflexivity.
  unfold expired in H. rewrite He in H.
  replace (e <? clock w) with true in H by (symmetry; apply Z.ltb_lt; lia).
  apply bind_inv in H as [[t [w2 [Hr H]]]|[err [Hr ->]]].
  - injection H as <- <-.
    destruct (refreshToken_expired i w a Hl Hnone _ _ Hr) as [Htr [Hlen Hok]].
    split; [exact Htr|]. split; [exact Hlen|]. intros _.
    destruct (Hok t eq_refl) as [data [a' [? [? [? ?]]]]]. eauto.
  - destruct (refreshToken_expired i w a Hl Hnone _ _ Hr) as [Htr [Hlen _]].
    split; [exact Htr|]. split; [exact Hlen|]. discriminate.
Qed.


Lemma projectId_body_accounts i p w a out w' :
  accounts w !! i = Some a ->
  projectId_body E i p w = (out, w') ->
  (exists rest, trace w' = trace w ++ rest)
  /\ exists a', accounts w' !! i = Some a'
                /\ access_token (creds a') = access_token (creds a).
Proof.
  intros Hl H.
  pose proof (lookup_lt_Some _ _ _ Hl) as Hi.
  unfold projectId_body in H.
  erewrite bind_ok in H by (apply get_account_run; eassumption).
  erewrite bind_ok in H by reflexivity.
  unfold of_outcome at 1 in H.
  destruct (httpClient_fetchProjectId E p (access_token (creds a))) as [pid|err].
  2:{ erewrite bind_throw in H by reflexivity. injection H as <- <-. cbn.
      split; [exists []; now rewrite app_nil_r|]. eauto. }
  erewrite bind_ok in H by reflexivity.
  destruct (negb (isValidProjectId pid)).
  { injection H as <- <-. cbn.
    split; [exists []; now rewrite app_nil_r|]. eauto. }
  erewrite bind_ok in H by reflexivity.
  erewrite bind_ok in H by (apply get_account_run; cbn; eassumption).
  erewrite bind_ok in H by reflexivity.
  match type of H with bind (writeFile E ?f ?c) _ ?w0 = _ =>
    pose proof (stable_writeFile f c w0) as [_ [rest Htr]];
    pose proof (keeps_writeFile f c w0) as Hk;
    destruct (writeFile E f c w0) as [[[]|err] w3] eqn:Hw
  end; unfold bind in H; rewrite Hw in H; injection H as <- <-;
    cbn in *; (split; [exists rest; exact Htr|]);
    rewrite Hk, list_lookup_alter_eq, Hl; cbn; eauto.
Qed.

Lemma ensureProjectId_token i w a out w' :
  accounts w !! i = Some a ->
  ensureProjectId E i w = (out, w') ->
  (exists rest, trace w' = trace w ++ rest)
  /\ exists a', accounts w' !! i = Some a'
                /\ access_token (creds a') = access_token (creds a).
Proof.
  intros Hl H. unfold ensureProjectId in H.
  erewrite bind_ok in H by (apply get_account_run; eassumption).
  destruct (isValidProjectId (projectId (creds a)) && hasProjectIdRepairMarker (creds a)).
  { injection H as <- <-. split; [exists []; now rewrite app_nil_r|]. eauto. }
  assert (Hsettle : forall p w0 a0,
             accounts w0 !! i = Some a0 ->
             projectId_settle E i p w0 = (out, w') ->
             (exists rest, trace w' = trace w0 ++ rest)
             /\ exists a', accounts w' !! i = Some a'
                           /\ access_token (creds a') = access_token (creds a0)).
  { intros p w0 a0 Hl0 Hs. unfold projectId_settle, try_finally in Hs.
    destruct (projectId_body E i p w0) as [o w1] eqn:Hb.
    destruct (projectId_body_accounts _ _ _ _ _ _ Hl0 Hb) as [Htr [a1 [Ha1 Htok]]].
    cbn in Hs. injection Hs as <- <-. cbn. split; [exact Htr|].
    rewrite list_lookup_alter_eq, Ha1. cbn. eauto. }
  destruct (projectPromise a) as [p|].
  - eapply Hsettle; eauto.
  - erewrite bind_ok in H by reflexivity.
    erewrite bind_ok in H by reflexivity.
    eapply Hsettle in H as [[rest Htr] Ha'];
      [|cbn; rewrite list_lookup_alter_eq, Hl; reflexivity].
    cbn in Htr, Ha'. split; [|exact Ha'].
    exists (EvFetchProjectId (access_token (creds a)) :: rest).
    rewrite Htr. now rewrite <- app_assoc.
Qed.

End Refresh.

(** C8.  The refresh slot of an account.  While a refresh is in flight the
    caller of [refreshToken] is handed the promise in the slot and nothing
    else happens (no request is sent, the state is the same).  With the
    slot empty a request is sent and its promise is stored.  When the
    operation settles, whatever its outcome, the slot is empty, and the
    next call starts a new refresh. *)
Theorem refreshToken_single_flight (E : Env) (i : nat) (w : World) (a : Account) :
  accounts w !! i = Some a ->
  (forall p, refreshPromise a = Some p -> refreshToken_start i w = (Ok p, w))
  /\ (refreshPromise a = None ->
      exists w1,
        refreshToken_start i w = (Ok (length (trace w)), w1)
        /\ trace w1 = trace w ++ [EvRefreshToken (refresh_token (creds a))]
        /\ (accounts w1 !! i) ≫= refreshPromise = Some (length (trace w)))
  /\ (forall p out w',
        refreshToken_settle E i p w = (out, w') ->
        (exists a', accounts w' !! i = Some a' /\ refreshPromise a' = None)
        /\ exists w2,
             refreshToken_start i w' = (Ok (length (trace w')), w2)
             /\ exists r, trace w2 = trace w' ++ [EvRefreshToken r]).
Proof.
  intros Hl. split; [|split].
  - intros p Hp. eapply refreshToken_start_join; eauto.
  - intros Hnone. eexists. split; [eapply refreshToken_start_fresh; eauto|].
    cbn. split; [reflexivity|]. now rewrite list_lookup_alter_eq, Hl.
  - intros p out w' H.
    destruct (refreshToken_settle_slot E _ _ _ _ _ _ Hl H) as [a' [Ha' Hnone]].
    split; [eauto|]. eexists. split; [eapply refreshToken_start_fresh; eauto|].
    cbn. eauto.
Qed.

Lemma refreshToken_single_flight_witness :
  let busy := set_refreshPromise (Some 7%nat) Example.A in
  let w := Example.world [busy] 0 0 ∅ ∅ 1000 in
  refreshToken_start 0 w = (Ok 7%nat, w)
  /\ forall out w', refreshToken_settle Example.offline 0 7 w = (out, w') ->
       exists a', accounts w' !! 0%nat = Some a' /\ refreshPromise a' = None.
Proof.
  intros busy w.
  destruct (refreshToken_single_flight Example.offline 0 w busy eq_refl)
    as [Hjoin [_ Hsettle]].
  split.
  - apply Hjoin. reflexivity.
  - intros out w' H. exact (proj1 (Hsettle 7%nat out w' H)).
Defined.

(** What is asked of a lookup that starts in [w] on the account [a]: the
    refresh request for [a] is the first thing sent, and a token is only
    returned if that refresh answered, and then it is the new token. *)
Definition refreshed_first (E : Env) (w : World) (a : Account)
    (out : Outcome CredentialsResult) (w' : World) : Prop :=
  (exists rest, trace w' = trace w ++ EvRefreshToken (refresh_token (creds a)) :: rest)
  /\ forall r, out = Ok r ->
       exists data,
         httpClient_refreshToken E (length (trace w)) (refresh_token (creds a)) = Ok data
         /\ accessToken r = access_token data.

Lemma check_index_run (index : Z) (w : World) (a : Account) :
  0 <= index -> accounts w !! Z.to_nat index = Some a ->
  check_index index w = (Ok (Z.to_nat index), w).
Proof.
  intros Hnn Hl. apply lookup_lt_Some in Hl.
  unfold check_index. erewrite bind_ok by reflexivity.
  unfold getAccountCount.
  replace (Z.of_nat (length (accounts w)) =? 0) with false
    by (symmetry; apply Z.eqb_neq; lia).
  replace (index <? 0) with false by (symmetry; apply Z.ltb_ge; lia).
  replace (Z.of_nat (length (accounts w)) <=? index) with false
    by (symmetry; apply Z.leb_gt; lia).
  reflexivity.
Qed.

(** An account whose [expiry_date] is strictly before the current instant
    and that has no refresh in flight is refreshed by the three lookups
    before a token is returned: the refresh request is sent first, and the
    token returned is the one the refresh produced. *)
Lemma lookup_refreshes_expired (E : Env) (w : World) (index : Z) (a : Account)
    (e : Z) (group : string) :
  0 <= index ->
  accounts w !! Z.to_nat index = Some a ->
  refreshPromise a = None ->
  expiry_date (creds a) = Some e ->
  e < clock w ->
  (forall out w', getCredentialsByIndex E index group w = (out, w') ->
                  refreshed_first E w a out w')
  /\ (forall out w', getAccessTokenByIndex E index group w = (out, w') ->
                     refreshed_first E w a out w')
  /\ (getCurrentAccountIndex (normalizeQuotaGroup group) w = index ->
      forall out w', getCredentials E group w = (out, w') ->
                     refreshed_first E w a out w').
Proof.
  intros Hnn Hl Hnone He Hlt.
  set (i := Z.to_nat index) in *.
  assert (Hlookup : forall out w1 (k : M CredentialsResult) o w',
             fresh_token E i w = (out, w1) ->
             (out = Ok tt -> k w1 = (o, w')) ->
             (forall er, out = Throw er -> o = Throw er /\ w' = w1) ->
             (forall a1 r w2, accounts w1 !! i = Some a1 -> k w1 = (Ok r, w2) ->
                              accessToken r = access_token (creds a1)) ->
             (forall r w2, k w1 = (r, w2) -> exists rest, trace w2 = trace w1 ++ rest) ->
             refreshed_first E w a o w').
  { intros out w1 k o w' Hf Hok Herr Htok Htr.
    destruct (fresh_token_expired E i w a e Hl Hnone He Hlt _ _ Hf)
      as [[rest Hrest] [_ Hdata]].
    destruct out as [[]|er].
    - destruct (Hdata eq_refl) as [data [a1 [Hd [Ha1 Ht1]]]].
      specialize (Hok eq_refl).
      destruct (Htr _ _ Hok) as [rest' Hrest'].
      split.
      + exists (rest ++ rest'). rewrite Hrest', Hrest.
        now rewrite <- app_assoc.
      + intros r ->. exists data. split; [exact Hd|].
        rewrite (Htok _ _ _ Ha1 Hok). exact Ht1.
    - destruct (Herr er eq_refl) as [-> ->].
      split; [eauto|]. discriminate. }
  assert (Hwith : forall out w',
             bind (fresh_token E i)
               (fun _ => bind (ensureProjectId E i)
                  (fun _ => bind (get_account i)
                     (fun account =>
                        ret {| accessToken := access_token (creds account);
                               result_projectId := projectId (creds account);
                               account := account;
                               accountIndex := index |}))) w = (out, w') ->
             refreshed_first E w a out w').
  { intros out w' H.
    destruct (fresh_token E i w) as [o1 w1] eqn:Hf.
    eapply (Hlookup o1 w1
              (bind (ensureProjectId E i)
                 (fun _ => bind (get_account i)
                    (fun account =>
                       ret {| accessToken := access_token (creds account);
                              result_projectId := projectId (creds account);
                              account := account;
                              accountIndex := index |})))); [reflexivity|..].
    - intros ->. unfold bind at 1 in H. now rewrite Hf in H.
    - intros er ->. unfold bind at 1 in H. rewrite Hf in H. now injection H as <- <-.
    - intros a1 r w2 Ha1 Hk.
      apply bind_inv_ok in Hk as [s [w3 [Hens Hk]]].
      destruct (ensureProjectId_token E _ _ _ _ _ Ha1 Hens) as [_ [a2 [Ha2 Ht2]]].
      erewrite bind_ok in Hk by (apply get_account_run; eassumption).
      injection Hk as <- _. cbn. exact Ht2.
    - intros r w2 Hk.
      destruct (ensureProjectId E i w1) as [o3 w3] eqn:Hens.
      assert (Htr3 : exists rest, trace w3 = trace w1 ++ rest).
      { destruct (stable_ensureProjectId E i w1) as [_ Hr]. now rewrite Hens in Hr. }
      unfold bind at 1 in Hk. rewrite Hens in Hk. destruct o3 as [s|er].
      + unfold bind, get_account in Hk.
        destruct (accounts w3 !! i); injection Hk as _ <-; exact Htr3.
      + injection Hk as _ <-. exact Htr3. }
  split; [|split].
  - intros out w' H. unfold getCredentialsByIndex in H.
    erewrite bind_ok in H by (eapply check_index_run; eauto).
    now apply Hwith.
  - intros out w' H. unfold getAccessTokenByIndex in H.
    erewrite bind_ok in H by (eapply check_index_run; eauto).
    fold i in H.
    destruct (fresh_token E i w) as [o1 w1] eqn:Hf.
    eapply (Hlookup o1 w1
              (bind (get_account i)
                 (fun account =>
                    ret {| accessToken := access_token (creds account);
                           result_projectId := None;
                           account := account;
                           accountIndex := index |}))); [reflexivity|..].
    + intros ->. unfold bind at 1 in H. now rewrite Hf in H.
    + intros er ->. unfold bind at 1 in H. rewrite Hf in H. now injection H as <- <-.
    + intros a1 r w2 Ha1 Hk.
      erewrite bind_ok in Hk by (apply get_account_run; eassumption).
      now injection Hk as <- _.
    + intros r w2 Hk. unfold bind, get_account in Hk.
      destruct (accounts w1 !! i); injection Hk as _ <-;
        exists []; now rewrite app_nil_r.
  - intros Hcur out w' H. unfold getCredentials in H.
    erewrite bind_ok in H by reflexivity.
    apply lookup_lt_Some in Hl as Hlen.
    unfold getAccountCount in H.
    replace (Z.of_nat (length (accounts w)) =? 0) with false in H
      by (symmetry; apply Z.eqb_neq; lia).
    rewrite Hcur in H.
    replace (index <? 0) with false in H by (symmetry; apply Z.ltb_ge; lia).
    erewrite bind_ok in H by reflexivity.
    now apply Hwith.
Qed.

(** The scenario of the specification: the token expired a second ago, the
    lookup refreshes it and returns the new one. *)
Example token_expiry_scenario :
  let stale := Example.account_of "a.json" "token-a" 0 in
  let r := getCredentialsByIndex Example.renewing 0 "gemini"
             (Example.world [stale] 0 0 ∅ ∅ 1000) in
  (accessToken <$> match fst r with Ok c => Some c | Throw _ => None end) = Some "token-new"
  /\ head (trace (snd r)) = Some (EvRefreshToken "refresh-token-a").
Proof. vm_compute. split; reflexivity. Qed.

(** C6 as stated fails at [expiry_date = now]: the comparison in the three
    lookups is strict, so no refresh is sent and the token that expires at
    this instant is returned. *)
Lemma token_expiring_now_is_returned :
  let a := Example.account_of "a.json" "token-a" 1000 in
  let w := Example.world [a] 0 0 ∅ ∅ 1000 in
  expiry_date (creds a) = Some (clock w)
  /\ (exists r, getCredentialsByIndex Example.renewing 0 "gemini" w = (Ok r, w)
                /\ accessToken r = "token-a")
  /\ (exists r, getAccessTokenByIndex Example.renewing 0 "gemini" w = (Ok r, w)
                /\ accessToken r = "token-a")
  /\ (exists r, getCredentials Example.renewing "gemini" w = (Ok r, w)
                /\ accessToken r = "token-a")
  /\ ~ refreshed_first Example.renewing w a
         (fst (getCredentialsByIndex Example.renewing 0 "gemini" w))
         (snd (getCredentialsByIndex Example.renewing 0 "gemini" w)).
Proof.
  intros a w. split; [reflexivity|].
  split; [eexists; split; [vm_compute; reflexivity | reflexivity]|].
  split; [eexists; split; [vm_compute; reflexivity | reflexivity]|].
  split; [eexists; split; [vm_compute; reflexivity | reflexivity]|].
  intros [[rest Hrest] _]. vm_compute in Hrest. discriminate.
Qed.

(** ** The duration grammar *)

Lemma exact_component_finite (c : Component) :
  wf_component c = true ->
  Number_isFinite ExactOps (parseFloat ExactOps (num_text c)) = true.
Proof.
  unfold wf_component, digits. intros H.
  apply andb_true_iff in H as [H _]. apply andb_true_iff in H as [Hne Hd].
  cbn. unfold parseFloatQ, num_text.
  destruct (c_int c) as [|d r]; [discriminate|].
  cbn in Hd |- *. apply andb_true_iff in Hd as [Hd _]. rewrite Hd. reflexivity.
Qed.

(** C9, as the code has it.  In any arithmetic [J] of numbers: a string
    made of one or more components of the grammar, each with a finite
    value, parses to the rounded sum of the components in milliseconds; a
    string in which the scanner's expression (a run of digits and dots,
    optional white space, a unit) has no match parses to [null].  The
    function is total: it never throws. *)
Theorem parseDurationMs_grammar (J : NumberOps) :
  (forall cs : list Component,
      cs <> [] ->
      Forall (fun c => wf_component c = true) cs ->
      Forall (fun c => Number_isFinite J (parseFloat J (num_text c)) = true) cs ->
      parseDurationMs J (render_all cs) = Some (Math_round J (sum_ms J cs)))
  /\ (forall s : string, ~ contains_match s -> parseDurationMs J s = None).
Proof.
  split.
  - intros cs Hne Hwf Hfin. unfold parseDurationMs.
    pose proof (render_all_digit_or_end cs Hwf) as Hhead.
    pose proof (render_all_last cs Hwf) as Hlast.
    destruct (render_all cs) as [|d r] eqn:Er.
    { destruct cs as [|c cs']; [congruence|].
      simpl in Er. unfold render, num_text in Er.
      inversion Hwf as [|? ? Hc _]; subst.
      unfold wf_component, digits in Hc.
      destruct (c_int c); [discriminate|discriminate]. }
    cbn [is_empty].
    assert (Htrim : trim (String d r) = String d r).
    { unfold trim. rewrite trimStart_id.
      - now apply trimEnd_id.
      - simpl in Hhead. unfold is_digit in Hhead. unfold is_space.
        apply andb_true_iff in Hhead as [H1 H2].
        apply N.leb_le in H1. apply N.leb_le in H2.
        repeat (apply orb_false_iff; split).
        + apply andb_false_iff. right. apply N.leb_gt. lia.
        + apply N.eqb_neq. lia.
        + apply N.eqb_neq. lia. }
    rewrite Htrim. cbn [is_empty]. rewrite <- Er.
    rewrite (exec_loop_render_all J cs Hwf Hfin) by reflexivity.
    cbn [fst snd orb]. rewrite bool_decide_eq_false_2 by assumption.
    reflexivity.
  - intros s Hno. destruct (parseDurationMs J s) as [v|] eqn:E; [|reflexivity].
    exfalso. apply Hno. eapply parseDurationMs_Some_match; eauto.
Qed.

Lemma parseDurationMs_grammar_witness :
  parseDurationMs ExactOps "1h16m0.667923083s" = Some (Some (inject_Z 4560668))
  /\ parseDurationMs ExactOps EmptyString = None.
Proof.
  destruct (parseDurationMs_grammar ExactOps) as [Hsum Hnone].
  split.
  - apply (Hsum [ {| c_int := "1"; c_frac := None; c_unit := Uh |};
                  {| c_int := "16"; c_frac := None; c_unit := Um |};
                  {| c_int := "0"; c_frac := Some "667923083"; c_unit := Us |} ]).
    + discriminate.
    + repeat constructor.
    + repeat constructor.
  - apply Hnone. intros [pre [n [ws [u [post [Hs [Hn _]]]]]]].
    destruct pre; [|discriminate]. destruct n; [congruence|discriminate].
Defined.

(** C9 as stated fails: [".s"] contains no component of the grammar (it has
    no digit), the expression matches it all the same, and the result is 0
    where C9 has [null]. *)
Lemma parseDurationMs_dot_unit :
  ~ contains_component ".s"
  /\ parseDurationMs ExactOps ".s" = Some (Some (inject_Z 0))
  /\ parseDurationMs ExactOps ".s" <> None.
Proof.
  split; [|split].
  - intros H. apply contains_component_digit in H. discriminate.
  - reflexivity.
  - discriminate.
Qed.

(** White space between the number and the unit is accepted as well. *)
Example parseDurationMs_spaced :
  parseDurationMs ExactOps "5 s" = Some (Some (inject_Z 5000)).
Proof. reflexivity. Qed.

Import UpstreamClient.

(** ** The order of [getAccountPrioritiesForModel] *)

Ltac cases_eqb :=
  repeat match goal with
         | |- context [?x =? ?y] => destruct (Z.eqb_spec x y)
         | H : context [?x =? ?y] |- _ => destruct (Z.eqb_spec x y)
         end.

#[export] Instance item_le_total : Total item_le.
Proof.
  intros a b. unfold item_le, compareItems.
  generalize (default (-1) (item_remainingPercent a)).
  generalize (default (-1) (item_remainingPercent b)). intros pb pa.
  destruct (cooldownActive a), (cooldownActive b),
    (item_resetTimeMs a), (item_resetTimeMs b); cbn; cases_eqb; cbn; lia.
Qed.

#[export] Instance item_le_trans : Transitive item_le.
Proof.
  intros a b c. unfold item_le, compareItems.
  generalize (default (-1) (item_remainingPercent a)).
  generalize (default (-1) (item_remainingPercent b)).
  generalize (default (-1) (item_remainingPercent c)). intros pc pb pa.
  destruct (cooldownActive a), (cooldownActive b), (cooldownActive c),
    (item_resetTimeMs a), (item_resetTimeMs b), (item_resetTimeMs c);
    cbn; cases_eqb; cbn; lia.
Qed.

(** The order of the specification.  [reset_before]: sooner reset first,
    an unknown reset time counting as infinitely late. *)
Definition reset_before (a b : option Z) : Prop :=
  match a, b with
  | Some x, Some y => x < y
  | Some _, None => True
  | None, _ => False
  end.

Definition rank_percent (it : Item) : Z := default (-1) (item_remainingPercent it).

Definition spec_before (a b : Item) : Prop :=
  (cooldownActive a = false /\ cooldownActive b = true)
  \/ (cooldownActive a = cooldownActive b
      /\ (rank_percent b < rank_percent a
          \/ (rank_percent a = rank_percent b
              /\ (reset_before (item_resetTimeMs a) (item_resetTimeMs b)
                  \/ (item_resetTimeMs a = item_resetTimeMs b
                      /\ item_accountIndex a < item_accountIndex b))))).

Lemma item_le_spec_before a b :
  item_le a b -> item_accountIndex a <> item_accountIndex b -> spec_before a b.
Proof.
  unfold item_le, compareItems, spec_before, rank_percent.
  generalize (default (-1) (item_remainingPercent a)).
  generalize (default (-1) (item_remainingPercent b)). intros pb pa.
  destruct (cooldownActive a), (cooldownActive b),
    (item_resetTimeMs a) as [ra|], (item_resetTimeMs b) as [rb|];
    cbn; cases_eqb; cbn; intros H Hne; try lia;
    try (left; split; reflexivity);
    right; (split; [reflexivity|]);
    first [ left; lia
          | right; split; [lia|]; first [ left; lia | left; exact I
                                        | right; split; [congruence|lia] ] ].
Qed.

Lemma StronglySorted_spec_before (l : list Item) :
  StronglySorted item_le l -> NoDup (item_accountIndex <$> l) ->
  StronglySorted spec_before l.
Proof.
  induction 1 as [|x l Hl IH Hx]; intros Hnd; [constructor|].
  rewrite fmap_cons in Hnd. apply NoDup_cons in Hnd as [Hnotin Hnd].
  constructor; [auto|].
  rewrite Forall_forall in Hx |- *. intros y Hy.
  apply item_le_spec_before; [auto|].
  intros Heq. apply Hnotin. rewrite Heq. now apply list_elem_of_fmap_2.
Qed.

Section Priorities.
Variable E : Env.

(** The quota entry of an account for the model whose map is [perModel]. *)
Definition entry_of (perModel : option (gmap string QuotaEntry)) (a : Account)
  : option QuotaEntry :=
  match perModel with
  | Some pm => pm !! getAccountKeyFromAccount E a
  | None => None
  end.

(** The candidate that stands for the account in slot [i]. *)
Definition annotate (perModel : option (gmap string QuotaEntry)) (now : Z)
    (i : Z) (a : Account) : Item :=
  let q := entry_of perModel a in
  {| item_accountIndex := i;
     item_accountKey := getAccountKeyFromAccount E a;
     item_remainingPercent := q ≫= remainingPercent;
     item_resetTimeMs := q ≫= resetTimeMs;
     item_cooldownUntilMs := default 0 (q ≫= cooldownUntilMs);
     cooldownActive := now <? default 0 (q ≫= cooldownUntilMs) |}.

(** The account in slot [i] is a candidate: not excluded and, unless zeros
    are asked for, not known to be at 0. *)
Definition listed (perModel : option (gmap string QuotaEntry)) (o : PriorityOptions)
    (i : Z) (a : Account) : Prop :=
  (i ∉ excludeAccountIndices o)
  /\ (includeZero o = true \/ entry_of perModel a ≫= remainingPercent <> Some 0).

#[export] Instance listed_dec pm o i a : Decision (listed pm o i a).
Proof. unfold listed. apply _. Defined.

Fixpoint candidates (perModel : option (gmap string QuotaEntry)) (o : PriorityOptions)
    (k : Z) (accs : list Account) : list Item :=
  match accs with
  | [] => []
  | a :: rest =>
      (if decide (listed perModel o k a) then [annotate perModel (opt_now o) k a] else [])
      ++ candidates perModel o (k + 1) rest
  end.

Lemma scan_accounts_scanned pm o accs :
  forall k acc,
    scanned (scan_accounts E pm o k accs acc) = scanned acc ++ candidates pm o k accs.
Proof.
  induction accs as [|a rest IH]; intros k acc; simpl.
  - now rewrite app_nil_r.
  - fold (entry_of pm a).
    destruct (decide (listed pm o k a)) as [[Hnex Hz]|Hnl].
    + rewrite bool_decide_eq_false_2 by assumption.
      replace (negb (includeZero o)
               && bool_decide (entry_of pm a ≫= remainingPercent = Some 0))
        with false.
      * rewrite IH. cbn [scanned]. now rewrite <- app_assoc.
      * symmetry. destruct Hz as [->|Hz]; [reflexivity|].
        rewrite (bool_decide_eq_false_2 _ Hz). apply andb_false_r.
    + destruct (bool_decide_reflect (k ∈ excludeAccountIndices o)) as [Hex|Hex].
      * now rewrite IH.
      * replace (negb (includeZero o)
                 && bool_decide (entry_of pm a ≫= remainingPercent = Some 0))
          with true.
        -- now rewrite IH.
        -- symmetry. apply andb_true_iff. split.
           ++ apply negb_true_iff, not_true_is_false. intros Hz. apply Hnl.
              split; auto.
           ++ apply bool_decide_eq_true_2.
              destruct (decide (entry_of pm a ≫= remainingPercent = Some 0)); [auto|].
              exfalso. apply Hnl. split; auto.
Qed.

Lemma elem_of_candidates pm o accs :
  forall k it,
    it ∈ candidates pm o k accs <->
    exists (j : nat) a, accs !! j = Some a
                        /\ listed pm o (k + Z.of_nat j) a
                        /\ it = annotate pm (opt_now o) (k + Z.of_nat j) a.
Proof.
  induction accs as [|a rest IH]; intros k it; simpl.
  - split; [intros H; now apply elem_of_nil in H|].
    intros [j [b [Hj _]]]. discriminate.
  - rewrite elem_of_app, IH. split.
    + intros [H|[j [b [Hj [Hl ->]]]]].
      * destruct (decide (listed pm o k a)) as [Hl|Hl];
          [|now apply elem_of_nil in H].
        apply list_elem_of_singleton in H as ->.
        exists 0%nat, a. rewrite Z.add_0_r. auto.
      * exists (S j), b.
        replace (k + Z.of_nat (S j)) with (k + 1 + Z.of_nat j) by lia. auto.
    + intros [[|j] [b [Hj [Hl ->]]]].
      * injection Hj as ->. rewrite Z.add_0_r in *. left.
        rewrite decide_True by assumption. apply list_elem_of_singleton. reflexivity.
      * right. exists j, b.
        replace (k + 1 + Z.of_nat j) with (k + Z.of_nat (S j)) by lia. auto.
Qed.

Lemma candidates_NoDup pm o accs :
  forall k, NoDup (item_accountIndex <$> candidates pm o k accs).
Proof.
  induction accs as [|a rest IH]; intros k; simpl; [constructor|].
  rewrite fmap_app. apply NoDup_app. split; [|split].
  - destruct (decide (listed pm o k a)); simpl; [|constructor].
    apply NoDup_singleton.
  - intros i Hi Hin.
    destruct (decide (listed pm o k a)); simpl in Hi; [|now apply elem_of_nil in Hi].
    apply list_elem_of_singleton in Hi as ->.
    apply list_elem_of_fmap in Hin as [it [Heq Hit]].
    apply elem_of_candidates in Hit as [j [b [_ [_ ->]]]].
    cbn in Heq. lia.
  - apply IH.
Qed.

End Priorities.

Lemma items_sorted_candidates (E : Env) modelId o w :
  items (getAccountPrioritiesForModel E modelId o w)
  = merge_sort item_le
      (candidates E (modelQuotaByAccount w !! trim modelId) o 0 (accounts w)).
Proof.
  unfold getAccountPrioritiesForModel. cbn [items].
  now rewrite scan_accounts_scanned.
Qed.

(** C3.  For every call of [getAccountPrioritiesForModel], whatever its
    options: the list returned holds exactly the accounts that are not
    excluded and, unless [includeZero] is set (by default it is not), not
    known to be at 0, each once; and any item stands before any other one
    according to: not in cooldown before in cooldown
    ([cooldownUntilMs > now]); then the larger [remainingPercent], unknown
    counting as -1; then the sooner [resetTimeMs], unknown counting as
    infinitely late; then the smaller account index. *)
Theorem getAccountPrioritiesForModel_order (E : Env) (modelId : string)
    (o : PriorityOptions) (w : World) :
  let now := opt_now o in
  let perModel := modelQuotaByAccount w !! trim modelId in
  let result := items (getAccountPrioritiesForModel E modelId o w) in
  StronglySorted spec_before result
  /\ NoDup (item_accountIndex <$> result)
  /\ (forall it,
        it ∈ result <->
        exists (i : nat) a,
          accounts w !! i = Some a
          /\ (Z.of_nat i ∉ excludeAccountIndices o)
          /\ (includeZero o = false ->
              entry_of E perModel a ≫= remainingPercent <> Some 0)
          /\ it = annotate E perModel now (Z.of_nat i) a)
  /\ (forall it, it ∈ result ->
                 (cooldownActive it = true <-> now < item_cooldownUntilMs it)).
Proof.
  intros now perModel result.
  assert (Hperm : result ≡ₚ candidates E perModel o 0 (accounts w)).
  { unfold result. rewrite items_sorted_candidates. apply merge_sort_Permutation. }
  assert (Hnd : NoDup (item_accountIndex <$> result)).
  { rewrite Hperm. apply candidates_NoDup. }
  assert (Hin : forall it,
             it ∈ result <->
             exists (i : nat) a,
               accounts w !! i = Some a
               /\ (Z.of_nat i ∉ excludeAccountIndices o)
               /\ (includeZero o = false ->
                   entry_of E perModel a ≫= remainingPercent <> Some 0)
               /\ it = annotate E perModel now (Z.of_nat i) a).
  { intros it. rewrite Hperm, elem_of_candidates. unfold listed.
    split.
    - intros [j [a [Hj [[Hex Hz] ->]]]]. rewrite Z.add_0_l in *.
      exists j, a. repeat split; auto.
      intros Hoff. destruct Hz as [Hon|Hz]; [congruence|exact Hz].
    - intros [i [a [Hi [Hex [Hz ->]]]]]. exists i, a. rewrite Z.add_0_l.
      repeat split; auto.
      destruct (includeZero o); [now left|right; now apply Hz]. }
  split; [|split; [exact Hnd|split; [exact Hin|]]].
  - apply StronglySorted_spec_before; [|exact Hnd].
    unfold result. rewrite items_sorted_candidates.
    apply StronglySorted_merge_sort; apply _.
  - intros it Hit. apply Hin in Hit as [i [a [_ [_ [_ ->]]]]]. cbn.
    apply Z.ltb_lt.
Qed.

(** An example with three accounts: B is at 40%, C at 90% but in cooldown,
    A is unknown. *)
Example priorities_example :
  let entry p c := {| remainingPercent := p; resetTimeMs := None;
                      cooldownUntilMs := c; updatedAtMs := None |} in
  let quota : gmap string (gmap string QuotaEntry) :=
    {[ "m" := <[ "b.json" := entry (Some 40) None ]>
                {[ "c.json" := entry (Some 90) (Some 5000) ]} ]} in
  item_accountKey <$>
    items (getAccountPrioritiesForModel Example.offline "m"
             {| opt_now := 1000; includeZero := false; excludeAccountIndices := ∅ |}
             (Example.world [Example.A; Example.B; Example.C] 0 0 quota ∅ 1000))
  = ["b.json"; "a.json"; "c.json"].
Proof. vm_compute. reflexivity. Qed.

(** ** The dispatcher *)

Definition head_nonspace (s : string) : bool :=
  match s with EmptyString => true | String c _ => negb (is_space c) end.

Lemma trimStart_head s : head_nonspace (trimStart s) = true.
Proof.
  induction s as [|c r IH]; [reflexivity|].
  simpl. destruct (is_space c) eqn:Hc; [exact IH|]. simpl. now rewrite Hc.
Qed.

Lemma trimEnd_head s : head_nonspace s = true -> head_nonspace (trimEnd s) = true.
Proof.
  destruct s as [|c r]; [reflexivity|].
  simpl. intros H. apply negb_true_iff in H. rewrite H. simpl. now rewrite H.
Qed.

Lemma trimEnd_last s : last_nonspace (trimEnd s) = true.
Proof.
  induction s as [|c r IH]; [reflexivity|].
  simpl. destruct (is_space c && is_empty (trimEnd r)) eqn:Hc; [reflexivity|].
  simpl. destruct (trimEnd r) as [|d r'] eqn:Hr; [|exact IH].
  simpl in Hc. rewrite andb_true_r in Hc. now rewrite Hc.
Qed.

Lemma trim_idempotent s : trim (trim s) = trim s.
Proof.
  unfold trim at 1.
  assert (Hh : head_nonspace (trim s) = true)
    by (apply trimEnd_head, trimStart_head).
  assert (Hs : trimStart (trim s) = trim s).
  { destruct (trim s) as [|c r]; [reflexivity|].
    apply trimStart_id. simpl in Hh. now apply negb_true_iff. }
  rewrite Hs. apply trimEnd_id. apply trimEnd_last.
Qed.

Section Dispatcher.
Variable E : Env.

(** The state a call sees after its wait for the initial quota refresh. *)
Definition after_pre_wait (modelId : string) (w : World) : World :=
  snd (pre_wait E modelId w).

Lemma pre_wait_run modelId w : pre_wait E modelId w = (Ok tt, after_pre_wait modelId w).
Proof.
  unfold after_pre_wait, pre_wait, bind, get.
  now destruct (negb (is_empty modelId) && negb (initialQuotaRefreshDone w)).
Qed.

Lemma scan_accounts_all_zero pm o accs :
  excludeAccountIndices o = ∅ ->
  (forall a, a ∈ accs -> entry_of E pm a ≫= remainingPercent = Some 0) ->
  forall k acc,
    knownCount (scan_accounts E pm o k accs acc) = knownCount acc + Z.of_nat (length accs)
    /\ nonZeroKnownCount (scan_accounts E pm o k accs acc) = nonZeroKnownCount acc.
Proof.
  intros Hex. induction accs as [|a rest IH]; intros Hz k acc.
  - simpl. lia.
  - cbn [scan_accounts]. fold (entry_of E pm a).
    rewrite Hex, bool_decide_eq_false_2 by set_solver.
    rewrite (Hz a) by apply list_elem_of_here.
    assert (Hrest : forall b, b ∈ rest -> entry_of E pm b ≫= remainingPercent = Some 0)
      by (intros b Hb; apply Hz; now apply list_elem_of_further).
    destruct (negb (includeZero o) && bool_decide (Some 0 = Some 0));
      match goal with
      | |- context [scan_accounts E pm o ?k' rest ?acc'] =>
          destruct (IH Hrest k' acc') as [-> ->]
      end; cbn; split; lia.
Qed.

Lemma allZeroKnown_true modelId o w :
  excludeAccountIndices o = ∅ ->
  accounts w <> [] ->
  (forall a, a ∈ accounts w ->
             entry_of E (modelQuotaByAccount w !! trim modelId) a ≫= remainingPercent
             = Some 0) ->
  allZeroKnown (getAccountPrioritiesForModel E modelId o w) = true.
Proof.
  intros Hex Hne Hz. unfold getAccountPrioritiesForModel. cbn [allZeroKnown].
  match goal with
  | |- context [scan_accounts E ?pm o ?k (accounts w) ?acc] =>
      destruct (scan_accounts_all_zero pm o (accounts w) Hex Hz k acc) as [-> ->]
  end.
  cbn. unfold getAccountCount.
  destruct (accounts w); [congruence|].
  rewrite Z.eqb_refl. cbn [length]. 
  replace (0 <? Z.of_nat (S (length l))) with true by (symmetry; apply Z.ltb_lt; lia).
  reflexivity.
Qed.

Lemma priorities_empty_pool modelId o w :
  accounts w = [] ->
  allZeroKnown (getAccountPrioritiesForModel E modelId o w) = false
  /\ items (getAccountPrioritiesForModel E modelId o w) = [].
Proof.
  intros Hacc. unfold getAccountPrioritiesForModel, getAccountCount.
  rewrite Hacc. split; reflexivity.
Qed.

Lemma attempt_empty_pool method options modelId g maxAttempts ls w :
  is_empty modelId = false -> accounts w = [] ->
  attempt E method options modelId g maxAttempts ls w = (Ok (Break ls), w).
Proof.
  intros Hempty Hacc. unfold attempt.
  erewrite bind_ok by reflexivity.
  erewrite bind_ok.
  2:{ unfold select. erewrite bind_ok by reflexivity. rewrite Hempty. cbn [negb].
      now rewrite (proj2 (priorities_empty_pool _ _ _ Hacc)). }
  reflexivity.
Qed.

(** C2.  Every loaded account is known to be at 0 for the model and an
    error is cached for it: [callV1Internal] returns the response made of
    the cached status, headers and body, and does nothing else (the state
    is the one in which the call found the caches, so no request is sent
    and no credential is touched). *)
Theorem callV1Internal_fast_fail (method : string) (options : Options) (w : World)
    (cached : CachedError) (response : Response) :
  let modelId := trim (options_model options) in
  let w1 := after_pre_wait modelId w in
  modelId <> EmptyString ->
  (forall a, a ∈ accounts w1 ->
             entry_of E (modelQuotaByAccount w1 !! modelId) a ≫= remainingPercent = Some 0) ->
  lastErrorByModel w1 !! modelId = Some cached ->
  new_Response E (cached_bodyText cached)
    (if cached_status cached =? 0 then 500 else cached_status cached)
    (cached_headers cached) = Some response ->
  callV1Internal E method options w = (Ok response, w1).
Proof.
  intros modelId w1 Hne Hzero Hcached Hnew.
  assert (Hempty : is_empty modelId = false) by (now destruct modelId).
  assert (Htrim : trim modelId = modelId) by apply trim_idempotent.
  assert (Hget : getCachedErrorResponse E modelId w1 = Some response).
  { unfold getCachedErrorResponse. now rewrite Htrim, Hempty, Hcached. }
  unfold callV1Internal. fold modelId.
  erewrite bind_ok by reflexivity.
  erewrite bind_ok by apply pre_wait_run. fold w1.
  destruct (accounts w1) as [|a0 rest] eqn:Hacc.
  - (* no account: the loop ends at once and falls back on the cache *)
    assert (Hgate : forall g, fast_fail E method options modelId g w1 = (Ok None, w1)).
    { intros g. unfold fast_fail. rewrite Hempty.
      erewrite bind_ok by reflexivity.
      now rewrite (proj1 (priorities_empty_pool _ _ _ Hacc)). }
    erewrite bind_ok by apply Hgate.
    unfold getMaxAttempts, getAccountCount.
    replace (Z.to_nat (Z.max 1 (Z.of_nat (length (accounts w))))) with
      (S (Z.to_nat (Z.max 1 (Z.of_nat (length (accounts w)))) - 1)) by lia.
    cbn [attempt_loop].
    erewrite bind_ok.
    2:{ erewrite bind_ok by (apply attempt_empty_pool; assumption). reflexivity. }
    unfold exhausted. cbn [lastResponse lastNetworkError initial_loop_state].
    erewrite bind_ok by reflexivity.
    now rewrite Hempty, Hget.
  - erewrite bind_ok.
    2:{ unfold fast_fail. rewrite Hempty.
        erewrite bind_ok by reflexivity.
        rewrite allZeroKnown_true; [|reflexivity|congruence|].
        - rewrite Hget. reflexivity.
        - rewrite Htrim. rewrite Hacc. exact Hzero. }
    reflexivity.
Qed.


(** ** What a 429 does *)

(** The cooldown recorded for an account and a model. *)
Definition cooldown_at (w : World) (modelId accountKey : string) : option Z :=
  match modelQuotaByAccount w !! modelId with
  | Some perModel =>
      match perModel !! accountKey with
      | Some q => cooldownUntilMs q
      | None => None
      end
  | None => None
  end.

Definition keeps {X A} (f : World -> X) (m : M A) : Prop :=
  forall w, f (snd (m w)) = f w.

Lemma keeps_bind' {X A B} (f : World -> X) (m : M A) (k : A -> M B) :
  keeps f m -> (forall a, keeps f (k a)) -> keeps f (bind m k).
Proof.
  intros Hm Hk w. unfold bind. specialize (Hm w).
  destruct (m w) as [[a|e] w1]; simpl in *; [|exact Hm].
  now rewrite Hk.
Qed.

Ltac keeps_tac :=
  repeat first
    [ apply keeps_bind'; [|intros ?]
    | match goal with
      | |- keeps _ (if ?b then _ else _) => destruct b
      | |- keeps _ (match ?x with _ => _ end) => destruct x
      end
    | (intros ?; reflexivity) ].

Lemma keeps_quota_cache modelId r :
  keeps modelQuotaByAccount (cache_for_model modelId r).
Proof. unfold cache_for_model, cacheLastErrorResponse. keeps_tac. Qed.

Lemma keeps_trace_cache modelId r : keeps trace (cache_for_model modelId r).
Proof. unfold cache_for_model, cacheLastErrorResponse. keeps_tac. Qed.

Lemma keeps_quota_http req : keeps modelQuotaByAccount (http_call E req).
Proof. unfold http_call. keeps_tac. Qed.

Lemma keeps_trace_cooldown modelId key c : keeps trace (setCooldownUntil modelId key c).
Proof. unfold setCooldownUntil. keeps_tac. Qed.

Lemma run_total {A} (m : M A) (w : World) : m w = (fst (m w), snd (m w)).
Proof. apply surjective_pairing. Qed.

Lemma cache_for_model_run modelId r w :
  cache_for_model modelId r w = (Ok tt, snd (cache_for_model modelId r w)).
Proof.
  unfold cache_for_model, cacheLastErrorResponse.
  destruct (is_empty modelId); [reflexivity|].
  destruct (is_empty (trim modelId)); reflexivity.
Qed.

Lemma setCooldownUntil_run modelId key c w :
  is_empty modelId = false -> trim modelId = modelId ->
  exists w', setCooldownUntil modelId key c w = (Ok tt, w')
             /\ cooldown_at w' modelId key = finite_or_null c
             /\ trace w' = trace w.
Proof.
  intros Hempty Htrim. unfold setCooldownUntil. rewrite Htrim, Hempty.
  eexists. split; [reflexivity|]. split; [|reflexivity].
  unfold cooldown_at. cbn. now rewrite !lookup_insert_eq.
Qed.

Lemma response_429_not_ok r : status r = 429 -> response_ok r = false.
Proof. unfold response_ok. now intros ->. Qed.

(** The rest of the 429 branch of [on_response], after the cooldown is
    set: it does not write to the quota map. *)
Lemma on_response_sets_cooldown modelId maxAttempts now accountName req ls r w :
  status r = 429 -> is_empty modelId = false -> trim modelId = modelId ->
  cooldown_at (snd (on_response E modelId maxAttempts now accountName req ls r w))
    modelId accountName
  = finite_or_null (cooldown_after E now (parseRetryDelayMs E (bodyText r))).
Proof.
  intros H429 Hempty Htrim. unfold on_response.
  rewrite (response_429_not_ok _ H429), H429. cbn [Z.eqb Pos.eqb negb].
  erewrite bind_ok by apply cache_for_model_run.
  rewrite Hempty.
  set (w1 := snd (cache_for_model modelId r w)).
  destruct (setCooldownUntil_run modelId accountName
              (cooldown_after E now (parseRetryDelayMs E (bodyText r))) w1 Hempty Htrim)
    as [w2 [Hrun [Hcd _]]].
  erewrite bind_ok by exact Hrun.
  assert (Hkeep : forall (m : M Control),
             keeps modelQuotaByAccount m ->
             cooldown_at (snd (m w2)) modelId accountName
             = finite_or_null (cooldown_after E now (parseRetryDelayMs E (bodyText r)))).
  { intros m Hm. unfold cooldown_at. rewrite Hm. exact Hcd. }
  apply Hkeep.
  repeat first [ apply keeps_quota_http | apply keeps_quota_cache
               | apply keeps_bind'; [|intros ?]
               | match goal with
                 | |- keeps _ (if ?b then _ else _) => destruct b
                 | |- keeps _ (match ?x with _ => _ end) => destruct x
                 end
               | (intros ?; reflexivity) ].
Qed.

Lemma cooldown_step_run modelId key c w :
  let step := if is_empty modelId then ret tt else setCooldownUntil modelId key c in
  step w = (Ok tt, snd (step w)) /\ trace (snd (step w)) = trace w.
Proof.
  cbn zeta. unfold setCooldownUntil.
  destruct (is_empty modelId); [split; reflexivity|].
  destruct (is_empty (trim modelId)); split; reflexivity.
Qed.

Lemma http_call_run req w :
  let n := length (trace w) in
  let w' := set_clock (clock w + elapsed E n) (set_trace (trace w ++ [EvCallV1Internal req]) w) in
  http_call E req w = (httpClient_callV1Internal E n req, w').
Proof. reflexivity. Qed.

(** An iteration of the attempt loop whose request is answered: the
    response is handled by [on_response], with the instant at which the
    iteration started and the account marked as tried. *)
Lemma attempt_response method options modelId g maxAttempts ls w w1 picked creds r :
  select E modelId g (clock w) ls w = (Ok (inr picked), w) ->
  getCredentialsByIndex E (item_accountIndex picked) (group_name g) w = (Ok creds, w1) ->
  httpClient_callV1Internal E (length (trace w1)) (make_request method options creds)
  = Ok r ->
  attempt E method options modelId g maxAttempts ls w
  = on_response E modelId maxAttempts (clock w)
      (getAccountKeyFromAccount E (account creds)) (make_request method options creds)
      (add_tried (item_accountIndex picked) ls) r
      (snd (http_call E (make_request method options creds) w1)).
Proof.
  intros Hsel Hcreds Hanswer. unfold attempt.
  erewrite bind_ok by reflexivity.
  erewrite bind_ok by exact Hsel. cbv beta iota.
  erewrite bind_ok by exact Hcreds. cbv beta zeta.
  erewrite bind_ok.
  2:{ unfold try_catch. erewrite bind_ok.
      2:{ rewrite http_call_run. rewrite Hanswer. reflexivity. }
      reflexivity. }
  cbv beta iota. rewrite http_call_run. reflexivity.
Qed.

(** C4, as the code has it.  With [maxAttempts = 1], the response of an
    attempt of the attempt loop being a 429 with retry hint [retryMs]:
    when the hint is more than 5000 (an infinite hint is) the 429 is
    returned and nothing is done to the outside (no sleep, no request);
    otherwise the dispatcher sleeps [max(0, retryMs + 200)]
    ([FIXED_RETRY_DELAY_MS] without a hint), sends the same request once
    more, and the call ends with what that request produces, a response
    or a network error.  This is what an iteration of the loop does when
    its request is answered with that response. *)
Theorem on_response_429_single_account (modelId : string) (now : Z)
    (accountName : string) (req : Request) (ls : LoopState) (r : Response) (w : World) :
  status r = 429 ->
  let retryMs := parseRetryDelayMs E (bodyText r) in
  let run := on_response E modelId 1 now accountName req ls r w in
  (retryMs = Some Infinity \/ (exists ms, retryMs = Some (Finite ms) /\ 5000 < ms) ->
   fst run = Ok (Return r) /\ trace (snd run) = trace w)
  /\ (forall delay,
        (retryMs = None /\ delay = FIXED_RETRY_DELAY_MS E)
        \/ (exists ms, retryMs = Some (Finite ms) /\ ms <= 5000
                       /\ delay = Z.max 0 (ms + 200)) ->
        trace (snd run) = trace w ++ [EvSleep delay; EvCallV1Internal req]
        /\ fst run = match httpClient_callV1Internal E (S (length (trace w))) req with
                     | Ok retryResp => Ok (Return retryResp)
                     | Throw netErr2 => Throw netErr2
                     end)
  /\ (forall method options g ls0 w0 w1 picked creds,
        select E modelId g (clock w0) ls0 w0 = (Ok (inr picked), w0) ->
        getCredentialsByIndex E (item_accountIndex picked) (group_name g) w0
        = (Ok creds, w1) ->
        httpClient_callV1Internal E (length (trace w1)) (make_request method options creds)
        = Ok r ->
        attempt E method options modelId g 1 ls0 w0
        = on_response E modelId 1 (clock w0)
            (getAccountKeyFromAccount E (account creds))
            (make_request method options creds)
            (add_tried (item_accountIndex picked) ls0) r
            (snd (http_call E (make_request method options creds) w1))).
Proof.
  intros H429 retryMs run.
  set (w1 := snd (cache_for_model modelId r w)).
  assert (Htr2 : forall c,
             trace (snd ((if is_empty modelId then ret tt
                          else setCooldownUntil modelId accountName c) w1)) = trace w).
  { intros c. rewrite (proj2 (cooldown_step_run modelId accountName c w1)).
    apply keeps_trace_cache. }
  assert (Hrun : forall out wf,
             run = (out, wf) ->
             (retry_delay E retryMs = None ->
              out = Ok (Return r) /\ trace wf = trace w)
             /\ (forall delay,
                   retry_delay E retryMs = Some delay ->
                   trace wf = trace w ++ [EvSleep delay; EvCallV1Internal req]
                   /\ out = match httpClient_callV1Internal E (S (length (trace w))) req with
                            | Ok retryResp => Ok (Return retryResp)
                            | Throw netErr2 => Throw netErr2
                            end)).
  { intros out wf. unfold run, on_response. fold retryMs.
    rewrite (response_429_not_ok _ H429), H429. cbn [Z.eqb Pos.eqb negb].
    erewrite bind_ok by apply cache_for_model_run. fold w1.
    erewrite bind_ok
      by apply (cooldown_step_run modelId accountName (cooldown_after E now retryMs) w1).
    intros H. split.
    - intros Hnone. rewrite Hnone in H.
      injection H as <- <-. split; [reflexivity|apply Htr2].
    - intros delay Hdelay. rewrite Hdelay in H.
      erewrite bind_ok in H by reflexivity.
      unfold bind at 1 in H. rewrite http_call_run in H.
      cbn [trace set_trace set_clock] in H.
      rewrite !Htr2 in H. rewrite !length_app in H. cbn [length] in H.
      replace (length (trace w) + 1)%nat with (S (length (trace w))) in H by lia.
      destruct (httpClient_callV1Internal E (S (length (trace w))) req) as [retryResp|e].
      + destruct (response_ok retryResp).
        * injection H as <- <-. cbn. split; [|reflexivity]. now rewrite <- app_assoc.
        * erewrite bind_ok in H by apply cache_for_model_run.
          injection H as <- <-. split; [|reflexivity].
          rewrite keeps_trace_cache. cbn. now rewrite <- app_assoc.
      + injection H as <- <-. cbn. split; [|reflexivity]. now rewrite <- app_assoc. }
  destruct (Hrun _ _ (surjective_pairing run)) as [Hlong Hshort].
  split; [|split].
  - intros Hhint. apply Hlong.
    destruct Hhint as [Hinf|[ms [Hms Hgt]]].
    + now rewrite Hinf.
    + rewrite Hms. cbn.
      now replace (5000 <? ms) with true by (symmetry; apply Z.ltb_lt; lia).
  - intros delay Hdelay. apply Hshort.
    destruct Hdelay as [[Hnone ->]|[ms [Hms [Hle ->]]]].
    + now rewrite Hnone.
    + rewrite Hms. cbn.
      now replace (5000 <? ms) with false by (symmetry; apply Z.ltb_ge; lia).
  - intros method options g ls0 w0 w2 picked creds Hsel Hcreds Hanswer.
    now apply attempt_response.
Qed.

(** ** Accounts in cooldown are not picked *)

Lemma items_elem_of modelId o w it :
  it ∈ items (getAccountPrioritiesForModel E modelId o w) <->
  exists (j : nat) a,
    accounts w !! j = Some a
    /\ listed E (modelQuotaByAccount w !! trim modelId) o (Z.of_nat j) a
    /\ it = annotate E (modelQuotaByAccount w !! trim modelId) (opt_now o) (Z.of_nat j) a.
Proof.
  rewrite items_sorted_candidates, merge_sort_Permutation, elem_of_candidates.
  split; intros [j [a H]]; exists j, a; now rewrite ?Z.add_0_l in *.
Qed.

Lemma items_sorted modelId o w :
  StronglySorted item_le (items (getAccountPrioritiesForModel E modelId o w)).
Proof.
  rewrite items_sorted_candidates. apply StronglySorted_merge_sort; apply _.
Qed.

Lemma item_le_cooling a b :
  item_le a b -> cooldownActive a = true -> cooldownActive b = true.
Proof.
  unfold item_le, compareItems. intros H Ha. rewrite Ha in H.
  destruct (cooldownActive b); [reflexivity|]. cbn in H. lia.
Qed.

Lemma sorted_head_cooling x l :
  StronglySorted item_le (x :: l) -> cooldownActive x = true ->
  forallb cooldownActive (x :: l) = true.
Proof.
  intros Hs Hx. apply StronglySorted_inv in Hs as [_ Hall].
  cbn. rewrite Hx. cbn. apply forallb_forall. intros y Hy.
  rewrite Forall_forall in Hall.
  eapply item_le_cooling; [apply Hall|exact Hx].
  now apply list_elem_of_In.
Qed.

Lemma select_picks modelId g now ls w it w' :
  is_empty modelId = false ->
  select E modelId g now ls w = (Ok (inr it), w') ->
  cooldownActive it = false
  /\ it ∈ items (getAccountPrioritiesForModel E modelId
                   {| opt_now := now; includeZero := false;
                      excludeAccountIndices := triedAccountIndices ls |} w).
Proof.
  intros Hempty H. unfold select in H.
  erewrite bind_ok in H by reflexivity. rewrite Hempty in H. cbn [negb] in H.
  pose proof (items_sorted modelId
                {| opt_now := now; includeZero := false;
                   excludeAccountIndices := triedAccountIndices ls |} w) as Hs.
  destruct (items _) as [|first rest] eqn:Hitems; [discriminate|].
  destruct (forallb cooldownActive (first :: rest)) eqn:Hall.
  - destruct (getCachedErrorResponse E modelId w); [discriminate|].
    destruct (lastResponse ls); [discriminate|].
    destruct (lastNetworkError ls); discriminate.
  - injection H as <- _. split; [|apply list_elem_of_here].
    destruct (cooldownActive first) eqn:Hf; [|reflexivity].
    rewrite (sorted_head_cooling _ _ Hs Hf) in Hall. discriminate.
Qed.

Lemma cooldown_at_entry modelId w a :
  cooldown_at w modelId (getAccountKeyFromAccount E a)
  = entry_of E (modelQuotaByAccount w !! modelId) a ≫= cooldownUntilMs.
Proof.
  unfold cooldown_at, entry_of.
  destruct (modelQuotaByAccount w !! modelId) as [pm|]; [|reflexivity].
  now destruct (pm !! getAccountKeyFromAccount E a).
Qed.

(** An account whose cooldown for the model lies after [now] is not the
    account that the attempt loop picks at [now]. *)
Lemma select_skips_cooling modelId g now ls w it w' (i : nat) a c :
  is_empty modelId = false -> trim modelId = modelId ->
  accounts w !! i = Some a ->
  cooldown_at w modelId (getAccountKeyFromAccount E a) = Some c ->
  now < c ->
  select E modelId g now ls w = (Ok (inr it), w') ->
  item_accountIndex it <> Z.of_nat i.
Proof.
  intros Hempty Htrim Hi Hc Hlt Hsel Hidx.
  destruct (select_picks _ _ _ _ _ _ _ Hempty Hsel) as [Hcool Hin].
  apply items_elem_of in Hin as [j [b [Hj [_ ->]]]].
  cbn in Hidx. assert (j = i) as -> by lia.
  assert (b = a) as -> by congruence.
  cbn in Hcool. rewrite Htrim, <- cooldown_at_entry, Hc in Hcool.
  cbn in Hcool. apply Z.ltb_ge in Hcool. lia.
Qed.

End Dispatcher.

(** ** The theorems on concrete calls *)

Definition zero_entry : QuotaEntry :=
  {| remainingPercent := Some 0; resetTimeMs := None;
     cooldownUntilMs := None; updatedAtMs := Some 900 |}.

(** The fast-fail scenario of the specification: A, B and C are at 0 for
    the model and a 429 is cached. *)
Definition exhausted_world : World :=
  Example.world [Example.A; Example.B; Example.C] 0 0
    {[ "gemini-3-pro-high" :=
         <[ "a.json" := zero_entry ]>
           (<[ "b.json" := zero_entry ]> {[ "c.json" := zero_entry ]}) ]}
    {[ "gemini-3-pro-high" :=
         {| cached_status := 429; cached_headers := [];
            cached_bodyText := "quota exhausted"; cachedAtMs := 950 |} ]}
    1000.

Lemma callV1Internal_fast_fail_witness :
  callV1Internal Example.limited "generateContent"
    (Example.request_options "gemini-3-pro-high") exhausted_world
  = (Ok {| status := 429; headers := []; bodyText := "quota exhausted" |},
     exhausted_world).
Proof.
  apply (callV1Internal_fast_fail Example.limited "generateContent"
           (Example.request_options "gemini-3-pro-high") exhausted_world
           {| cached_status := 429; cached_headers := [];
              cached_bodyText := "quota exhausted"; cachedAtMs := 950 |}).
  - discriminate.
  - intros a Ha. change (a ∈ [Example.A; Example.B; Example.C]) in Ha.
    apply elem_of_cons in Ha as [->|Ha]; [reflexivity|].
    apply elem_of_cons in Ha as [->|Ha]; [reflexivity|].
    apply elem_of_cons in Ha as [->|Ha]; [reflexivity|].
    now apply elem_of_nil in Ha.
  - reflexivity.
  - reflexivity.
Defined.

(** The pool of the rotation scenario: A and B at instant 1000, nothing
    known of their quota. *)
Definition rotation_world : World :=
  Example.world [Example.A; Example.B] 0 0 ∅ ∅ 1000.

Definition request_a : Request :=
  {| req_method := "generateContent"; req_accessToken := "token-a";
     req_body := "projects/demo"; req_queryString := EmptyString;
     req_headers := [] |}.

(* ===================================================================== *)
(** * More properties of the account manager *)
(* ===================================================================== *)

(** ** File names *)

Lemma startsWith_char (c : ascii) (s : string) :
  startsWith (String c EmptyString) s = true -> exists r, s = String c r.
Proof.
  destruct s as [|d r]; [discriminate|]. simpl.
  rewrite andb_true_r. intros H. apply Ascii.eqb_eq in H as ->. eauto.
Qed.

Lemma includes_char_false (c : ascii) (s : string) :
  includes (String c EmptyString) s = false ->
  all (fun x => negb (Ascii.eqb x c)) s = true.
Proof.
  induction s as [|d r IH]; [reflexivity|].
  cbn [includes all]. intros H. apply orb_false_iff in H as [Hd Hr].
  simpl in Hd. rewrite andb_true_r in Hd.
  rewrite Ascii.eqb_sym, Hd. simpl. auto.
Qed.

(** X1.  A name that [sanitizeCredentialFileName] accepts is the trimmed
    argument; it has no slash and no backslash in it, no [".."], it ends in
    [".json"], and sanitizing it again gives it back. *)
Theorem sanitizeCredentialFileName_accepts (fileName name : string) :
  sanitizeCredentialFileName fileName = Ok name ->
  name = trim fileName
  /\ all (fun c => negb (Ascii.eqb c "/")) name = true
  /\ all (fun c => negb (Ascii.eqb c "\")) name = true
  /\ includes ".." name = false
  /\ endsWith ".json" name = true
  /\ sanitizeCredentialFileName name = Ok name.
Proof.
  unfold sanitizeCredentialFileName.
  destruct (is_empty (trim fileName)) eqn:He; [discriminate|].
  destruct (includes "/" (trim fileName) || includes "\" (trim fileName)
            || includes ".." (trim fileName)) eqn:Hi; [discriminate|].
  destruct (endsWith ".json" (trim fileName)) eqn:Hj; [|discriminate].
  cbn [negb]. intros [= <-].
  apply orb_false_iff in Hi as [Hi Hdots]. apply orb_false_iff in Hi as [Hs Hb].
  repeat split; auto using includes_char_false.
  rewrite trim_idempotent, He, Hs, Hb, Hdots, Hj. reflexivity.
Qed.

Lemma sanitizeCredentialFileName_accepts_witness :
  sanitizeCredentialFileName "  user@example.com.json " = Ok "user@example.com.json"
  /\ sanitizeCredentialFileName "user@example.com.json" = Ok "user@example.com.json".
Proof.
  split; [reflexivity|].
  exact (proj2 (proj2 (proj2 (proj2 (proj2
           (sanitizeCredentialFileName_accepts "  user@example.com.json "
              "user@example.com.json" eq_refl)))))).
Defined.

(** ** Deleting an account, continued *)

Lemma findIndex_from_found {A} (p : A -> bool) (l : list A) (k idx : Z) :
  findIndex_from p l k = idx -> idx <> -1 -> 0 <= k ->
  exists (i : nat) a,
    idx = k + Z.of_nat i /\ l !! i = Some a /\ p a = true
    /\ forall j b, (j < i)%nat -> l !! j = Some b -> p b = false.
Proof.
  revert k. induction l as [|x l IH]; intros k Hf Hne Hk; simpl in Hf; [congruence|].
  destruct (p x) eqn:Hx.
  - exists 0%nat, x. repeat split; auto; [lia|]. intros j b Hj. lia.
  - destruct (IH (k + 1) Hf Hne ltac:(lia)) as [i [a [Hi [Hl [Ha Hfirst]]]]].
    exists (S i), a. repeat split; auto; [lia|].
    intros [|j] b Hj Hb; [now injection Hb as <-|].
    apply (Hfirst j); [lia|exact Hb].
Qed.

Lemma findIndex_from_absent {A} (p : A -> bool) (l : list A) (k : Z) :
  0 <= k -> findIndex_from p l k = -1 -> forall a, a ∈ l -> p a = false.
Proof.
  revert k. induction l as [|x l IH]; intros k Hk Hf a Ha.
  - now apply elem_of_nil in Ha.
  - simpl in Hf. destruct (p x) eqn:Hx; [lia|].
    apply elem_of_cons in Ha as [->|Ha]; [exact Hx|].
    apply (IH (k + 1)); auto; lia.
Qed.

(** How a call of [deleteAccountByFile] can end. *)
Lemma deleteAccountByFile_cases (E : Env) (fileName : string) (w : World) :
  (exists e, sanitizeCredentialFileName fileName = Throw e
             /\ deleteAccountByFile E fileName w = (Throw e, w))
  \/ (exists name, sanitizeCredentialFileName fileName = Ok name
                   /\ (forall a, a ∈ accounts w -> path_basename E (filePath a) <> name)
                   /\ deleteAccountByFile E fileName w = (Ok false, w))
  \/ (exists name (i : nat) a w',
         sanitizeCredentialFileName fileName = Ok name
         /\ accounts w !! i = Some a
         /\ path_basename E (filePath a) = name
         /\ deleteAccountByFile E fileName w = (Ok true, w')
         /\ accounts w' = delete i (accounts w)
         /\ trace w' = trace w ++ [EvCancelRefresh (filePath a); EvUnlink (filePath a)]
         /\ (forall g, getCurrentAccountIndex g w'
                       = adjusted (Z.of_nat i) (getCurrentAccountIndex g w)
                           (Z.of_nat (length (accounts w)) - 1))).
Proof.
  destruct (sanitizeCredentialFileName fileName) as [name|e] eqn:Hsan.
  2:{ left. exists e. split; [reflexivity|].
      unfold deleteAccountByFile. erewrite bind_throw; [reflexivity|].
      unfold of_outcome. now rewrite Hsan. }
  right.
  set (p := fun a => String.eqb (path_basename E (filePath a)) name).
  destruct (Z.eq_dec (findIndex p (accounts w)) (-1)) as [Hidx|Hidx].
  - left. exists name. split; [reflexivity|].
    assert (Hnone : forall a, a ∈ accounts w -> path_basename E (filePath a) <> name).
    { intros a Ha. apply String.eqb_neq.
      apply (findIndex_from_absent p (accounts w) 0 ltac:(lia) Hidx a Ha). }
    split; [exact Hnone|].
    unfold deleteAccountByFile.
    erewrite bind_ok by (unfold of_outcome; rewrite Hsan; reflexivity).
    erewrite bind_ok by reflexivity.
    fold p. now rewrite Hidx.
  - right.
    destruct (findIndex_from_found p (accounts w) 0 _ eq_refl Hidx ltac:(lia))
      as [i [a [_ [Hl [Ha Hfirst]]]]].
    apply String.eqb_eq in Ha.
    destruct (deleteAccountByFile_found E fileName name w i a Hsan Hl Ha)
      as [w' [Hrun [Hacc [Htr Hcur]]]].
    { intros j b Hj Hb. apply String.eqb_neq. exact (Hfirst j b Hj Hb). }
    exists name, i, a, w'. auto 10.
Qed.

(** X2.  [deleteAccountByFile] either deletes one account and returns
    [true], or changes nothing at all: a rejected name throws and a name
    that matches no account returns [false], both with the manager, the
    files and the timers as they were. *)
Theorem deleteAccountByFile_all_or_nothing (E : Env) (fileName : string) (w : World) :
  let r := deleteAccountByFile E fileName w in
  (fst r = Ok true
   /\ S (length (accounts (snd r))) = length (accounts w)
   /\ length (trace (snd r)) = (length (trace w) + 2)%nat)
  \/ (fst r <> Ok true /\ snd r = w).
Proof.
  destruct (deleteAccountByFile_cases E fileName w)
    as [[e [_ Hrun]]|[[name [_ [_ Hrun]]]|[name [i [a [w' [_ [Hl [_ [Hrun [Hacc [Htr _]]]]]]]]]]]];
    cbn zeta; rewrite Hrun; cbn [fst snd].
  - right. split; [discriminate|reflexivity].
  - right. split; [discriminate|reflexivity].
  - left. split; [reflexivity|]. split.
    + rewrite Hacc, length_delete by (rewrite Hl; eauto).
      apply lookup_lt_Some in Hl. lia.
    + rewrite Htr, length_app. reflexivity.
Qed.

(** X3.  A current index that points into the pool still does after a
    deletion; when the pool becomes empty it is 0. *)
Theorem deleteAccountByFile_index_in_range (E : Env) (fileName : string)
    (w w' : World) (g : QuotaGroup) :
  deleteAccountByFile E fileName w = (Ok true, w') ->
  0 <= getCurrentAccountIndex g w < Z.of_nat (length (accounts w)) ->
  (accounts w' = [] /\ getCurrentAccountIndex g w' = 0)
  \/ (0 <= getCurrentAccountIndex g w' < Z.of_nat (length (accounts w'))).
Proof.
  intros Hrun Hrange.
  destruct (deleteAccountByFile_cases E fileName w)
    as [[e [_ Hr]]|[[name [_ [_ Hr]]]|[name [i [a [w2 [_ [Hl [_ [Hr [Hacc [_ Hcur]]]]]]]]]]]];
    rewrite Hr in Hrun; try discriminate.
  injection Hrun as <-.
  assert (Hlen : Z.of_nat (length (accounts w2)) = Z.of_nat (length (accounts w)) - 1).
  { rewrite Hacc, length_delete by (rewrite Hl; eauto).
    apply lookup_lt_Some in Hl. lia. }
  apply lookup_lt_Some in Hl.
  rewrite Hcur, Hlen. unfold adjusted.
  destruct (Z.eqb_spec (Z.of_nat (length (accounts w)) - 1) 0) as [H0|H0].
  - left. split; [|reflexivity].
    destruct (accounts w2); [reflexivity|]. simpl in Hlen. lia.
  - right.
    destruct (Z.ltb_spec (Z.of_nat i) (getCurrentAccountIndex g w));
      [lia|destruct (Z.eqb_spec (Z.of_nat i) (getCurrentAccountIndex g w))]; lia.
Qed.

Lemma deleteAccountByFile_index_in_range_witness :
  let w := Example.world [Example.A; Example.B] 1 0 ∅ ∅ 1000 in
  let w' := snd (deleteAccountByFile Example.offline "b.json" w) in
  (accounts w' = [] /\ getCurrentAccountIndex claude w' = 0)
  \/ (0 <= getCurrentAccountIndex claude w' < Z.of_nat (length (accounts w'))).
Proof.
  intros w w'.
  apply (deleteAccountByFile_index_in_range Example.offline "b.json" w w' claude).
  - vm_compute. reflexivity.
  - vm_compute. split; [discriminate|reflexivity].
Defined.

(** ** Credential lookup, continued *)

Definition no_accounts : JsError :=
  Error "No accounts available. Please authenticate first.".

(** X4.  The lookups on an empty pool throw the "no accounts" error, and
    the lookups by index on a slot that does not exist throw the "invalid
    index" error; in both cases nothing is changed and nothing is sent. *)
Theorem lookup_errors (E : Env) (w : World) (index : Z) (group : string) :
  (accounts w = [] ->
   getCredentialsByIndex E index group w = (Throw no_accounts, w)
   /\ getAccessTokenByIndex E index group w = (Throw no_accounts, w)
   /\ getCredentials E group w = (Throw no_accounts, w))
  /\ (accounts w <> [] ->
      index < 0 \/ Z.of_nat (length (accounts w)) <= index ->
      getCredentialsByIndex E index group w
      = (Throw (Error ("Invalid account index: " +:+ string_of_Z index)), w)
      /\ getAccessTokenByIndex E index group w
         = (Throw (Error ("Invalid account index: " +:+ string_of_Z index)), w)).
Proof.
  split.
  - intros Hempty.
    assert (Hc : check_index index w = (Throw no_accounts, w)).
    { unfold check_index. erewrite bind_ok by reflexivity.
      unfold getAccountCount. now rewrite Hempty. }
    unfold getCredentialsByIndex, getAccessTokenByIndex, getCredentials.
    rewrite !(bind_throw _ _ _ _ _ Hc).
    erewrite bind_ok by reflexivity.
    unfold getAccountCount. now rewrite Hempty.
  - intros Hne Hout.
    assert (Hc : check_index index w
                 = (Throw (Error ("Invalid account index: " +:+ string_of_Z index)), w)).
    { unfold check_index. erewrite bind_ok by reflexivity.
      unfold getAccountCount.
      replace (Z.of_nat (length (accounts w)) =? 0) with false
        by (symmetry; apply Z.eqb_neq; destruct (accounts w); [congruence|simpl; lia]).
      replace ((index <? 0) || (Z.of_nat (length (accounts w)) <=? index)) with true;
        [reflexivity|].
      symmetry. apply orb_true_iff.
      destruct Hout; [left; apply Z.ltb_lt|right; apply Z.leb_le]; lia. }
    unfold getCredentialsByIndex, getAccessTokenByIndex.
    now rewrite !(bind_throw _ _ _ _ _ Hc).
Qed.

Lemma lookup_errors_witness :
  getCredentialsByIndex Example.offline 0 "gemini" (Example.world [] 0 0 ∅ ∅ 1000)
  = (Throw no_accounts, Example.world [] 0 0 ∅ ∅ 1000)
  /\ getAccessTokenByIndex Example.offline 2 "gemini"
       (Example.world [Example.A; Example.B] 0 0 ∅ ∅ 1000)
     = (Throw (Error "Invalid account index: 2"),
        Example.world [Example.A; Example.B] 0 0 ∅ ∅ 1000).
Proof.
  split.
  - exact (proj1 (proj1 (lookup_errors Example.offline (Example.world [] 0 0 ∅ ∅ 1000)
                           0 "gemini") eq_refl)).
  - refine (proj2 (proj2 (lookup_errors Example.offline
                            (Example.world [Example.A; Example.B] 0 0 ∅ ∅ 1000)
                            2 "gemini") _ _)).
    + discriminate.
    + right. simpl. lia.
Defined.

(** The credential of the account is verified: it has a project id and
    the marker that the id was resolved. *)
Definition verified (c : Credentials) : bool :=
  isValidProjectId (projectId c) && hasProjectIdRepairMarker c.




(** ** Token refresh, continued *)

Lemma alter_same {A} (h : A -> A) (l : list A) (i : nat) (a : A) :
  l !! i = Some a -> h a = a -> alter h i l = l.
Proof.
  intros Hl Ha. apply list_eq. intros j.
  destruct (decide (i = j)) as [<-|Hne].
  - now rewrite list_lookup_alter_eq, Hl; cbn; rewrite Ha.
  - now rewrite list_lookup_alter_ne.
Qed.

Section RefreshOutcome.
Variable E : Env.

Lemma refreshToken_endpoint_failure (i : nat) (w : World) (a : Account) (e : JsError) :
  accounts w !! i = Some a -> refreshPromise a = None ->
  httpClient_refreshToken E (length (trace w)) (refresh_token (creds a)) = Throw e ->
  refreshToken E i w
  = (Throw e,
     set_clock (clock w + elapsed E (length (trace w)))
       (set_trace (trace w ++ [EvRefreshToken (refresh_token (creds a))]) w)).
Proof.
  intros Hl Hnone Hfail. unfold refreshToken.
  erewrite bind_ok by (eapply refreshToken_start_fresh; eauto).
  unfold refreshToken_settle, try_finally, refreshToken_body.
  erewrite bind_ok
    by (apply get_account_run; cbn; rewrite list_lookup_alter_eq, Hl; reflexivity).
  erewrite bind_ok by reflexivity.
  erewrite bind_throw by (unfold of_outcome; cbn; rewrite Hfail; reflexivity).
  cbn. f_equal. unfold set_clock, set_trace, set_accounts. cbn. f_equal.
  rewrite list_alter_alter_eq. apply (alter_same _ _ _ a Hl).
  destruct a. cbn in *. now subst.
Qed.

(** X6.  The token has expired and the token endpoint fails: the three
    lookups throw the error of the endpoint.  Only the refresh request was
    sent; the accounts, their credentials and their slots are as before,
    and nothing was written. *)
Theorem lookup_refresh_failure (w : World) (index : Z) (a : Account) (e : JsError)
    (group : string) :
  0 <= index ->
  accounts w !! Z.to_nat index = Some a ->
  refreshPromise a = None ->
  expired a (clock w) = true ->
  httpClient_refreshToken E (length (trace w)) (refresh_token (creds a)) = Throw e ->
  let w' := set_clock (clock w + elapsed E (length (trace w)))
              (set_trace (trace w ++ [EvRefreshToken (refresh_token (creds a))]) w) in
  accounts w' = accounts w
  /\ getCredentialsByIndex E index group w = (Throw e, w')
  /\ getAccessTokenByIndex E index group w = (Throw e, w')
  /\ (getCurrentAccountIndex (normalizeQuotaGroup group) w = index ->
      getCredentials E group w = (Throw e, w')).
Proof.
  intros Hnn Hl Hnone Hexp Hfail w'.
  pose proof (check_index_run index w a Hnn Hl) as Hc.
  assert (Hf : fresh_token E (Z.to_nat index) w = (Throw e, w')).
  { unfold fresh_token.
    erewrite bind_ok by (apply get_account_run; eassumption).
    rewrite Hnone.
    erewrite bind_ok by reflexivity.
    erewrite bind_ok by (apply get_account_run; eassumption).
    erewrite bind_ok by reflexivity.
    rewrite Hexp.
    erewrite bind_throw; [reflexivity|].
    now apply refreshToken_endpoint_failure. }
  split; [reflexivity|]. split; [|split].
  - unfold getCredentialsByIndex.
    now rewrite (bind_ok _ _ _ _ _ Hc), (bind_throw _ _ _ _ _ Hf).
  - unfold getAccessTokenByIndex.
    now rewrite (bind_ok _ _ _ _ _ Hc), (bind_throw _ _ _ _ _ Hf).
  - intros Hcur. unfold getCredentials.
    erewrite bind_ok by reflexivity.
    apply lookup_lt_Some in Hl as Hlen. unfold getAccountCount.
    replace (Z.of_nat (length (accounts w)) =? 0) with false
      by (symmetry; apply Z.eqb_neq; lia).
    rewrite Hcur.
    replace (index <? 0) with false by (symmetry; apply Z.ltb_ge; lia).
    erewrite bind_ok by reflexivity.
    now rewrite (bind_throw _ _ _ _ _ Hf).
Qed.

End RefreshOutcome.

Lemma lookup_refresh_failure_witness :
  let stale := Example.account_of "a.json" "token-a" 0 in
  let w := Example.world [stale] 0 0 ∅ ∅ 1000 in
  getAccessTokenByIndex Example.offline 0 "gemini" w
  = (Throw (Error "fetch failed"),
     set_clock 1001 (set_trace [EvRefreshToken "refresh-token-a"] w)).
Proof.
  intros stale w.
  refine (proj1 (proj2 (proj2 (lookup_refresh_failure Example.offline w 0 stale
                                 (Error "fetch failed") "gemini" _ _ _ _ _))));
    [lia | reflexivity | reflexivity | reflexivity | reflexivity].
Defined.

Section RefreshSuccess.
Variable E : Env.

(** Every instant prints as a string that is not blank. *)
Definition iso_not_blank : Prop :=
  forall t, is_empty (trim (toISOString E t)) = false.

Lemma isValidProjectId_trim (p : option string) :
  isValidProjectId p = true -> isValidProjectId (option_map trim p) = true.
Proof.
  destruct p as [v|]; [|discriminate]. unfold isValidProjectId. cbn.
  now rewrite trim_idempotent.
Qed.

Lemma refresh_projectId_result a data w d w1 :
  iso_not_blank ->
  refresh_projectId E a data w = (Ok d, w1) ->
  exists pid m,
    d = set_projectId pid m data
    /\ verified (set_projectId pid m data) = true.
Proof.
  intros Hiso. unfold refresh_projectId.
  destruct (isValidProjectId (projectId (creds a)) && hasProjectIdRepairMarker (creds a))
    eqn:Hv.
  - intros [= <- _]. do 2 eexists. split; [reflexivity|].
    apply andb_true_iff in Hv as [Hp Hm].
    unfold verified. cbn. rewrite (isValidProjectId_trim _ Hp). exact Hm.
  - intros H. apply bind_inv_ok in H as [pid [w2 [_ H]]].
    destruct (isValidProjectId pid) eqn:Hp; [|discriminate]. cbn [negb] in H.
    apply bind_inv_ok in H as [now [w3 [_ H]]]. injection H as <- _.
    do 2 eexists. split; [reflexivity|].
    unfold verified. cbn. rewrite Hp. cbn. now rewrite Hiso.
Qed.

Lemma writeFile_ok_trace path c w w1 :
  writeFile E path c w = (Ok tt, w1) ->
  accounts w1 = accounts w /\ trace w1 = trace w ++ [EvWriteFile path c].
Proof.
  unfold writeFile. intros H.
  apply bind_inv_ok in H as [n [w2 [Hrec H]]]. prim Hrec.
  apply bind_inv_ok in H as [? [w3 [Haw H]]]. prim Haw.
  destruct (fs_writeFile E (length (trace w)) path); [discriminate|].
  prim H. split; reflexivity.
Qed.

Lemma refreshToken_body_effects i p w a t w1 :
  iso_not_blank ->
  accounts w !! i = Some a ->
  refreshToken_body E i p w = (Ok t, w1) ->
  exists data d timer rest,
    httpClient_refreshToken E p (refresh_token (creds a)) = Ok data
    /\ access_token d = access_token data
    /\ refresh_token d = refresh_token data
    /\ expiry_date d = expiry_date data
    /\ (forall e, email (creds a) = Some e -> is_empty e = false -> email d = Some e)
    /\ verified d = true
    /\ t = access_token d
    /\ accounts w1 = alter (set_refreshTimer (Some timer)) i
                       (alter (set_creds d) i (accounts w))
    /\ trace w1 = trace w ++ rest ++ [EvWriteFile (filePath a) d;
                                      EvScheduleRefresh (filePath a)].
Proof.
  intros Hiso Hl H. unfold refreshToken_body in H.
  apply bind_inv_ok in H as [a0 [w2 [Ha0 H]]].
  apply get_account_inv in Ha0 as [Ha0 ->].
  assert (a0 = a) as -> by congruence.
  apply bind_inv_ok in H as [? [w3 [Hw3 H]]]. prim Hw3.
  apply bind_inv_ok in H as [data [w4 [Hdata H]]].
  unfold of_outcome in Hdata. injection Hdata as Hdata <-.
  apply bind_inv_ok in H as [a1 [w5 [Ha1 H]]].
  apply get_account_inv in Ha1 as [Ha1 ->]. cbn in Ha1.
  assert (a1 = a) as -> by congruence.
  apply bind_inv_ok in H as [d [w6 [Hd H]]].
  pose proof (refresh_projectId_result _ _ _ _ _ Hiso Hd) as Hres.
  pose proof (run_keeps _ _ _ _ (keeps_refresh_projectId E _ _) Hd) as Hacc6.
  destruct (stable_refresh_projectId E a
              match email (creds a) with
              | Some e => if is_empty e then data else set_email (Some e) data
              | None => data
              end (set_clock (clock w + elapsed E p) w)) as [_ [rest Hrest]].
  rewrite Hd in Hrest. cbn in Hacc6, Hrest.
  apply bind_inv_ok in H as [? [w7 [Hw7 H]]]. prim Hw7.
  apply bind_inv_ok in H as [[] [w8 [Hw8 H]]].
  apply writeFile_ok_trace in Hw8 as [Hacc8 Htr8]. cbn in Hacc8, Htr8.
  apply bind_inv_ok in H as [? [w9 [Hw9 H]]].
  prim H.
  unfold scheduleRefresh in Hw9.
  apply bind_inv_ok in Hw9 as [a2 [w10 [Ha2 Hw9]]].
  apply get_account_inv in Ha2 as [Ha2 ->].
  assert (Hpath : filePath a2 = filePath a).
  { rewrite Hacc8, list_lookup_alter_eq, Hacc6, Hl in Ha2. now injection Ha2 as <-. }
  apply bind_inv_ok in Hw9 as [tm [w11 [Htm Hw9]]]. prim Htm.
  apply bind_inv_ok in Hw9 as [? [w12 [Hrec Hw9]]]. prim Hrec.
  prim Hw9.
  destruct Hres as [pid [m [Hdeq Hver]]].
  exists data, d, (next_id w8), rest.
  split; [exact Hdata|].
  assert (Hfields : access_token d = access_token data
                    /\ refresh_token d = refresh_token data
                    /\ expiry_date d = expiry_date data
                    /\ forall e, email (creds a) = Some e -> is_empty e = false ->
                                 email d = Some e).
  { rewrite Hdeq. cbn.
    destruct (email (creds a)) as [e0|]; [destruct (is_empty e0) eqn:He0|];
      cbn; repeat split; try reflexivity; intros e [= <-]; congruence. }
  destruct Hfields as [? [? [? ?]]].
  repeat split; auto.
  - now rewrite <- Hdeq in Hver.
  - cbn. now rewrite Hacc8, Hacc6.
  - cbn. rewrite Htr8, Hrest, Hpath. now rewrite <- !app_assoc.
Qed.

(** X7.  A refresh that succeeds, started with the slot empty: the token
    returned is the new one, and the account then holds the new access
    token, refresh token and expiry with its e-mail address kept and a
    verified project id; the slot is empty again, a new timer is set, and
    the new credential was written to the account's file before the timer
    was scheduled. *)
Theorem refreshToken_success (i : nat) (w w' : World) (a : Account) (t : string) :
  iso_not_blank ->
  accounts w !! i = Some a ->
  refreshPromise a = None ->
  refreshToken E i w = (Ok t, w') ->
  exists data a' rest,
    httpClient_refreshToken E (length (trace w)) (refresh_token (creds a)) = Ok data
    /\ accounts w' !! i = Some a'
    /\ t = access_token data
    /\ access_token (creds a') = access_token data
    /\ refresh_token (creds a') = refresh_token data
    /\ expiry_date (creds a') = expiry_date data
    /\ (forall e, email (creds a) = Some e -> is_empty e = false ->
                  email (creds a') = Some e)
    /\ verified (creds a') = true
    /\ filePath a' = filePath a
    /\ refreshPromise a' = None
    /\ is_Some (refreshTimer a')
    /\ trace w' = trace w ++ EvRefreshToken (refresh_token (creds a)) :: rest
                    ++ [EvWriteFile (filePath a) (creds a');
                        EvScheduleRefresh (filePath a)].
Proof.
  intros Hiso Hl Hnone H. unfold refreshToken in H.
  erewrite bind_ok in H by (eapply refreshToken_start_fresh; eauto).
  set (n := length (trace w)) in *.
  set (w1 := set_accounts _ _) in H.
  assert (Hl1 : accounts w1 !! i = Some (set_refreshPromise (Some n) a)).
  { unfold w1. cbn. now rewrite list_lookup_alter_eq, Hl. }
  unfold refreshToken_settle, try_finally in H.
  destruct (refreshToken_body E i n w1) as [o w2] eqn:Hb.
  cbn in H. injection H as -> <-.
  destruct (refreshToken_body_effects _ _ _ _ _ _ Hiso Hl1 Hb)
    as [data [d [tm [rest [Hd [H1 [H2 [H3 [H4 [H5 [-> [Hacc Htr]]]]]]]]]]]].
  exists data. eexists. exists rest.
  split; [exact Hd|]. split.
  { cbn. rewrite Hacc, !list_lookup_alter_eq, Hl1. reflexivity. }
  cbn. repeat split; eauto.
  rewrite Htr. unfold w1. cbn. now rewrite <- app_assoc.
Qed.

End RefreshSuccess.

Lemma refreshToken_success_witness :
  let stale := Example.account_of "a.json" "token-a" 0 in
  let w := Example.world [stale] 0 0 ∅ ∅ 1000 in
  let r := refreshToken Example.renewing 0 w in
  exists data a' rest,
    httpClient_refreshToken Example.renewing 0 "refresh-token-a" = Ok data
    /\ accounts (snd r) !! 0%nat = Some a'
    /\ "token-new" = access_token data
    /\ access_token (creds a') = access_token data
    /\ refresh_token (creds a') = refresh_token data
    /\ expiry_date (creds a') = expiry_date data
    /\ (forall e, email (creds stale) = Some e -> is_empty e = false ->
                  email (creds a') = Some e)
    /\ verified (creds a') = true
    /\ filePath a' = filePath stale
    /\ refreshPromise a' = None
    /\ is_Some (refreshTimer a')
    /\ trace (snd r) = trace w ++ EvRefreshToken "refresh-token-a" :: rest
                         ++ [EvWriteFile (filePath stale) (creds a');
                             EvScheduleRefresh (filePath stale)].
Proof.
  intros stale w r.
  apply (refreshToken_success Example.renewing 0 w (snd r) stale "token-new").
  - intros t. reflexivity.
  - reflexivity.
  - reflexivity.
  - vm_compute. reflexivity.
Defined.

(** ** Project ids *)

Section ProjectId.
Variable E : Env.

Lemma projectId_body_ok i p w a pid w1 :
  iso_not_blank E ->
  accounts w !! i = Some a ->
  projectId_body E i p w = (Ok pid, w1) ->
  exists c,
    accounts w1 = alter (set_creds c) i (accounts w)
    /\ projectId c = Some pid
    /\ verified c = true
    /\ access_token c = access_token (creds a)
    /\ refresh_token c = refresh_token (creds a)
    /\ trace w1 = trace w ++ [EvWriteFile (filePath a) c].
Proof.
  intros Hiso Hl H. unfold projectId_body in H.
  apply bind_inv_ok in H as [a0 [w2 [Ha0 H]]].
  apply get_account_inv in Ha0 as [Ha0 ->].
  assert (a0 = a) as -> by congruence.
  apply bind_inv_ok in H as [? [w3 [Hw3 H]]]. prim Hw3.
  apply bind_inv_ok in H as [opid [w4 [Ho H]]].
  unfold of_outcome in Ho. injection Ho as Ho <-.
  destruct (isValidProjectId opid) eqn:Hvalid; [|discriminate]. cbn [negb] in H.
  apply bind_inv_ok in H as [now [w5 [Hnow H]]]. prim Hnow.
  apply bind_inv_ok in H as [a1 [w6 [Ha1 H]]].
  apply get_account_inv in Ha1 as [Ha1 ->]. cbn in Ha1.
  assert (a1 = a) as -> by congruence.
  apply bind_inv_ok in H as [? [w7 [Hw7 H]]]. prim Hw7.
  apply bind_inv_ok in H as [[] [w8 [Hw8 H]]].
  apply writeFile_ok_trace in Hw8 as [Hacc8 Htr8]. cbn in Hacc8, Htr8.
  prim H.
  eexists. split; [exact Hacc8|].
  destruct opid as [v|]; [|discriminate].
  cbn. repeat split; auto.
  unfold verified. cbn. unfold isValidProjectId in Hvalid. cbn in Hvalid.
  unfold isValidProjectId. cbn. rewrite Hvalid. cbn. now rewrite Hiso.
Qed.

(** X8.  When [ensureProjectId] returns, the account is verified and its
    tokens are the ones it had.  If it was verified already nothing
    happened; otherwise the project id returned is the one now stored, it
    was written to the account's file last, and the slot of the
    resolution is empty. *)
Theorem ensureProjectId_success (i : nat) (w w' : World) (a : Account) (pid : string) :
  iso_not_blank E ->
  accounts w !! i = Some a ->
  ensureProjectId E i w = (Ok pid, w') ->
  exists a',
    accounts w' !! i = Some a'
    /\ verified (creds a') = true
    /\ access_token (creds a') = access_token (creds a)
    /\ refresh_token (creds a') = refresh_token (creds a)
    /\ (verified (creds a) = true -> w' = w)
    /\ (verified (creds a) = false ->
        projectId (creds a') = Some pid
        /\ projectPromise a' = None
        /\ exists before, trace w' = before ++ [EvWriteFile (filePath a) (creds a')]).
Proof.
  intros Hiso Hl H. unfold ensureProjectId in H.
  erewrite bind_ok in H by (apply get_account_run; eassumption).
  fold (verified (creds a)) in H.
  destruct (verified (creds a)) eqn:Hv.
  - injection H as _ <-. exists a. repeat split; auto; discriminate.
  - assert (Hsettle : forall p w0 a0,
               accounts w0 !! i = Some a0 ->
               creds a0 = creds a -> filePath a0 = filePath a ->
               projectId_settle E i p w0 = (Ok pid, w') ->
               exists a',
                 accounts w' !! i = Some a'
                 /\ verified (creds a') = true
                 /\ access_token (creds a') = access_token (creds a)
                 /\ refresh_token (creds a') = refresh_token (creds a)
                 /\ projectId (creds a') = Some pid
                 /\ projectPromise a' = None
                 /\ trace w' = trace w0 ++ [EvWriteFile (filePath a) (creds a')]).
    { intros p w0 a0 Hl0 Hc Hp Hs. unfold projectId_settle, try_finally in Hs.
      destruct (projectId_body E i p w0) as [o w1] eqn:Hb.
      cbn in Hs. injection Hs as -> <-.
      destruct (projectId_body_ok _ _ _ _ _ _ Hiso Hl0 Hb)
        as [c [Hacc [Hpid [Hver [Hat [Hrt Htr]]]]]].
      eexists. split.
      { cbn. rewrite Hacc, !list_lookup_alter_eq, Hl0. reflexivity. }
      cbn. rewrite <- Hc, <- Hp. auto 10. }
    destruct (projectPromise a) as [p|].
    + destruct (Hsettle p w a Hl eq_refl eq_refl H)
        as [a' [? [? [? [? [? [? Htr]]]]]]].
      exists a'. repeat split; auto; try discriminate. eauto.
    + erewrite bind_ok in H by reflexivity.
      erewrite bind_ok in H by reflexivity.
      eapply Hsettle in H as [a' [? [? [? [? [? [? Htr]]]]]]];
        [| cbn; rewrite list_lookup_alter_eq, Hl; reflexivity | reflexivity | reflexivity].
      exists a'. repeat split; auto; try discriminate. eauto.
Qed.

End ProjectId.

(** An account that was loaded without the marker of a resolved id. *)
Definition unverified_account : Account :=
  set_creds (set_projectId (Some "projects/old") MarkerAbsent (creds Example.A)) Example.A.

Definition resolving : Env :=
  Example.env (fun _ _ => Throw (Error "fetch failed"))
    (fun _ _ => Ok (Some "projects/found"))
    (fun _ _ => Throw (Error "fetch failed"))
    (fun _ => None).

Lemma ensureProjectId_success_witness :
  let w := Example.world [unverified_account] 0 0 ∅ ∅ 1000 in
  let r := ensureProjectId resolving 0 w in
  exists a',
    accounts (snd r) !! 0%nat = Some a'
    /\ verified (creds a') = true
    /\ access_token (creds a') = "token-a"
    /\ refresh_token (creds a') = "refresh-token-a"
    /\ (verified (creds unverified_account) = true -> snd r = w)
    /\ (verified (creds unverified_account) = false ->
        projectId (creds a') = Some "projects/found"
        /\ projectPromise a' = None
        /\ exists before,
             trace (snd r) = before ++ [EvWriteFile (filePath unverified_account) (creds a')]).
Proof.
  intros w r.
  apply (ensureProjectId_success resolving 0 w (snd r) unverified_account "projects/found").
  - intros t. reflexivity.
  - reflexivity.
  - vm_compute. reflexivity.
Defined.

(* ===================================================================== *)
(** * More properties of the dispatcher *)
(* ===================================================================== *)

(** ** The counters of [getAccountPrioritiesForModel] *)

Section Counters.
Variable E : Env.

(** The percentage recorded for the account, if one is. *)
Definition percent_of (perModel : option (gmap string QuotaEntry)) (a : Account)
  : option Z :=
  entry_of E perModel a ≫= remainingPercent.

Lemma scan_accounts_counts pm o accs :
  forall k acc,
    let s := scan_accounts E pm o k accs acc in
    0 <= knownCount s - knownCount acc <= Z.of_nat (length accs)
    /\ 0 <= nonZeroKnownCount s - nonZeroKnownCount acc
    /\ (knownCount s - knownCount acc = Z.of_nat (length accs) <->
        forall (j : nat) a, accs !! j = Some a ->
          ((k + Z.of_nat j) ∉ excludeAccountIndices o) /\ is_Some (percent_of pm a))
    /\ (nonZeroKnownCount s = nonZeroKnownCount acc <->
        forall (j : nat) a p, accs !! j = Some a ->
          (k + Z.of_nat j) ∉ excludeAccountIndices o ->
          percent_of pm a = Some p -> p <= 0).
Proof.
  induction accs as [|a rest IH]; intros k acc.
  - cbn. split; [lia|]. split; [lia|]. split; split; auto; try lia.
    + intros _ j b Hj. discriminate.
    + intros _ j b p Hj. discriminate.
  - cbn zeta. cbn [scan_accounts]. fold (entry_of E pm a). fold (percent_of pm a).
    assert (Hshift : forall j : nat, k + 1 + Z.of_nat j = k + Z.of_nat (S j)) by (intros; lia).
    destruct (bool_decide_reflect (k ∈ excludeAccountIndices o)) as [Hex|Hex].
    + destruct (IH (k + 1) acc) as [Hk [Hn [Hall Hz]]]. cbn zeta in *.
      cbn [length]. split; [lia|]. split; [lia|]. split; split.
      * intros Heq. lia.
      * intros H. destruct (H 0%nat a eq_refl) as [Hne _].
        rewrite Z.add_0_r in Hne. contradiction.
      * intros Heq j b p Hj Hnex Hp. destruct j as [|j].
        -- rewrite Z.add_0_r in Hnex. contradiction.
        -- apply (proj1 Hz Heq j b p Hj); [now rewrite Hshift|exact Hp].
      * intros H. apply Hz. intros j b p Hj Hnex Hp.
        apply (H (S j) b p Hj); [now rewrite <- Hshift|exact Hp].
    + set (known := match percent_of pm a with Some _ => 1 | None => 0 end).
      set (nz := match percent_of pm a with
                 | Some p => if 0 <? p then 1 else 0
                 | None => 0
                 end).
      assert (Hgoal : forall acc',
                 knownCount acc' = knownCount acc + known ->
                 nonZeroKnownCount acc' = nonZeroKnownCount acc + nz ->
                 let s := scan_accounts E pm o (k + 1) rest acc' in
                 0 <= knownCount s - knownCount acc <= Z.of_nat (length (a :: rest))
                 /\ 0 <= nonZeroKnownCount s - nonZeroKnownCount acc
                 /\ (knownCount s - knownCount acc = Z.of_nat (length (a :: rest)) <->
                     forall (j : nat) b, (a :: rest) !! j = Some b ->
                       ((k + Z.of_nat j) ∉ excludeAccountIndices o)
                       /\ is_Some (percent_of pm b))
                 /\ (nonZeroKnownCount s = nonZeroKnownCount acc <->
                     forall (j : nat) b p, (a :: rest) !! j = Some b ->
                       (k + Z.of_nat j) ∉ excludeAccountIndices o ->
                       percent_of pm b = Some p -> p <= 0)).
      { intros acc' Hk' Hn'. cbn zeta.
        destruct (IH (k + 1) acc') as [Hk [Hn [Hall Hz]]]. cbn zeta in *.
        assert (Hknown : 0 <= known <= 1)
          by (unfold known; destruct (percent_of pm a); lia).
        assert (Hnz : 0 <= nz <= 1)
          by (unfold nz; destruct (percent_of pm a) as [p|]; [destruct (0 <? p)|]; lia).
        cbn [length]. split; [lia|]. split; [lia|]. split; split.
        - intros Heq. assert (known = 1) by lia.
          assert (Hrest : knownCount (scan_accounts E pm o (k + 1) rest acc')
                          - knownCount acc' = Z.of_nat (length rest)) by lia.
          intros [|j] b Hj.
          + injection Hj as <-. rewrite Z.add_0_r. split; [exact Hex|].
            unfold known in *. destruct (percent_of pm a); [eauto|lia].
          + rewrite <- Hshift. apply (proj1 Hall Hrest j b Hj).
        - intros H.
          assert (known = 1).
          { destruct (H 0%nat a eq_refl) as [_ [p Hp]]. unfold known. now rewrite Hp. }
          assert (knownCount (scan_accounts E pm o (k + 1) rest acc')
                  - knownCount acc' = Z.of_nat (length rest)).
          { apply Hall. intros j b Hj. rewrite Hshift. apply (H (S j) b Hj). }
          lia.
        - intros Heq. assert (nz = 0) by lia.
          assert (Hrest : nonZeroKnownCount (scan_accounts E pm o (k + 1) rest acc')
                          = nonZeroKnownCount acc') by lia.
          intros [|j] b p Hj Hnex Hp.
          + injection Hj as <-. unfold nz in *. rewrite Hp in *.
            destruct (Z.ltb_spec 0 p); lia.
          + apply (proj1 Hz Hrest j b p Hj); [now rewrite Hshift|exact Hp].
        - intros H.
          assert (nz = 0).
          { unfold nz. destruct (percent_of pm a) as [p|] eqn:Hp; [|reflexivity].
            assert (p <= 0) by (apply (H 0%nat a p eq_refl);
                                [now rewrite Z.add_0_r|exact Hp]).
            destruct (Z.ltb_spec 0 p); lia. }
          assert (nonZeroKnownCount (scan_accounts E pm o (k + 1) rest acc')
                  = nonZeroKnownCount acc').
          { apply Hz. intros j b p Hj Hnex Hp.
            apply (H (S j) b p Hj); [now rewrite <- Hshift|exact Hp]. }
          lia. }
      destruct (negb (includeZero o) && bool_decide (percent_of pm a = Some 0));
        apply Hgoal; reflexivity.
Qed.

(** X9.  [allZeroKnown] says exactly this: the pool is not empty, no
    account is excluded, and every account has a recorded percentage that
    is not positive. *)
Theorem allZeroKnown_iff (modelId : string) (o : PriorityOptions) (w : World) :
  allZeroKnown (getAccountPrioritiesForModel E modelId o w) = true <->
  accounts w <> []
  /\ forall (i : nat) a, accounts w !! i = Some a ->
       (Z.of_nat i ∉ excludeAccountIndices o)
       /\ exists p, percent_of (modelQuotaByAccount w !! trim modelId) a = Some p /\ p <= 0.
Proof.
  unfold getAccountPrioritiesForModel. cbn [allZeroKnown].
  set (pm := modelQuotaByAccount w !! trim modelId).
  set (acc0 := {| knownCount := 0; nonZeroKnownCount := 0; scanned := [] |}).
  destruct (scan_accounts_counts pm o (accounts w) 0 acc0) as [Hk [Hn [Hall Hz]]].
  cbn zeta in *. cbn [knownCount nonZeroKnownCount acc0] in *.
  unfold getAccountCount.
  rewrite !andb_true_iff, Z.ltb_lt, !Z.eqb_eq.
  split.
  - intros [[Hpos Hknown] Hzero].
    split; [destruct (accounts w); [simpl in Hpos; lia|discriminate]|].
    intros i a Hi.
    destruct (proj1 Hall ltac:(lia) i a Hi) as [Hex [p Hp]].
    rewrite Z.add_0_l in Hex. split; [exact Hex|].
    exists p. split; [exact Hp|].
    apply (proj1 Hz Hzero i a p Hi); [now rewrite Z.add_0_l|exact Hp].
  - intros [Hne H]. split; [split|].
    + destruct (accounts w); [congruence|simpl; lia].
    + assert (knownCount (scan_accounts E pm o 0 (accounts w) acc0) - 0
              = Z.of_nat (length (accounts w))); [|lia].
      apply Hall. intros j a Hj. destruct (H j a Hj) as [Hex [p [Hp _]]].
      rewrite Z.add_0_l. split; [exact Hex|]. rewrite Hp. eauto.
    + apply Hz. intros j a p Hj _ Hp.
      destruct (H j a Hj) as [_ [p' [Hp' Hle]]]. congruence.
Qed.

End Counters.

(** ** The account an attempt picks *)

Section Selection.
Variable E : Env.

(** X10.  For a known model the attempt loop picks, without changing the
    state, an account of the pool that this call has not tried yet, that is
    not known to be at 0 for the model, and that is not in cooldown; and
    no other candidate stands before it in the order of
    [getAccountPrioritiesForModel]. *)
Theorem select_choice (modelId : string) (g : QuotaGroup) (now : Z) (ls : LoopState)
    (w w' : World) (it : Item) :
  is_empty modelId = false ->
  select E modelId g now ls w = (Ok (inr it), w') ->
  w' = w
  /\ cooldownActive it = false
  /\ (exists (j : nat) a,
        accounts w !! j = Some a
        /\ item_accountIndex it = Z.of_nat j
        /\ (Z.of_nat j ∉ triedAccountIndices ls)
        /\ percent_of E (modelQuotaByAccount w !! trim modelId) a <> Some 0)
  /\ forall other,
       other ∈ items (getAccountPrioritiesForModel E modelId
                        {| opt_now := now; includeZero := false;
                           excludeAccountIndices := triedAccountIndices ls |} w) ->
       item_le it other.
Proof.
  intros Hempty H.
  destruct (select_picks E _ _ _ _ _ _ _ Hempty H) as [Hcool Hin].
  pose proof (items_sorted E modelId
                {| opt_now := now; includeZero := false;
                   excludeAccountIndices := triedAccountIndices ls |} w) as Hs.
  unfold select in H.
  erewrite bind_ok in H by reflexivity. rewrite Hempty in H. cbn [negb] in H.
  split; [|split; [exact Hcool|split]].
  - destruct (items _) as [|first rest]; [discriminate|].
    destruct (forallb cooldownActive (first :: rest)).
    + destruct (getCachedErrorResponse E modelId w); [discriminate|].
      destruct (lastResponse ls); [discriminate|].
      destruct (lastNetworkError ls); discriminate.
    + now prim H.
  - apply items_elem_of in Hin as [j [a [Hj [[Hnex [Hinc|Hnz]] ->]]]];
      [discriminate|].
    exists j, a. repeat split; auto.
  - destruct (items _) as [|first rest]; [discriminate|].
    destruct (forallb cooldownActive (first :: rest)).
    + destruct (getCachedErrorResponse E modelId w); [discriminate|].
      destruct (lastResponse ls); [discriminate|].
      destruct (lastNetworkError ls); discriminate.
    + intros other Hother. prim H.
      apply StronglySorted_inv in Hs as [_ Hall].
      apply elem_of_cons in Hother as [->|Hother].
      * destruct (total item_le it it); assumption.
      * rewrite Forall_forall in Hall. apply Hall. exact Hother.
Qed.

End Selection.

Lemma select_choice_witness :
  let w := Example.world [Example.A; Example.B] 0 0 ∅ ∅ 1000 in
  let ls := add_tried 0 initial_loop_state in
  exists it,
    select Example.offline "gemini-pro" gemini 1000 ls w = (Ok (inr it), w)
    /\ item_accountIndex it = 1
    /\ cooldownActive it = false.
Proof.
  cbn zeta. eexists. split; [reflexivity|]. split; [reflexivity|].
  eapply (select_choice Example.offline "gemini-pro" gemini 1000
            (add_tried 0 initial_loop_state)
            (Example.world [Example.A; Example.B] 0 0 ∅ ∅ 1000)).
  - reflexivity.
  - reflexivity.
Defined.

(** ** The error cache *)

Section ErrorCache.
Variable E : Env.

(** X11.  An error response cached for a model is what the cache gives back
    for it: the response made of the same body, status (500 for a status
    of 0) and headers.  Caching it changes the cached error of no other
    model, no quota and no account, and does nothing to the outside. *)
Theorem error_cache_round_trip (modelId : string) (r : Response) (w : World) :
  is_empty (trim modelId) = false ->
  let w' := snd (cacheLastErrorResponse modelId r w) in
  getCachedErrorResponse E modelId w'
  = new_Response E (bodyText r) (if status r =? 0 then 500 else status r) (headers r)
  /\ (forall other, trim other <> trim modelId ->
        getCachedErrorResponse E other w' = getCachedErrorResponse E other w)
  /\ modelQuotaByAccount w' = modelQuotaByAccount w
  /\ accounts w' = accounts w
  /\ trace w' = trace w.
Proof.
  intros Hempty. cbn zeta.
  unfold cacheLastErrorResponse, getCachedErrorResponse. rewrite Hempty.
  cbn. split; [|split; [|auto]].
  - now rewrite lookup_insert_eq.
  - intros other Hother. rewrite lookup_insert_ne by congruence. reflexivity.
Qed.

End ErrorCache.

Lemma error_cache_round_trip_witness :
  let r := Example.too_many "retry in 9s" in
  let w := Example.world [Example.A] 0 0 ∅ ∅ 1000 in
  getCachedErrorResponse Example.offline "gemini-pro "
    (snd (cacheLastErrorResponse "gemini-pro " r w)) = Some r.
Proof.
  cbn zeta.
  rewrite (proj1 (error_cache_round_trip Example.offline "gemini-pro "
                    (Example.too_many "retry in 9s")
                    (Example.world [Example.A] 0 0 ∅ ∅ 1000) eq_refl)).
  reflexivity.
Defined.

(** ** What a call leaves alone *)

(** What the dispatcher has of its own, and what it shares with the
    account manager besides the accounts: the two caches and the current
    account of each group. *)
Definition caches (w : World)
  : gmap string (gmap string QuotaEntry) * gmap string CachedError * Z * Z :=
  (modelQuotaByAccount w, lastErrorByModel w, current_claude w, current_gemini w).

(** [f] looks at these only. *)
Definition cache_fn {X} (f : World -> X) : Prop :=
  forall w w', caches w' = caches w -> f w' = f w.

Lemma caches_inv w w' :
  caches w' = caches w ->
  modelQuotaByAccount w' = modelQuotaByAccount w
  /\ lastErrorByModel w' = lastErrorByModel w
  /\ current_claude w' = current_claude w
  /\ current_gemini w' = current_gemini w.
Proof. intros [= Hq He Hc Hg]. auto. Qed.

(** What the quota sweep recorded for a model and an account key: the
    remaining percentage, the reset time and the time of the record. *)
Definition recorded (w : World) (m k : string) : option Z * option Z * option Z :=
  let q := modelQuotaByAccount w !! m ≫= (fun perModel => perModel !! k) in
  (q ≫= remainingPercent, q ≫= resetTimeMs, q ≫= updatedAtMs).

Lemma keeps_try_finally {X A} (f : World -> X) (m : M A) cleanup :
  keeps f m -> (forall w, f (cleanup w) = f w) -> keeps f (try_finally m cleanup).
Proof. intros Hm Hc w. unfold try_finally. cbn. now rewrite Hc. Qed.

Lemma keeps_try_catch {X A} (f : World -> X) (m : M A) handler :
  keeps f m -> (forall e, keeps f (handler e)) -> keeps f (try_catch m handler).
Proof.
  intros Hm Hh w. unfold try_catch. specialize (Hm w).
  destruct (m w) as [[a|e] w1]; simpl in *; [exact Hm|].
  now rewrite Hh.
Qed.

Lemma keeps_get_account {X} (f : World -> X) i : keeps f (get_account i).
Proof. intros w. unfold get_account. now destruct (accounts w !! i). Qed.

Ltac frame_step :=
  first
    [ apply keeps_bind'; [|intros ?]
    | apply keeps_try_finally; [|intros ?; reflexivity]
    | apply keeps_try_catch; [|intros ?]
    | apply keeps_get_account
    | match goal with
      | |- keeps _ (if ?b then _ else _) => destruct b
      | |- keeps _ (match ?x with _ => _ end) => destruct x
      end
    | (intros ?; reflexivity) ].

Lemma keeps_caches_getCredentialsByIndex E index group :
  keeps caches (getCredentialsByIndex E index group).
Proof.
  unfold getCredentialsByIndex, check_index, fresh_token, ensureProjectId,
    projectId_settle, projectId_body, refreshToken, refreshToken_settle,
    refreshToken_start, refreshToken_body, refresh_projectId, fetchProjectId,
    writeFile, scheduleRefresh, update_account.
  repeat frame_step.
Qed.

Lemma keeps_caches_http E req : keeps caches (http_call E req).
Proof. unfold http_call. repeat frame_step. Qed.

Lemma keeps_caches_sleep ms : keeps caches (sleep ms).
Proof. intros w. reflexivity. Qed.

Section Frame.
Variable E : Env.
Context {X : Type}.
Variable f : World -> X.
Hypothesis f_caches : cache_fn f.
Variable modelId : string.
Hypothesis f_cooldown : forall key c, keeps f (setCooldownUntil modelId key c).
Hypothesis f_cache : forall r, keeps f (cacheLastErrorResponse modelId r).

Lemma keeps_of_caches {A} (m : M A) : keeps caches m -> keeps f m.
Proof. intros Hm w. apply f_caches, Hm. Qed.

Ltac frame_tac :=
  repeat first
    [ apply f_cooldown | apply f_cache
    | apply keeps_of_caches, keeps_caches_getCredentialsByIndex
    | apply keeps_of_caches, keeps_caches_http
    | apply keeps_of_caches, keeps_caches_sleep
    | frame_step ].

Lemma frame_on_response maxAttempts now accountName req ls r :
  keeps f (on_response E modelId maxAttempts now accountName req ls r).
Proof. unfold on_response, cache_for_model. frame_tac. Qed.

Lemma frame_attempt method options g maxAttempts ls :
  keeps f (attempt E method options modelId g maxAttempts ls).
Proof.
  unfold attempt, select.
  repeat first [ apply frame_on_response | progress frame_tac ].
Qed.

Lemma frame_attempt_loop method options g maxAttempts n :
  forall ls, keeps f (attempt_loop E n method options modelId g maxAttempts ls).
Proof.
  induction n as [|n IH]; intros ls; cbn [attempt_loop].
  - intros w. reflexivity.
  - apply keeps_bind'; [apply frame_attempt|].
    intros [r|ls'|ls']; [intros w; reflexivity|apply IH|intros w; reflexivity].
Qed.

Lemma frame_fast_fail method options g :
  keeps f (fast_fail E method options modelId g).
Proof. unfold fast_fail. frame_tac. Qed.

Lemma frame_exhausted method ls : keeps f (exhausted E method modelId ls).
Proof. unfold exhausted. frame_tac. Qed.

Lemma frame_callV1Internal method options w :
  modelId = trim (options_model options) ->
  f (snd (callV1Internal E method options w)) = f (after_pre_wait E modelId w).
Proof.
  intros Hmodel. unfold callV1Internal. rewrite <- Hmodel.
  erewrite bind_ok by reflexivity.
  erewrite bind_ok by apply pre_wait_run.
  match goal with
  | |- f (snd (?m ?w1)) = f ?w1 => change (f (snd (m w1)) = f w1); generalize w1
  end.
  apply keeps_bind'; [apply frame_fast_fail|].
  intros [response|]; [intros ?; reflexivity|].
  apply keeps_bind'; [apply frame_attempt_loop|].
  intros [response|ls]; [intros ?; reflexivity|apply frame_exhausted].
Qed.

End Frame.

Lemma recorded_cooldown modelId key c m k :
  keeps (fun w => recorded w m k) (setCooldownUntil modelId key c).
Proof.
  intros w. unfold setCooldownUntil.
  destruct (is_empty (trim modelId)); [reflexivity|].
  unfold recorded. cbn.
  destruct (decide (m = trim modelId)) as [->|Hm].
  - rewrite lookup_insert_eq. cbn.
    destruct (decide (k = key)) as [->|Hk].
    + rewrite lookup_insert_eq. cbn.
      destruct (modelQuotaByAccount w !! trim modelId) as [pm|]; cbn;
        [destruct (pm !! key); reflexivity|reflexivity].
    + rewrite lookup_insert_ne by congruence.
      destruct (modelQuotaByAccount w !! trim modelId) as [pm|]; reflexivity.
  - rewrite lookup_insert_ne by congruence. reflexivity.
Qed.

Lemma other_model_cooldown modelId key c m :
  m <> trim modelId ->
  keeps (fun w => (modelQuotaByAccount w !! m, lastErrorByModel w !! m))
    (setCooldownUntil modelId key c).
Proof.
  intros Hm w. unfold setCooldownUntil.
  destruct (is_empty (trim modelId)); [reflexivity|].
  cbn. rewrite lookup_insert_ne by congruence. reflexivity.
Qed.

Lemma other_model_cache modelId r m :
  m <> trim modelId ->
  keeps (fun w => (modelQuotaByAccount w !! m, lastErrorByModel w !! m))
    (cacheLastErrorResponse modelId r).
Proof.
  intros Hm w. unfold cacheLastErrorResponse.
  destruct (is_empty (trim modelId)); [reflexivity|].
  cbn. rewrite lookup_insert_ne by congruence. reflexivity.
Qed.

(** X12.  What [callV1Internal] never writes.  Compared with the state
    after its wait for the initial quota refresh, a call leaves every
    recorded remaining percentage, reset time and record time as it was
    (it only sets cooldowns); it leaves the quota and the cached error of
    every model other than its own as they were; it does not move the
    current account of a group; and a call that names no model writes to
    neither cache. *)
Theorem callV1Internal_frame (E : Env) (method : string) (options : Options) (w : World) :
  let modelId := trim (options_model options) in
  let w1 := after_pre_wait E modelId w in
  let w' := snd (callV1Internal E method options w) in
  (forall m k, recorded w' m k = recorded w1 m k)
  /\ (forall m, m <> modelId ->
        modelQuotaByAccount w' !! m = modelQuotaByAccount w1 !! m
        /\ lastErrorByModel w' !! m = lastErrorByModel w1 !! m)
  /\ (forall g, getCurrentAccountIndex g w' = getCurrentAccountIndex g w1)
  /\ (modelId = EmptyString ->
        modelQuotaByAccount w' = modelQuotaByAccount w
        /\ lastErrorByModel w' = lastErrorByModel w).
Proof.
  cbn zeta. split; [|split; [|split]].
  - intros m k.
    apply (frame_callV1Internal E (fun w => recorded w m k)) with
      (modelId := trim (options_model options)); [| | |reflexivity].
    + intros w0 w0' H. unfold recorded.
      apply caches_inv in H as (Hq & _). now rewrite Hq.
    + intros key c. apply recorded_cooldown.
    + intros r w0. reflexivity || (unfold cacheLastErrorResponse;
        destruct (is_empty (trim (trim (options_model options)))); reflexivity).
  - intros m Hm.
    assert (Hm' : m <> trim (trim (options_model options)))
      by now rewrite trim_idempotent.
    pose proof (frame_callV1Internal E
                  (fun w => (modelQuotaByAccount w !! m, lastErrorByModel w !! m))
                  ltac:(intros w0 w0' H; apply caches_inv in H as (Hq & He & _);
                        now rewrite Hq, He)
                  (trim (options_model options))
                  ltac:(intros key c; now apply other_model_cooldown)
                  ltac:(intros r; now apply other_model_cache)
                  method options w eq_refl) as H.
    cbn beta in H. injection H as Hq He. now split.
  - intros g.
    apply (frame_callV1Internal E (getCurrentAccountIndex g)) with
      (modelId := trim (options_model options)); [| | |reflexivity].
    + intros w0 w0' H. apply caches_inv in H as (_ & _ & Hc & Hg).
      now destruct g.
    + intros key c w0. unfold setCooldownUntil.
      destruct (is_empty (trim (trim (options_model options)))); now destruct g.
    + intros r w0. unfold cacheLastErrorResponse.
      destruct (is_empty (trim (trim (options_model options)))); now destruct g.
  - intros Hnone.
    pose proof (frame_callV1Internal E caches
                  ltac:(intros w0 w0' H; exact H)
                  (trim (options_model options))) as H.
    rewrite Hnone in H.
    specialize (H ltac:(intros key c w0; reflexivity) ltac:(intros r w0; reflexivity)
                  method options w (eq_sym Hnone)).
    apply caches_inv in H as (Hq & He & _). now split.
Qed.

(** ** One iteration of the attempt loop *)

Section Iteration.
Variable E : Env.

Lemma select_state modelId g now ls w out w' :
  select E modelId g now ls w = (out, w') -> w' = w.
Proof.
  unfold select. erewrite bind_ok by reflexivity.
  destruct (negb (is_empty modelId)); [|now intros [= _ <-]].
  destruct (items _) as [|first rest]; [now intros [= _ <-]|].
  destruct (forallb cooldownActive (first :: rest)); [|now intros [= _ <-]].
  destruct (getCachedErrorResponse E modelId w); [now intros [= _ <-]|].
  destruct (lastResponse ls); [now intros [= _ <-]|].
  destruct (lastNetworkError ls); now intros [= _ <-].
Qed.

Lemma select_not_continue modelId g now ls w ls' w' :
  select E modelId g now ls w <> (Ok (inl (Continue ls')), w').
Proof.
  unfold select. erewrite bind_ok by reflexivity.
  destruct (negb (is_empty modelId)); [|discriminate].
  destruct (items _) as [|first rest]; [discriminate|].
  destruct (forallb cooldownActive (first :: rest)); [|discriminate].
  destruct (getCachedErrorResponse E modelId w); [discriminate|].
  destruct (lastResponse ls); [discriminate|].
  destruct (lastNetworkError ls); discriminate.
Qed.

Lemma on_response_continue modelId maxAttempts now accountName req ls r w ls' w' :
  on_response E modelId maxAttempts now accountName req ls r w = (Ok (Continue ls'), w') ->
  status r = 429 /\ maxAttempts <> 1 /\ ls' = set_lastResponse (Some r) ls.
Proof.
  unfold on_response. destruct (response_ok r); [discriminate|].
  destruct (Z.eqb_spec (status r) 429) as [H429|Hne]; cbn [negb].
  2:{ intros H. apply bind_inv_ok in H as (? & ? & _ & H). discriminate. }
  intros H. apply bind_inv_ok in H as (? & w1 & _ & H).
  apply bind_inv_ok in H as (? & w2 & _ & H).
  destruct (Z.eqb_spec maxAttempts 1) as [Hone|Hmany].
  - destruct (retry_delay E (parseRetryDelayMs E (bodyText r))); [|discriminate].
    apply bind_inv_ok in H as (? & ? & _ & H).
    apply bind_inv_ok in H as (rr & ? & _ & H).
    destruct (response_ok rr); [discriminate|].
    apply bind_inv_ok in H as (? & ? & _ & H). discriminate.
  - apply bind_inv_ok in H as (? & ? & _ & H). prim H. auto.
Qed.

(** X13.  An iteration of the attempt loop for a known model that goes on
    to the next one: the pool has more than one attempt; the iteration
    picked an account of the pool that had not been tried, obtained its
    credentials and sent the request; and the state of the loop is the
    previous one with that account marked as tried and with either the
    429 that answered this request as the last response, or the network
    error this request failed with as the last network error. *)
Theorem attempt_continue (method : string) (options : Options) (modelId : string)
    (g : QuotaGroup) (maxAttempts : Z) (ls ls' : LoopState) (w w' : World) :
  is_empty modelId = false ->
  attempt E method options modelId g maxAttempts ls w = (Ok (Continue ls'), w') ->
  maxAttempts <> 1
  /\ exists (j : nat) creds w1,
       (j < length (accounts w))%nat
       /\ (Z.of_nat j ∉ triedAccountIndices ls)
       /\ getCredentialsByIndex E (Z.of_nat j) (group_name g) w = (Ok creds, w1)
       /\ match httpClient_callV1Internal E (length (trace w1))
                  (make_request method options creds) with
          | Ok r =>
              status r = 429
              /\ ls' = set_lastResponse (Some r) (add_tried (Z.of_nat j) ls)
          | Throw netErr =>
              ls' = set_lastNetworkError (Some netErr) (add_tried (Z.of_nat j) ls)
          end.
Proof.
  intros Hempty H. unfold attempt in H.
  apply bind_inv_ok in H as (now & w0 & Hnow & H). prim Hnow.
  apply bind_inv_ok in H as (s & w1 & Hsel & H).
  destruct s as [c|picked].
  - prim H. now apply select_not_continue in Hsel.
  - pose proof (select_state _ _ _ _ _ _ _ Hsel) as ->.
    destruct (select_picks E _ _ _ _ _ _ _ Hempty Hsel) as [_ Hin].
    apply items_elem_of in Hin as (j & a & Hj & [Hnt _] & Hpicked).
    cbn [excludeAccountIndices] in Hnt.
    assert (Hidx : item_accountIndex picked = Z.of_nat j) by now rewrite Hpicked.
    rewrite Hidx in H. clear Hpicked Hsel.
    apply lookup_lt_Some in Hj.
    apply bind_inv_ok in H as (creds & w2 & Hcreds & H).
    apply bind_inv_ok in H as (r & w3 & Htry & H).
    unfold try_catch, bind in Htry. rewrite http_call_run in Htry.
    destruct (httpClient_callV1Internal E (length (trace w2))
                (make_request method options creds)) as [response|netErr] eqn:Hanswer.
    + unfold ret in Htry. prim Htry.
      apply on_response_continue in H as (H429 & Hne & ->).
      split; [assumption|]. exists j, creds, w2. rewrite Hanswer. auto.
    + unfold ret in Htry. prim Htry.
      destruct (Z.eqb_spec maxAttempts 1) as [Hone|Hmany].
      * apply bind_inv_ok in H as (? & ? & _ & H).
        apply bind_inv_ok in H as (resp & ? & _ & H).
        apply on_response_continue in H as (_ & Hne & _). contradiction.
      * apply bind_inv_ok in H as (? & ? & _ & H). prim H.
        split; [assumption|]. exists j, creds, w2. rewrite Hanswer. auto.
Qed.

End Iteration.

Lemma attempt_continue_witness :
  let w := Example.world [Example.A; Example.B] 0 0 ∅ ∅ 1000 in
  let ls := initial_loop_state in
  let run := attempt Example.limited "generateContent" (Example.request_options "gemini-pro")
               "gemini-pro" gemini 2 ls w in
  let ls' := match fst run with Ok (Continue l) => l | _ => ls end in
  fst run = Ok (Continue ls')
  /\ lastResponse ls' = Some (Example.too_many "retry in 0.5s")
  /\ 2 <> 1
  /\ exists (j : nat) creds w1,
       (j < 2)%nat
       /\ (Z.of_nat j ∉ triedAccountIndices ls)
       /\ getCredentialsByIndex Example.limited (Z.of_nat j) "gemini" w = (Ok creds, w1)
       /\ match httpClient_callV1Internal Example.limited (length (trace w1))
                  (make_request "generateContent" (Example.request_options "gemini-pro")
                     creds) with
          | Ok r =>
              status r = 429
              /\ ls' = set_lastResponse (Some r) (add_tried (Z.of_nat j) ls)
          | Throw netErr =>
              ls' = set_lastNetworkError (Some netErr) (add_tried (Z.of_nat j) ls)
          end.
Proof.
  cbn zeta. split; [vm_compute; reflexivity|]. split; [vm_compute; reflexivity|].
  apply (attempt_continue Example.limited "generateContent"
           (Example.request_options "gemini-pro") "gemini-pro" gemini 2
           initial_loop_state _
           (Example.world [Example.A; Example.B] 0 0 ∅ ∅ 1000)
           (snd (attempt Example.limited "generateContent"
                   (Example.request_options "gemini-pro") "gemini-pro" gemini 2
                   initial_loop_state
                   (Example.world [Example.A; Example.B] 0 0 ∅ ∅ 1000)))).
  - reflexivity.
  - vm_compute. reflexivity.
Defined.

(** ** How many requests a call sends *)

(** The number of upstream requests in a trace. *)
Fixpoint count_calls (t : list Event) : nat :=
  match t with
  | [] => 0
  | EvCallV1Internal _ :: rest => S (count_calls rest)
  | _ :: rest => count_calls rest
  end.

Definition requests (w : World) : nat := count_calls (trace w).

(** [m] sends at most [n] upstream requests. *)
Definition sends {A} (n : nat) (m : M A) : Prop :=
  forall w, (requests (snd (m w)) <= requests w + n)%nat.

Lemma count_calls_app t u : count_calls (t ++ u) = (count_calls t + count_calls u)%nat.
Proof.
  induction t as [|ev t IH]; [reflexivity|].
  destruct ev; cbn; rewrite IH; reflexivity.
Qed.

Lemma requests_record ev :
  match ev with EvCallV1Internal _ => False | _ => True end ->
  keeps requests (record ev).
Proof.
  intros Hev w. unfold requests, record. cbn.
  rewrite count_calls_app. destruct ev; cbn; lia.
Qed.

Lemma requests_sleep ms : keeps requests (sleep ms).
Proof. intros w. unfold requests, sleep. cbn. rewrite count_calls_app. cbn. lia. Qed.

Ltac requests_step :=
  first
    [ apply requests_sleep
    | apply requests_record; exact I
    | frame_step ].

Lemma requests_getCredentialsByIndex E index group :
  keeps requests (getCredentialsByIndex E index group).
Proof.
  unfold getCredentialsByIndex, check_index, fresh_token, ensureProjectId,
    projectId_settle, projectId_body, refreshToken, refreshToken_settle,
    refreshToken_start, refreshToken_body, refresh_projectId, fetchProjectId,
    writeFile, scheduleRefresh, update_account.
  repeat requests_step.
Qed.

Lemma sends_keeps {A} n (m : M A) : keeps requests m -> sends n m.
Proof. intros Hm w. rewrite Hm. lia. Qed.

Lemma sends_bind {A B} n k (m : M A) (f : A -> M B) :
  sends n m -> (forall a, sends k (f a)) -> sends (n + k) (bind m f).
Proof.
  intros Hm Hf w. unfold bind. specialize (Hm w).
  destruct (m w) as [[a|e] w1]; simpl in *; [|lia].
  specialize (Hf a w1). lia.
Qed.

Lemma sends_le {A} n n' (m : M A) : (n <= n')%nat -> sends n m -> sends n' m.
Proof. intros Hle Hm w. specialize (Hm w). lia. Qed.

Lemma sends_try_catch {A} n k (m : M A) handler :
  sends n m -> (forall e, sends k (handler e)) -> sends (n + k) (try_catch m handler).
Proof.
  intros Hm Hh w. unfold try_catch. specialize (Hm w).
  destruct (m w) as [[a|e] w1]; simpl in *; [lia|].
  specialize (Hh e w1). lia.
Qed.

Section RequestBound.
Variable E : Env.

Lemma sends_http req : sends 1 (http_call E req).
Proof.
  intros w. unfold requests, http_call, bind, record, await_io, of_outcome. cbn.
  rewrite count_calls_app. cbn. lia.
Qed.

Lemma requests_cache modelId r : keeps requests (cache_for_model modelId r).
Proof. unfold cache_for_model, cacheLastErrorResponse. repeat requests_step. Qed.

Lemma requests_cooldown modelId key c : keeps requests (setCooldownUntil modelId key c).
Proof. unfold setCooldownUntil. repeat requests_step. Qed.

Lemma requests_select modelId g now ls : keeps requests (select E modelId g now ls).
Proof. intros w. now rewrite (select_state E _ _ _ _ _ _ _ (run_total _ _)). Qed.

(** With several attempts a response is never followed by a request. *)
Lemma requests_on_response modelId maxAttempts now accountName req ls r :
  maxAttempts <> 1 ->
  keeps requests (on_response E modelId maxAttempts now accountName req ls r).
Proof.
  intros Hmany. unfold on_response.
  destruct (Z.eqb_spec maxAttempts 1); [contradiction|].
  repeat first [ apply requests_cache | apply requests_cooldown | requests_step ].
Qed.

Lemma sends_on_response modelId maxAttempts now accountName req ls r :
  sends 1 (on_response E modelId maxAttempts now accountName req ls r).
Proof.
  destruct (Z.eqb_spec maxAttempts 1) as [Hone|Hmany];
    [|now apply sends_keeps, requests_on_response].
  unfold on_response.
  destruct (response_ok r); [apply sends_keeps; intros w; reflexivity|].
  destruct (negb (status r =? 429)).
  { apply sends_keeps.
    repeat first [ apply requests_cache | requests_step ]. }
  apply (sends_bind 0 1); [apply sends_keeps, requests_cache|]. intros _.
  apply (sends_bind 0 1).
  { apply sends_keeps. destruct (is_empty modelId);
      [intros w; reflexivity|apply requests_cooldown]. }
  intros _. destruct (maxAttempts =? 1).
  - destruct (retry_delay E (parseRetryDelayMs E (bodyText r))) as [delay|];
      [|apply sends_keeps; intros w; reflexivity].
    apply (sends_bind 0 1); [apply sends_keeps, requests_sleep|]. intros _.
    apply (sends_bind 1 0); [apply sends_http|]. intros retryResp.
    apply sends_keeps.
    repeat first [ apply requests_cache | requests_step ].
  - apply sends_keeps. repeat requests_step.
Qed.

(** The requests of one iteration: one, or up to three when the only
    attempt is retried in place. *)
Definition per_attempt (maxAttempts : Z) : nat := if maxAttempts =? 1 then 3 else 1.

Lemma sends_attempt method options modelId g maxAttempts ls :
  sends (per_attempt maxAttempts) (attempt E method options modelId g maxAttempts ls).
Proof.
  unfold attempt, per_attempt.
  apply (sends_bind 0 _); [apply sends_keeps; intros w; reflexivity|]. intros now.
  apply (sends_bind 0 _); [apply sends_keeps, requests_select|]. intros [c|picked].
  { apply sends_keeps. intros w. reflexivity. }
  apply (sends_bind 0 _); [apply sends_keeps, requests_getCredentialsByIndex|].
  intros creds.
  destruct (Z.eqb_spec maxAttempts 1) as [Hone|Hmany].
  - apply (sends_bind 1 2).
    { apply (sends_try_catch 1 0).
      - apply (sends_bind 1 0); [apply sends_http|].
        intros response. apply sends_keeps. intros w. reflexivity.
      - intros e. apply sends_keeps. intros w. reflexivity. }
    intros [netErr|response].
    + apply (sends_bind 0 2); [apply sends_keeps, requests_sleep|]. intros _.
      apply (sends_bind 1 1); [apply sends_http|]. intros response.
      apply sends_on_response.
    + apply (sends_le 1); [lia|apply sends_on_response].
  - apply (sends_bind 1 0).
    { apply (sends_try_catch 1 0).
      - apply (sends_bind 1 0); [apply sends_http|].
        intros response. apply sends_keeps. intros w. reflexivity.
      - intros e. apply sends_keeps. intros w. reflexivity. }
    intros [netErr|response].
    + apply sends_keeps. repeat requests_step.
    + now apply sends_keeps, requests_on_response.
Qed.

Lemma sends_attempt_loop method options modelId g maxAttempts n :
  forall ls,
    sends (n * per_attempt maxAttempts)
      (attempt_loop E n method options modelId g maxAttempts ls).
Proof.
  induction n as [|n IH]; intros ls; cbn [attempt_loop].
  - apply sends_keeps. intros w. reflexivity.
  - change (S n * per_attempt maxAttempts)%nat
      with (per_attempt maxAttempts + n * per_attempt maxAttempts)%nat.
    apply sends_bind; [apply sends_attempt|].
    intros [r|ls'|ls']; [apply sends_keeps; intros w; reflexivity|apply IH|
                         apply sends_keeps; intros w; reflexivity].
Qed.

Lemma sends_fast_fail method options modelId g :
  sends 1 (fast_fail E method options modelId g).
Proof.
  unfold fast_fail.
  destruct (is_empty modelId); [apply sends_keeps; intros w; reflexivity|].
  apply (sends_bind 0 1); [apply sends_keeps; intros w; reflexivity|]. intros w0.
  destruct (allZeroKnown _); [|apply sends_keeps; intros w; reflexivity].
  destruct (getCachedErrorResponse E modelId w0);
    [apply sends_keeps; intros w; reflexivity|].
  destruct (items _) as [|pick rest]; [apply sends_keeps; intros w; reflexivity|].
  apply (sends_bind 0 1); [apply sends_keeps, requests_getCredentialsByIndex|].
  intros creds.
  apply (sends_bind 1 0); [apply sends_http|]. intros response.
  apply sends_keeps. unfold cacheLastErrorResponse. repeat requests_step.
Qed.

(** The gate lets a call through without having done anything. *)
Lemma fast_fail_none method options modelId g w w' :
  fast_fail E method options modelId g w = (Ok None, w') -> w' = w.
Proof.
  unfold fast_fail.
  destruct (is_empty modelId); [now intros [= <-]|].
  erewrite bind_ok by reflexivity.
  destruct (allZeroKnown _); [|now intros [= <-]].
  destruct (getCachedErrorResponse E modelId w); [discriminate|].
  destruct (items _) as [|pick rest]; [discriminate|].
  intros H. apply bind_inv_ok in H as (creds & w1 & _ & H).
  apply bind_inv_ok in H as (response & w2 & _ & H).
  apply bind_inv_ok in H as (? & w3 & _ & H). discriminate.
Qed.

Lemma requests_exhausted method modelId ls : keeps requests (exhausted E method modelId ls).
Proof. unfold exhausted. repeat requests_step. Qed.

(** X14.  A call sends at most one upstream request for each account of
    the pool it started with, and at most three when that pool has a
    single account or none (the request, its repetition after a network
    error, and the repetition after a 429). *)
Theorem callV1Internal_request_bound (method : string) (options : Options) (w : World) :
  let w1 := after_pre_wait E (trim (options_model options)) w in
  let w' := snd (callV1Internal E method options w) in
  (requests w' <= requests w1
                  + (if (getAccountCount w <=? 1)%Z then 3
                     else Z.to_nat (getAccountCount w)))%nat.
Proof.
  cbn zeta. unfold callV1Internal.
  erewrite bind_ok by reflexivity.
  erewrite bind_ok by apply pre_wait_run.
  set (modelId := trim (options_model options)).
  set (w1 := after_pre_wait E modelId w).
  set (g := getQuotaGroupFromModel _).
  assert (Hloop : (Z.to_nat (getMaxAttempts w) * per_attempt (getMaxAttempts w)
                   = if (getAccountCount w <=? 1)%Z then 3
                     else Z.to_nat (getAccountCount w))%nat).
  { unfold getMaxAttempts, per_attempt.
    destruct (Z.leb_spec (getAccountCount w) 1) as [Hle|Hgt].
    - replace (Z.max 1 (getAccountCount w)) with 1 by lia. reflexivity.
    - replace (Z.max 1 (getAccountCount w)) with (getAccountCount w) by lia.
      destruct (Z.eqb_spec (getAccountCount w) 1); lia. }
  assert (Hpos : (1 <= if (getAccountCount w <=? 1)%Z then 3
                       else Z.to_nat (getAccountCount w))%nat).
  { destruct (Z.leb_spec (getAccountCount w) 1); lia. }
  rewrite <- Hloop in *.
  pose proof (sends_fast_fail method options modelId g) as Hgate.
  unfold bind at 1.
  destruct (fast_fail E method options modelId g w1) as [[[response|]|e] w2] eqn:Hff;
    specialize (Hgate w1); rewrite Hff in Hgate; cbn [snd] in Hgate.
  - unfold ret. cbn [snd]. lia.
  - apply fast_fail_none in Hff as ->.
    match goal with
    | |- (requests (snd (?m w1)) <= _)%nat =>
        assert (Hm : sends (Z.to_nat (getMaxAttempts w) * per_attempt (getMaxAttempts w) + 0) m)
    end.
    { apply sends_bind; [apply sends_attempt_loop|].
      intros [response|ls]; apply sends_keeps;
        [intros w0; reflexivity|apply requests_exhausted]. }
    specialize (Hm w1). lia.
  - cbn [snd]. lia.
Qed.

End RequestBound.

(* ===================================================================== *)
(** * More on [parseDurationMs] *)
(* ===================================================================== *)

Lemma space_not_num c : is_space c = true -> is_num_char c = false.
Proof. split_char c; intros H; try discriminate H; reflexivity. Qed.

Lemma num_not_space c : is_num_char c = true -> is_space c = false.
Proof.
  intros H. destruct (is_space c) eqn:Hs; [|reflexivity].
  apply space_not_num in Hs. congruence.
Qed.

(** The last letter of a unit, and the letters before it. *)
Definition unit_last (u : Unit) : ascii :=
  match u with Ums => "s" | Us => "s" | Um => "m" | Uh => "h" end%char.

Definition unit_init (u : Unit) : string :=
  match u with Ums => "m" | _ => EmptyString end.

Lemma unit_text_last u : unit_text u = unit_init u +:+ String (unit_last u) EmptyString.
Proof. now destruct u. Qed.

Lemma match_unit_total u post :
  exists u' rest, match_unit (unit_text u +:+ post) = Some (u', rest).
Proof.
  destruct u; simpl; eauto.
  destruct post as [|d r]; [eauto|].
  split_char d; simpl; eauto.
Qed.

Lemma head_fails_after_num ws u post :
  all is_space ws = true ->
  head_fails is_num_char (ws +:+ unit_text u +:+ post) = true.
Proof.
  destruct ws as [|c ws]; simpl.
  - intros _. now destruct u.
  - intros H. apply andb_true_iff in H as [Hc _].
    now rewrite (space_not_num _ Hc).
Qed.

Lemma match_here_complete numtxt ws u post :
  numtxt <> EmptyString ->
  all is_num_char numtxt = true ->
  all is_space ws = true ->
  exists m, match_here (numtxt +:+ ws +:+ unit_text u +:+ post) = Some m.
Proof.
  intros Hne Hnum Hws. unfold match_here.
  destruct (greedy_splits_run is_num_char numtxt (ws +:+ unit_text u +:+ post) Hnum
              (head_fails_after_num ws u post Hws)) as [tl ->].
  cbn [first_some fst snd].
  destruct numtxt as [|d n]; [congruence|]. cbn [is_empty].
  assert (Hunit : head_fails is_space (unit_text u +:+ post) = true) by now destruct u.
  destruct (greedy_splits_run is_space ws (unit_text u +:+ post) Hws Hunit) as [tl' ->].
  cbn [first_some fst snd].
  destruct (match_unit_total u post) as (u' & rest & ->). eauto.
Qed.

Lemma regex_exec_complete pre numtxt ws u post :
  numtxt <> EmptyString ->
  all is_num_char numtxt = true ->
  all is_space ws = true ->
  exists m, regex_exec (pre +:+ numtxt +:+ ws +:+ unit_text u +:+ post) = Some m.
Proof.
  intros Hne Hnum Hws. induction pre as [|c pre IH]; rewrite regex_exec_unfold.
  - cbn [String.append].
    destruct (match_here_complete numtxt ws u post Hne Hnum Hws) as [m ->]. eauto.
  - destruct (match_here _) as [m|]; [eauto|]. cbn [String.append]. exact IH.
Qed.

Lemma trimStart_keep pre c rest :
  is_space c = false ->
  exists pre', trimStart (pre +:+ String c rest) = pre' +:+ String c rest.
Proof.
  intros Hc. induction pre as [|d pre IH]; cbn [String.append].
  - exists EmptyString. now apply trimStart_id.
  - cbn [trimStart]. destruct (is_space d); [exact IH|].
    now exists (String d pre).
Qed.

Lemma trimEnd_keep x c post :
  is_space c = false ->
  trimEnd (x +:+ String c post) = x +:+ String c (trimEnd post).
Proof.
  intros Hc. induction x as [|d x IH]; cbn [String.append trimEnd].
  - now rewrite Hc.
  - rewrite IH. destruct x; cbn [String.append is_empty]; now rewrite andb_false_r.
Qed.

(** Trimming keeps a match of the expression. *)
Lemma trim_keeps_match s : contains_match s -> contains_match (trim s).
Proof.
  intros (pre & numtxt & ws & u & post & -> & Hne & Hnum & Hws).
  destruct numtxt as [|d n]; [congruence|].
  assert (Hd : is_space d = false).
  { cbn in Hnum. apply andb_true_iff in Hnum as [Hd _]. now apply num_not_space. }
  unfold trim. cbn [String.append].
  destruct (trimStart_keep pre d (n +:+ ws +:+ unit_text u +:+ post) Hd) as [pre' ->].
  exists pre', (String d n), ws, u, (trimEnd post).
  split; [|auto].
  rewrite unit_text_last.
  replace (pre' +:+ String d (n +:+ ws +:+ (unit_init u +:+ String (unit_last u) EmptyString)
                              +:+ post))
    with ((pre' +:+ String d (n +:+ ws +:+ unit_init u)) +:+ String (unit_last u) post).
  - rewrite trimEnd_keep by now destruct u.
    cbn [String.append]. rewrite !append_assoc. cbn [String.append].
    now rewrite !append_assoc.
  - cbn [String.append]. rewrite !append_assoc. cbn [String.append].
    now rewrite !append_assoc.
Qed.

Lemma exec_loop_matched J fuel :
  forall str totalMs, snd (exec_loop J fuel str totalMs true) = true.
Proof.
  induction fuel as [|fuel IH]; intros str totalMs; cbn [exec_loop]; [reflexivity|].
  destruct (regex_exec str) as [[[m1 u] rest]|]; [apply IH|reflexivity].
Qed.

Lemma parseDurationMs_match_Some J s :
  contains_match s -> exists v, parseDurationMs J s = Some v.
Proof.
  intros Hs. pose proof (trim_keeps_match s Hs) as Ht.
  unfold parseDurationMs.
  assert (Hnonempty : forall x, contains_match x -> is_empty x = false).
  { intros x (pre & numtxt & ws & u & post & -> & Hne & _).
    destruct pre; [|reflexivity]. destruct numtxt; [congruence|reflexivity]. }
  rewrite (Hnonempty _ Hs), (Hnonempty _ Ht).
  destruct Ht as (pre & numtxt & ws & u & post & Heq & Hne & Hnum & Hws).
  destruct (regex_exec_complete pre numtxt ws u post Hne Hnum Hws) as [[[m1 u'] rest] Hexec].
  rewrite <- Heq in Hexec.
  destruct (String.length (trim s)) as [|fuel] eqn:Hlen.
  { rewrite Heq in Hlen. destruct pre; [|discriminate].
    destruct numtxt; [congruence|discriminate]. }
  cbn [exec_loop]. rewrite Hexec. rewrite exec_loop_matched. cbn [negb]. eauto.
Qed.

(** X15.  In any arithmetic of numbers, [parseDurationMs] returns [null]
    exactly for the strings in which the expression
    [/([\d.]+)\s*(ms|s|m|h)/] has no match: a run of digits and dots,
    optional white space, a unit. *)
Theorem parseDurationMs_null_iff (J : NumberOps) (s : string) :
  parseDurationMs J s = None <-> ~ contains_match s.
Proof.
  split.
  - intros Hnone Hs. destruct (parseDurationMs_match_Some J s Hs) as [v Hv]. congruence.
  - intros Hno. destruct (parseDurationMs J s) as [v|] eqn:Hv; [|reflexivity].
    exfalso. apply Hno. eapply parseDurationMs_Some_match. exact Hv.
Qed.

(** ** A request that fails on the network *)

Section NetworkError.
Variable E : Env.

(** X16.  The request of an iteration fails on the network.  With several
    attempts the iteration sleeps [FIXED_RETRY_DELAY_MS] and goes on to
    the next account, the error recorded and the account marked as tried.
    With a single attempt it sleeps as long and sends the same request
    once more: a second network error is thrown to the caller, and a
    response is handled as the response of any attempt. *)
Theorem attempt_network_error (method : string) (options : Options) (modelId : string)
    (g : QuotaGroup) (maxAttempts : Z) (ls : LoopState) (w w1 : World)
    (picked : Item) (creds : CredentialsResult) (netErr : JsError) :
  select E modelId g (clock w) ls w = (Ok (inr picked), w) ->
  getCredentialsByIndex E (item_accountIndex picked) (group_name g) w = (Ok creds, w1) ->
  let req := make_request method options creds in
  httpClient_callV1Internal E (length (trace w1)) req = Throw netErr ->
  let ls1 := set_lastNetworkError (Some netErr)
               (add_tried (item_accountIndex picked) ls) in
  let w2 := snd (sleep (FIXED_RETRY_DELAY_MS E) (snd (http_call E req w1))) in
  let run := attempt E method options modelId g maxAttempts ls w in
  trace w2 = trace w1 ++ [EvCallV1Internal req; EvSleep (FIXED_RETRY_DELAY_MS E)]
  /\ (maxAttempts <> 1 -> run = (Ok (Continue ls1), w2))
  /\ (maxAttempts = 1 ->
      match httpClient_callV1Internal E (length (trace w2)) req with
      | Throw netErr2 =>
          fst run = Throw netErr2
          /\ trace (snd run) = trace w2 ++ [EvCallV1Internal req]
      | Ok response =>
          run = on_response E modelId 1 (clock w)
                  (getAccountKeyFromAccount E (account creds)) req ls1 response
                  (snd (http_call E req w2))
      end).
Proof.
  intros Hsel Hcreds req Hnet ls1 w2 run.
  split; [unfold w2; cbn; now rewrite <- app_assoc|].
  assert (Hrun : run
                 = (if maxAttempts =? 1
                    then bind (sleep (FIXED_RETRY_DELAY_MS E))
                           (fun _ => bind (http_call E req)
                              (fun response =>
                                 on_response E modelId maxAttempts (clock w)
                                   (getAccountKeyFromAccount E (account creds))
                                   req ls1 response))
                    else bind (sleep (FIXED_RETRY_DELAY_MS E))
                           (fun _ => ret (Continue ls1)))
                     (snd (http_call E req w1))).
  { unfold run, attempt.
    erewrite bind_ok by reflexivity.
    erewrite bind_ok by exact Hsel. cbv beta iota.
    erewrite bind_ok by exact Hcreds. cbv beta zeta.
    erewrite bind_ok.
    2:{ unfold try_catch. erewrite bind_throw.
        2:{ rewrite http_call_run. fold req. rewrite Hnet. reflexivity. }
        reflexivity. }
    cbv beta iota. fold req. fold ls1.
    rewrite http_call_run. cbn [snd]. reflexivity. }
  split.
  - intros Hmany. rewrite Hrun.
    destruct (Z.eqb_spec maxAttempts 1); [contradiction|]. reflexivity.
  - intros ->. rewrite Hrun. cbn [Z.eqb Pos.eqb].
    assert (Hretry : forall K : Response -> M Control,
               bind (sleep (FIXED_RETRY_DELAY_MS E))
                 (fun _ => bind (http_call E req) K) (snd (http_call E req w1))
               = match httpClient_callV1Internal E (length (trace w2)) req with
                 | Ok response => K response (snd (http_call E req w2))
                 | Throw e2 => (Throw e2, snd (http_call E req w2))
                 end) by reflexivity.
    rewrite Hretry.
    destruct (httpClient_callV1Internal E (length (trace w2)) req) as [response|e2];
      [reflexivity|]. split; reflexivity.
Qed.

End NetworkError.

Lemma attempt_network_error_witness :
  let w := Example.world [Example.A] 0 0 ∅ ∅ 1000 in
  let creds := {| accessToken := "token-a"; result_projectId := Some "projects/demo";
                  account := Example.A; accountIndex := 0 |} in
  let req := make_request "generateContent" (Example.request_options "gemini-pro") creds in
  let run := attempt Example.offline "generateContent"
               (Example.request_options "gemini-pro") "gemini-pro" gemini 1
               initial_loop_state w in
  fst run = Throw (Error "fetch failed")
  /\ trace (snd run) = [EvCallV1Internal req; EvSleep 1200; EvCallV1Internal req].
Proof.
  cbn zeta.
  exact (proj2 (proj2
           (attempt_network_error Example.offline "generateContent"
              (Example.request_options "gemini-pro") "gemini-pro" gemini 1
              initial_loop_state
              (Example.world [Example.A] 0 0 ∅ ∅ 1000)
              (Example.world [Example.A] 0 0 ∅ ∅ 1000)
              {| item_accountIndex := 0; item_accountKey := "a.json";
                 item_remainingPercent := None; item_resetTimeMs := None;
                 item_cooldownUntilMs := 0; cooldownActive := false |}
              {| accessToken := "token-a"; result_projectId := Some "projects/demo";
                 account := Example.A; accountIndex := 0 |}
              (Error "fetch failed") eq_refl eq_refl eq_refl)) eq_refl).
Defined.

(* ===================================================================== *)
(** * The admin interface *)
(* ===================================================================== *)

Section AdminListing.
Import Admin.
Variable E : Env.

(** The entry of a listing under another index. *)
Definition at_index (j : nat) (s : AccountSummary) : AccountSummary :=
  {| summary_index := Z.of_nat j;
     summary_file := summary_file s;
     summary_email := summary_email s;
     summary_projectId := summary_projectId s;
     summary_expiry_date := summary_expiry_date s;
     summary_token_type := summary_token_type s;
     summary_scope := summary_scope s |}.

Lemma getAccountsSummary_lookup w j :
  getAccountsSummary E w !! j = summary_of E j <$> accounts w !! j.
Proof. unfold getAccountsSummary. apply list_lookup_imap. Qed.

(** X17.  After [deleteAccount] has returned [true], the listing of the
    admin interface is the listing before the call without one entry, the
    first one whose file is the trimmed name: the entries before it are
    the same, the entries after it have moved up by one and carry the new
    index, [count] is one less, and each current index of the payload is
    0 or points into the new listing whenever the previous one pointed
    into the previous listing. *)
Theorem deleteAccount_listing (fileName : string) (w w' : World) :
  deleteAccount E fileName w = (Ok true, w') ->
  let before := getAccountsPayload E w in
  let after := getAccountsPayload E w' in
  exists (i : nat) (gone : AccountSummary),
    payload_accounts before !! i = Some gone
    /\ summary_file gone = trim fileName
    /\ (forall j s, (j < i)%nat -> payload_accounts before !! j = Some s ->
                    summary_file s <> trim fileName)
    /\ payload_count after = payload_count before - 1
    /\ (forall j, (j < i)%nat ->
                  payload_accounts after !! j = payload_accounts before !! j)
    /\ (forall j, (i <= j)%nat ->
                  payload_accounts after !! j
                  = at_index j <$> payload_accounts before !! S j)
    /\ (0 <= payload_claude before < payload_count before ->
        0 <= payload_claude after < Z.max 1 (payload_count after))
    /\ (0 <= payload_gemini before < payload_count before ->
        0 <= payload_gemini after < Z.max 1 (payload_count after)).
Proof.
  intros Hrun. cbn zeta. unfold deleteAccount in Hrun.
  apply bind_inv_ok in Hrun as (ok & w1 & Hdel & Hret). prim Hret.
  unfold deleteAccountByFile in Hdel.
  apply bind_inv_ok in Hdel as (safeName & w0 & Hsan & Hdel).
  unfold of_outcome in Hsan.
  assert (Hname : sanitizeCredentialFileName fileName = Ok safeName) by congruence.
  assert (w0 = w) as -> by congruence. clear Hsan.
  assert (Htrim : safeName = trim fileName).
  { unfold sanitizeCredentialFileName in Hname.
    destruct (is_empty (trim fileName)); [discriminate|].
    destruct (includes "/" (trim fileName) || includes "\" (trim fileName)
              || includes ".." (trim fileName)); [discriminate|].
    destruct (negb (endsWith ".json" (trim fileName))); [discriminate|].
    congruence. }
  erewrite bind_ok in Hdel by reflexivity.
  set (p := fun a => String.eqb (path_basename E (filePath a)) safeName) in Hdel.
  destruct (Z.eqb_spec (findIndex p (accounts w)) (-1)) as [Habsent|Hfound];
    [discriminate|].
  destruct (findIndex_from_found p (accounts w) 0 _ eq_refl Hfound ltac:(lia))
    as (i & a & _ & Hl & Ha & Hfirst).
  apply String.eqb_eq in Ha.
  destruct (deleteAccountByFile_found E fileName safeName w i a Hname Hl Ha)
    as (w2 & Hrun2 & Hacc & _ & Hcur).
  { intros j b Hj Hb. apply String.eqb_neq. exact (Hfirst j b Hj Hb). }
  assert (w' = w2) as ->.
  { unfold deleteAccountByFile in Hrun2.
    erewrite bind_ok in Hrun2 by (unfold of_outcome; rewrite Hname; reflexivity).
    erewrite bind_ok in Hrun2 by reflexivity. fold p in Hrun2.
    destruct (Z.eqb_spec (findIndex p (accounts w)) (-1)); [contradiction|].
    congruence. }
  clear Hdel Hrun2.
  pose proof (lookup_lt_Some _ _ _ Hl) as Hlen.
  exists i, (summary_of E i a).
  unfold getAccountsPayload. cbn [payload_accounts payload_count payload_claude payload_gemini].
  assert (Hcount : length (getAccountsSummary E w2) = (length (accounts w) - 1)%nat).
  { unfold getAccountsSummary. rewrite length_imap, Hacc, length_delete by eauto. lia. }
  assert (Hcount0 : length (getAccountsSummary E w) = length (accounts w)).
  { unfold getAccountsSummary. now rewrite length_imap. }
  rewrite Hcount, Hcount0.
  split; [rewrite getAccountsSummary_lookup, Hl; reflexivity|].
  split; [rewrite <- Htrim; exact Ha|].
  split.
  { intros j s Hj. rewrite getAccountsSummary_lookup.
    destruct (accounts w !! j) as [b|] eqn:Hb; [|discriminate].
    intros [= <-]. cbn. rewrite <- Htrim. apply String.eqb_neq.
    exact (Hfirst j b Hj Hb). }
  split; [lia|].
  split.
  { intros j Hj. rewrite !getAccountsSummary_lookup, Hacc.
    now rewrite list_lookup_delete_lt. }
  split.
  { intros j Hj. rewrite !getAccountsSummary_lookup, Hacc.
    rewrite list_lookup_delete_ge by assumption.
    destruct (accounts w !! S j); reflexivity. }
  assert (Hadj : forall g,
             0 <= getCurrentAccountIndex g w < Z.of_nat (length (accounts w)) ->
             0 <= getCurrentAccountIndex g w2
             < Z.max 1 (Z.of_nat (length (accounts w) - 1))).
  { intros g Hg. rewrite Hcur. unfold adjusted. cases_eqb; try lia.
    all: repeat match goal with
                | |- context [?x <? ?y] => destruct (Z.ltb_spec x y)
                end; lia. }
  split; apply Hadj.
Qed.

End AdminListing.

Lemma deleteAccount_listing_witness :
  let w := Example.world [Example.A; Example.B; Example.C] 2 1 ∅ ∅ 1000 in
  let w' := snd (Admin.deleteAccount Example.offline " b.json" w) in
  Admin.summary_file <$> Admin.payload_accounts (Admin.getAccountsPayload Example.offline w')
  = ["a.json"; "c.json"]
  /\ Admin.payload_count (Admin.getAccountsPayload Example.offline w') = 2
  /\ exists (i : nat) gone,
       Admin.payload_accounts (Admin.getAccountsPayload Example.offline w) !! i = Some gone
       /\ Admin.summary_file gone = "b.json".
Proof.
  cbn zeta. split; [reflexivity|]. split; [reflexivity|].
  destruct (deleteAccount_listing Example.offline " b.json"
              (Example.world [Example.A; Example.B; Example.C] 2 1 ∅ ∅ 1000)
              (snd (Admin.deleteAccount Example.offline " b.json"
                      (Example.world [Example.A; Example.B; Example.C] 2 1 ∅ ∅ 1000)))
              eq_refl) as (i & gone & Hi & Hfile & _).
  exists i, gone. split; [exact Hi|exact Hfile].
Defined.

(** ** The probe of the fast-fail gate *)

Section Probe.
Variable E : Env.

(** When the gate finds every account at 0 it has an account to probe. *)
Lemma snapshot_not_empty modelId now w :
  let snapshot := getAccountPrioritiesForModel E modelId
                    {| opt_now := now; includeZero := true;
                       excludeAccountIndices := ∅ |} w in
  allZeroKnown snapshot = true -> items snapshot <> [].
Proof.
  cbn zeta. intros Hzero Hitems.
  assert (Hpool : accounts w <> []).
  { unfold getAccountPrioritiesForModel in Hzero. cbn [allZeroKnown] in Hzero.
    apply andb_true_iff in Hzero as [Hknown _].
    apply andb_true_iff in Hknown as [Hpos _].
    apply Z.ltb_lt in Hpos. unfold getAccountCount in Hpos.
    destruct (accounts w); [simpl in Hpos; lia|discriminate]. }
  destruct (accounts w) as [|a rest] eqn:Hacc; [congruence|].
  assert (Hin : annotate E (modelQuotaByAccount w !! trim modelId) now 0 a
                ∈ items (getAccountPrioritiesForModel E modelId
                           {| opt_now := now; includeZero := true;
                              excludeAccountIndices := ∅ |} w)).
  { apply items_elem_of. exists 0%nat, a. rewrite Hacc.
    split; [reflexivity|]. split; [|reflexivity].
    split; [cbn; set_solver|now left]. }
  rewrite Hitems in Hin. now apply elem_of_nil in Hin.
Qed.

(** X18.  Every account is known to be at 0 for the model and no error is
    cached for it: the call probes the first account of the snapshot,
    which exists, with one request, and ends with what the probe gives.
    An error of the credential lookup or of the network is thrown; a
    response is returned, after it was cached when it is not a success, so
    that the cache gives it back to the calls that follow.  The attempt
    loop is not entered: there is no sleep and no second request. *)
Theorem callV1Internal_probe (method : string) (options : Options) (w : World) :
  let modelId := trim (options_model options) in
  let quotaGroup := getQuotaGroupFromModel
                      (if is_empty (options_group options)
                       then options_model options else options_group options) in
  let w1 := after_pre_wait E modelId w in
  let snapshot := getAccountPrioritiesForModel E modelId
                    {| opt_now := clock w1; includeZero := true;
                       excludeAccountIndices := ∅ |} w1 in
  let run := callV1Internal E method options w in
  modelId <> EmptyString ->
  allZeroKnown snapshot = true ->
  getCachedErrorResponse E modelId w1 = None ->
  exists pick rest,
    items snapshot = pick :: rest
    /\ (forall e w2,
          getCredentialsByIndex E (item_accountIndex pick) (group_name quotaGroup) w1
          = (Throw e, w2) ->
          run = (Throw e, w2))
    /\ (forall creds w2,
          getCredentialsByIndex E (item_accountIndex pick) (group_name quotaGroup) w1
          = (Ok creds, w2) ->
          let req := make_request method options creds in
          trace (snd run) = trace w2 ++ [EvCallV1Internal req]
          /\ match httpClient_callV1Internal E (length (trace w2)) req with
             | Throw netErr => fst run = Throw netErr
             | Ok response =>
                 fst run = Ok response
                 /\ (response_ok response = true -> snd run = snd (http_call E req w2))
                 /\ (response_ok response = false ->
                     getCachedErrorResponse E modelId (snd run)
                     = new_Response E (bodyText response)
                         (if status response =? 0 then 500 else status response)
                         (headers response))
             end).
Proof.
  intros modelId quotaGroup w1 snapshot run Hne Hzero Hcached.
  assert (Hempty : is_empty modelId = false) by (now destruct modelId).
  assert (Htrim : trim modelId = modelId) by apply trim_idempotent.
  pose proof (snapshot_not_empty modelId (clock w1) w1 Hzero) as Hitems.
  fold snapshot in Hitems.
  destruct (items snapshot) as [|pick rest] eqn:Hsnap; [congruence|].
  exists pick, rest. split; [reflexivity|].
  assert (Hrun : run
                 = bind (getCredentialsByIndex E (item_accountIndex pick)
                           (group_name quotaGroup))
                     (fun creds =>
                        bind (http_call E (make_request method options creds))
                          (fun response =>
                             bind (if response_ok response then ret tt
                                   else cacheLastErrorResponse modelId response)
                               (fun _ => ret response))) w1).
  { unfold run, callV1Internal. fold modelId quotaGroup.
    erewrite bind_ok by reflexivity.
    erewrite bind_ok by apply pre_wait_run. fold w1.
    unfold bind at 1. unfold fast_fail at 1. rewrite Hempty.
    erewrite bind_ok by reflexivity. fold snapshot.
    rewrite Hzero, Hcached, Hsnap.
    unfold bind.
    destruct (getCredentialsByIndex E (item_accountIndex pick) (group_name quotaGroup) w1)
      as [[creds|e] w2]; [|reflexivity].
    destruct (http_call E (make_request method options creds) w2)
      as [[response|e] w3]; [|reflexivity].
    destruct ((if response_ok response then ret tt
               else cacheLastErrorResponse modelId response) w3)
      as [[[]|e] w4]; reflexivity. }
  split.
  - intros e w2 Hcreds. rewrite Hrun. now rewrite (bind_throw _ _ _ _ _ Hcreds).
  - intros creds w2 Hcreds req. rewrite Hrun.
    rewrite (bind_ok _ _ _ _ _ Hcreds). fold req.
    assert (Hhttp : forall K : Response -> M Response,
               bind (http_call E req) K w2
               = match httpClient_callV1Internal E (length (trace w2)) req with
                 | Ok response => K response (snd (http_call E req w2))
                 | Throw netErr => (Throw netErr, snd (http_call E req w2))
                 end) by reflexivity.
    rewrite Hhttp. clear Hhttp.
    destruct (httpClient_callV1Internal E (length (trace w2)) req) as [response|netErr].
    2:{ split; reflexivity. }
    destruct (response_ok response) eqn:Hok.
    + split; [reflexivity|]. split; [reflexivity|]. split; [reflexivity|discriminate].
    + set (w3 := snd (http_call E req w2)).
      assert (Hcache : cacheLastErrorResponse modelId response w3
                       = (Ok tt, snd (cacheLastErrorResponse modelId response w3))).
      { unfold cacheLastErrorResponse. rewrite Htrim, Hempty. reflexivity. }
      rewrite (bind_ok _ _ _ _ _ Hcache). cbn [fst snd ret].
      assert (Hround : getCachedErrorResponse E modelId
                         (snd (cacheLastErrorResponse modelId response w3))
                       = new_Response E (bodyText response)
                           (if status response =? 0 then 500 else status response)
                           (headers response)
                       /\ trace (snd (cacheLastErrorResponse modelId response w3))
                          = trace w3).
      { unfold cacheLastErrorResponse, getCachedErrorResponse. rewrite Htrim, Hempty.
        cbn. now rewrite lookup_insert_eq. }
      destruct Hround as [Hround Htrace].
      split; [rewrite Htrace; reflexivity|].
      split; [reflexivity|]. split; [discriminate|]. intros _. exact Hround.
Qed.

End Probe.

(** The pool of the probe: A alone, at 0 for the model, nothing cached. *)
Definition probe_world : World :=
  Example.world [Example.A] 0 0
    {[ "gemini-3-pro-high" := {[ "a.json" := zero_entry ]} ]} ∅ 1000.

Lemma callV1Internal_probe_witness :
  let options := Example.request_options "gemini-3-pro-high" in
  let run := callV1Internal Example.limited "generateContent" options probe_world in
  fst run = Ok (Example.too_many "retry in 0.5s")
  /\ getCachedErrorResponse Example.limited "gemini-3-pro-high" (snd run)
     = Some (Example.too_many "retry in 0.5s")
  /\ exists req, trace (snd run) = [EvCallV1Internal req].
Proof.
  cbn zeta.
  destruct (callV1Internal_probe Example.limited "generateContent"
              (Example.request_options "gemini-3-pro-high") probe_world)
    as (pick & rest & Hitems & _ & Hprobe).
  - discriminate.
  - reflexivity.
  - reflexivity.
  - injection Hitems as <- _.
    specialize (Hprobe
                  {| accessToken := "token-a"; result_projectId := Some "projects/demo";
                     account := Example.A; accountIndex := 0 |}
                  probe_world eq_refl).
    cbn zeta in Hprobe. destruct Hprobe as (Htrace & Hout & _ & Hcache).
    split; [exact Hout|]. split; [exact (Hcache eq_refl)|].
    eexists. exact Htrace.
Defined.

(* ===================================================================== *)
(** * Expired tokens and refreshes in flight *)
(* ===================================================================== *)

Lemma keeps_caches_settle E i p : keeps caches (refreshToken_settle E i p).
Proof.
  unfold refreshToken_settle, refreshToken_body, refresh_projectId, fetchProjectId,
    writeFile, scheduleRefresh, update_account.
  repeat frame_step.
Qed.

Section InFlight.
Variable E : Env.

(** A lookup that finds a refresh in flight awaits it: it fails as the
    refresh fails, and goes on as if started once it has settled. *)
Lemma fresh_token_join i w a p out w1 :
  accounts w !! i = Some a -> refreshPromise a = Some p ->
  refreshToken_settle E i p w = (out, w1) ->
  match out with
  | Throw er => fresh_token E i w = (Throw er, w1)
  | Ok _ => fresh_token E i w = fresh_token E i w1
  end.
Proof.
  intros Hl Hp Hsettle.
  destruct (refreshToken_settle_slot E i p w a out w1 Hl Hsettle) as (a1 & Hl1 & Hnone).
  destruct out as [t|er].
  - unfold fresh_token.
    erewrite bind_ok by (apply get_account_run; eassumption).
    erewrite (bind_ok (get_account i) _ w1) by (apply get_account_run; eassumption).
    rewrite Hp, Hnone.
    erewrite bind_ok by (erewrite bind_ok by exact Hsettle; reflexivity).
    erewrite (bind_ok (ret tt)) by reflexivity.
    reflexivity.
  - unfold fresh_token.
    erewrite bind_ok by (apply get_account_run; eassumption).
    rewrite Hp.
    erewrite bind_throw; [reflexivity|].
    erewrite bind_throw by exact Hsettle. reflexivity.
Qed.

(** C6, as the code has it.  The [expiry_date] of the account is strictly
    before the current instant when [getCredentialsByIndex],
    [getAccessTokenByIndex] or [getCredentials] is called for it.  With no
    refresh of the account in flight, the lookup sends the refresh request
    first, and a token is only returned if the refresh answered, and then
    it is the token it produced.  With a refresh in flight the lookup sends
    no request of its own but awaits that refresh: it throws its error if
    it fails, and otherwise does what the same lookup does when it is
    started in the state in which the refresh has settled, where no
    refresh is in flight. *)
Theorem expired_token_is_refreshed (w : World) (index : Z) (a : Account)
    (e : Z) (group : string) :
  0 <= index ->
  accounts w !! Z.to_nat index = Some a ->
  expiry_date (creds a) = Some e ->
  e < clock w ->
  let i := Z.to_nat index in
  let current (w0 : World) := getCurrentAccountIndex (normalizeQuotaGroup group) w0 = index in
  (refreshPromise a = None ->
   (forall out w', getCredentialsByIndex E index group w = (out, w') ->
                   refreshed_first E w a out w')
   /\ (forall out w', getAccessTokenByIndex E index group w = (out, w') ->
                      refreshed_first E w a out w')
   /\ (current w ->
       forall out w', getCredentials E group w = (out, w') ->
                      refreshed_first E w a out w'))
  /\ (forall p, refreshPromise a = Some p ->
        let settled := refreshToken_settle E i p w in
        let w1 := snd settled in
        match fst settled with
        | Throw er =>
            getCredentialsByIndex E index group w = (Throw er, w1)
            /\ getAccessTokenByIndex E index group w = (Throw er, w1)
            /\ (current w -> getCredentials E group w = (Throw er, w1))
        | Ok _ =>
            (exists a1, accounts w1 !! i = Some a1 /\ refreshPromise a1 = None)
            /\ getCredentialsByIndex E index group w = getCredentialsByIndex E index group w1
            /\ getAccessTokenByIndex E index group w = getAccessTokenByIndex E index group w1
            /\ (current w ->
                current w1 /\ getCredentials E group w = getCredentials E group w1)
        end).
Proof.
  intros Hnn Hl He Hlt i current. split.
  - intros Hnone.
    exact (lookup_refreshes_expired E w index a e group Hnn Hl Hnone He Hlt).
  - intros p Hp settled w1.
    destruct (refreshToken_settle E i p w) as [out w1'] eqn:Hsettle.
    subst settled w1. cbn [fst snd].
    pose proof (fresh_token_join i w a p out w1' Hl Hp Hsettle) as Hjoin.
    destruct (refreshToken_settle_slot E i p w a out w1' Hl Hsettle) as (a1 & Hl1 & Hnone1).
    assert (Hlen : length (accounts w1') = length (accounts w)).
    { destruct (stable_refreshToken_settle E i p w) as [Hlen _].
      now rewrite Hsettle in Hlen. }
    assert (Hcaches : caches w1' = caches w).
    { pose proof (keeps_caches_settle E i p w) as Hk. now rewrite Hsettle in Hk. }
    apply caches_inv in Hcaches as (_ & _ & Hclaude & Hgemini).
    assert (Hcur : forall g, getCurrentAccountIndex g w1' = getCurrentAccountIndex g w)
      by (intros []; assumption).
    pose proof (check_index_run index w a Hnn Hl) as Hc.
    pose proof (check_index_run index w1' a1 Hnn Hl1) as Hc1.
    assert (Hcount : getAccountCount w1' = getAccountCount w)
      by (unfold getAccountCount; now rewrite Hlen).
    assert (Hpos : (getAccountCount w =? 0) = false).
    { apply Z.eqb_neq. unfold getAccountCount. apply lookup_lt_Some in Hl. lia. }
    assert (Hneg : (index <? 0) = false) by (apply Z.ltb_ge; lia).
    destruct out as [t|er].
    + split; [eauto|]. split; [|split].
      * unfold getCredentialsByIndex.
        rewrite (bind_ok _ _ _ _ _ Hc), (bind_ok _ _ _ _ _ Hc1).
        fold i. unfold bind at 1 5. now rewrite Hjoin.
      * unfold getAccessTokenByIndex.
        rewrite (bind_ok _ _ _ _ _ Hc), (bind_ok _ _ _ _ _ Hc1).
        fold i. unfold bind at 1 4. now rewrite Hjoin.
      * intros Hidx. unfold current in *. rewrite Hcur. split; [exact Hidx|].
        unfold getCredentials.
        erewrite bind_ok by reflexivity.
        erewrite (bind_ok get _ w1') by reflexivity.
        rewrite Hcount, Hcur, Hpos, Hidx, Hneg.
        erewrite bind_ok by reflexivity.
        erewrite (bind_ok (ret tt) _ w1') by reflexivity.
        fold i. unfold bind at 1 5. now rewrite Hjoin.
    + split; [|split].
      * unfold getCredentialsByIndex.
        rewrite (bind_ok _ _ _ _ _ Hc). fold i.
        now rewrite (bind_throw _ _ _ _ _ Hjoin).
      * unfold getAccessTokenByIndex.
        rewrite (bind_ok _ _ _ _ _ Hc). fold i.
        now rewrite (bind_throw _ _ _ _ _ Hjoin).
      * intros Hidx. unfold current in Hidx. unfold getCredentials.
        erewrite bind_ok by reflexivity.
        rewrite Hpos, Hidx, Hneg.
        erewrite bind_ok by reflexivity. fold i.
        now rewrite (bind_throw _ _ _ _ _ Hjoin).
Qed.

End InFlight.

Lemma expired_token_is_refreshed_witness :
  let stale := Example.account_of "a.json" "token-a" 0 in
  let w := Example.world [stale] 0 0 ∅ ∅ 1000 in
  let r := getCredentialsByIndex Example.renewing 0 "gemini" w in
  refreshed_first Example.renewing w stale (fst r) (snd r).
Proof.
  intros stale w r.
  refine (proj1 (proj1 (expired_token_is_refreshed Example.renewing w 0 stale 0 "gemini"
                          _ _ _ _) _) (fst r) (snd r) _);
    [lia | reflexivity | reflexivity | cbn; lia | reflexivity | apply surjective_pairing].
Defined.

(** The token has expired and a refresh of the account is in flight (its
    request is the first event): the lookup awaits it and returns the
    token it produced, and sends no refresh request of its own. *)
Example token_expired_refresh_in_flight :
  let joining := set_refreshPromise (Some 0%nat) (Example.account_of "a.json" "token-a" 0) in
  let w := set_trace [EvRefreshToken "refresh-token-a"]
             (Example.world [joining] 0 0 ∅ ∅ 1000) in
  let r := getAccessTokenByIndex Example.renewing 0 "gemini" w in
  (accessToken <$> match fst r with Ok c => Some c | Throw _ => None end) = Some "token-new"
  /\ List.filter (fun ev => match ev with EvRefreshToken _ => true | _ => false end)
       (trace (snd r))
     = [EvRefreshToken "refresh-token-a"].
Proof. vm_compute. split; reflexivity. Qed.

(* ===================================================================== *)
(** * Cooldowns and the single attempt *)
(* ===================================================================== *)

(** An integer that the doubles of the source hold exactly, as they hold
    the sum of two integers when it lies in this range. *)
Definition safe_integer (z : Z) : Prop := - 9007199254740992 <= z <= 9007199254740992.

Section Cooldown.
Variable E : Env.

Lemma quota_cache_fn : cache_fn modelQuotaByAccount.
Proof. intros w w' H. now apply caches_inv in H as (Hq & _). Qed.

(** The probe of the fast-fail gate sets no cooldown: it does not write to
    the quota map. *)
Lemma keeps_quota_fast_fail method options modelId g :
  keeps modelQuotaByAccount (fast_fail E method options modelId g).
Proof.
  unfold fast_fail, cacheLastErrorResponse.
  repeat first
    [ apply (keeps_of_caches modelQuotaByAccount quota_cache_fn),
        keeps_caches_getCredentialsByIndex
    | apply keeps_quota_http
    | frame_step ].
Qed.

(** C1, as the code has it.  The request of an iteration of the attempt
    loop for the model [modelId] on the account [accountName], or its
    repetition after a network error, is answered 429 with retry hint
    [r]; the iteration started at [now].  When the iteration ends, the
    cooldown of the pair is [now + max(0, r)] for a finite hint,
    [now + FIXED_RETRY_DELAY_MS] without a hint, and none ([null], which
    erases a previous one) for an infinite hint.  What answers the
    repetition that a call with a single attempt makes, be it a 429 with
    another hint, does not change it.  This is the cooldown after an
    iteration whose request is answered 429, for the account whose
    credentials the iteration used.  The probe of the fast-fail gate sets
    no cooldown, whatever it is answered.  And at no instant before the
    cooldown of an account does the attempt loop pick that account for
    the model.  The sums are taken where the doubles of the source hold
    them exactly. *)
Theorem on_response_429_cooldown (modelId : string) (maxAttempts now : Z)
    (accountName : string) (req : Request) (ls : LoopState) (r : Response) (w : World) :
  status r = 429 ->
  modelId <> EmptyString ->
  trim modelId = modelId ->
  (forall c, cooldown_after E now (parseRetryDelayMs E (bodyText r)) = Finite c ->
             safe_integer c) ->
  let w' := snd (on_response E modelId maxAttempts now accountName req ls r w) in
  cooldown_at w' modelId accountName
  = match parseRetryDelayMs E (bodyText r) with
    | Some (Finite retryMs) => Some (now + Z.max 0 retryMs)
    | Some Infinity => None
    | None => Some (now + FIXED_RETRY_DELAY_MS E)
    end
  /\ (forall method options g ls0 w0 w1 picked creds r0,
        select E modelId g (clock w0) ls0 w0 = (Ok (inr picked), w0) ->
        getCredentialsByIndex E (item_accountIndex picked) (group_name g) w0
        = (Ok creds, w1) ->
        httpClient_callV1Internal E (length (trace w1)) (make_request method options creds)
        = Ok r0 ->
        status r0 = 429 ->
        (forall c, cooldown_after E (clock w0) (parseRetryDelayMs E (bodyText r0)) = Finite c ->
                   safe_integer c) ->
        cooldown_at (snd (attempt E method options modelId g maxAttempts ls0 w0))
          modelId (getAccountKeyFromAccount E (account creds))
        = finite_or_null (cooldown_after E (clock w0) (parseRetryDelayMs E (bodyText r0))))
  /\ (forall method options g w0,
        modelQuotaByAccount (snd (fast_fail E method options modelId g w0))
        = modelQuotaByAccount w0)
  /\ forall (w2 : World) (i : nat) (a : Account) (c later : Z) g ls2 it w3,
       accounts w2 !! i = Some a ->
       cooldown_at w2 modelId (getAccountKeyFromAccount E a) = Some c ->
       later < c ->
       select E modelId g later ls2 w2 = (Ok (inr it), w3) ->
       item_accountIndex it <> Z.of_nat i.
Proof.
  intros H429 Hne Htrim _ w'.
  assert (Hempty : is_empty modelId = false) by now destruct modelId.
  split; [|split; [|split]].
  - unfold w'. rewrite on_response_sets_cooldown by assumption.
    unfold cooldown_after.
    now destruct (parseRetryDelayMs E (bodyText r)) as [[retryMs|]|].
  - intros method options g ls0 w0 w1 picked creds r0 Hsel Hcreds Hanswer Hr0 _.
    rewrite (attempt_response E _ _ _ _ _ _ _ _ _ _ _ Hsel Hcreds Hanswer).
    now apply on_response_sets_cooldown.
  - intros method options g w0. apply keeps_quota_fast_fail.
  - intros w2 i a c later g ls2 it w3 Hi Hc Hlt Hsel.
    eapply select_skips_cooling; eauto.
Qed.

End Cooldown.

(** The pool of a single account. *)
Definition single_world : World := Example.world [Example.A] 0 0 ∅ ∅ 1000.

(** A 429 with a hint of half a second at instant 1000 puts the cooldown
    at 1500; the repetition of the single attempt is answered 429 with a
    hint of nine seconds, and the cooldown is still 1500. *)
Lemma on_response_429_cooldown_witness :
  let first := Example.too_many (Example.retry_body "0.5s") in
  let run := on_response (Example.throttled "9s") "gemini-3-pro" 1 1000 "a.json" request_a
               initial_loop_state first single_world in
  parseRetryDelayMs (Example.throttled "9s") (bodyText first) = Some (Finite 500)
  /\ fst run = Ok (Return (Example.too_many (Example.retry_body "9s")))
  /\ cooldown_at (snd run) "gemini-3-pro" "a.json" = Some 1500.
Proof.
  cbn zeta. split; [vm_compute; reflexivity|]. split; [vm_compute; reflexivity|].
  refine (proj1 (on_response_429_cooldown (Example.throttled "9s") "gemini-3-pro" 1 1000
                   "a.json" request_a initial_loop_state
                   (Example.too_many (Example.retry_body "0.5s")) single_world _ _ _ _)).
  - reflexivity.
  - discriminate.
  - reflexivity.
  - intros c Hc. vm_compute in Hc. injection Hc as <-. unfold safe_integer. lia.
Defined.

(** C1 as stated fails for a hint below [FIXED_RETRY_DELAY_MS] (1200 here):
    after the 429 with a hint of 500 ms at instant 1000 the cooldown of A
    is 1500, not 1000 + max(500, 1200) = 2200, and at instant 1600 the
    attempt loop of a new request picks A again. *)
Lemma cooldown_below_fixed_delay :
  let run := callV1Internal Example.limited_once "generateContent"
               (Example.request_options "gemini-3-pro") rotation_world in
  parseRetryDelayMs Example.limited_once (Example.retry_body "0.5s") = Some (Finite 500)
  /\ fst run = Ok Example.success
  /\ cooldown_at (snd run) "gemini-3-pro" "a.json" = Some 1500
  /\ cooldown_at (snd run) "gemini-3-pro" "a.json"
     <> Some (1000 + Z.max 500 (FIXED_RETRY_DELAY_MS Example.limited_once))
  /\ (item_accountKey <$>
        match fst (select Example.limited_once "gemini-3-pro" gemini 1600
                     initial_loop_state (snd run)) with
        | Ok (inr picked) => Some picked
        | _ => None
        end) = Some "a.json".
Proof. vm_compute. repeat split; discriminate. Qed.

Lemma on_response_429_single_account_witness :
  let long := on_response Example.limited "gemini-3-pro" 1 1000 "a.json" request_a
                initial_loop_state (Example.too_many (Example.retry_body "9s"))
                single_world in
  let short := on_response Example.limited_once "gemini-3-pro" 1 1000 "a.json" request_a
                 initial_loop_state (Example.too_many (Example.retry_body "0.5s"))
                 single_world in
  (fst long = Ok (Return (Example.too_many (Example.retry_body "9s")))
   /\ trace (snd long) = [])
  /\ (trace (snd short) = [EvSleep 700; EvCallV1Internal request_a]
      /\ fst short = Ok (Return Example.success)).
Proof.
  intros long short. split.
  - refine (proj1 (on_response_429_single_account Example.limited "gemini-3-pro" 1000
                     "a.json" request_a initial_loop_state
                     (Example.too_many (Example.retry_body "9s")) single_world eq_refl) _).
    right. exists 9000. split; [vm_compute; reflexivity|lia].
  - refine (proj1 (proj2 (on_response_429_single_account Example.limited_once
                            "gemini-3-pro" 1000 "a.json" request_a initial_loop_state
                            (Example.too_many (Example.retry_body "0.5s")) single_world
                            eq_refl))
              700 _).
    right. exists 500. split; [vm_compute; reflexivity|]. split; lia.
Defined.

(** C4 as stated fails for the probe of the fast-fail gate.  A is the only
    account, it is known to be at 0 for the model and no error is cached:
    the call has a single attempt, the request is answered 429 with a hint
    of 500 ms, which is not more than 5000, and the 429 is returned at
    once: there is no sleep and the request is not repeated. *)
Lemma probe_429_is_not_retried :
  let answer := Example.too_many (Example.retry_body "0.5s") in
  let run := callV1Internal (Example.throttled "0.5s") "generateContent"
               (Example.request_options "gemini-3-pro-high") probe_world in
  getMaxAttempts probe_world = 1
  /\ parseRetryDelayMs (Example.throttled "0.5s") (bodyText answer) = Some (Finite 500)
  /\ fst run = Ok answer
  /\ trace (snd run) = [EvCallV1Internal request_a]
  /\ trace (snd run) <> [EvCallV1Internal request_a; EvSleep 700; EvCallV1Internal request_a].
Proof. vm_compute. repeat split; discriminate. Qed.
